(** * MailHarvest: the email harvesting pipeline of [src/email/MailHarvest.py]

    A shallow embedding of the IMAP connector ([ImapEmailConnector]), its
    HTML-to-text converter and content extractor, of the connector
    factory, of the export service and of the reader of exclusion files,
    followed by the properties the specification states about them and by
    further properties of the same code.

    Conventions of the embedding:
    - a Python [str] is a list of Unicode code points ([N]);
    - a Python [bytes] is a list of [byte];
    - a call that can raise returns a [Result];
    - the regular expressions of the source are values of [regex], run by a
      backtracking matcher with the priorities of Python's [re] module;
    - the IMAP server is a record of replies, and every command the
      connector sends is appended to a trace.

    What the standard library does for the program enters as data: the
    MIME parser gives the tree of parts of a message, the header and
    date helpers give the decoded subject, sender and date, and a file
    gives its lines. [str.lower], the opening of a connection and the
    writing of the export file are parameters of the code; [StrLower]
    gives [str.lower] as the interpreter computes it, for the statements
    that depend on the case of letters beyond ASCII. Lines printed on the
    console are left out. *)

From Stdlib.Strings Require Import String Ascii Byte.
From Stdlib Require Import List NArith ZArith Bool Lia.
Import ListNotations.

Set Implicit Arguments.

(** ** Python values *)

Definition str := list N.
Definition bytes := list byte.

(** [u "lit"] is the Python literal ['lit'] (ASCII literals only). *)
Definition u (s : string) : str :=
  List.map Byte.to_N (list_byte_of_string s).

(** [b "lit"] is the Python literal [b'lit']. *)
Definition b (s : string) : bytes := list_byte_of_string s.

Definition chr_lt : N := 60.        (* '<' *)
Definition chr_gt : N := 62.        (* '>' *)
Definition chr_amp : N := 38.       (* '&' *)
Definition chr_space : N := 32.     (* ' ' *)
Definition chr_nl : N := 10.        (* '\n' *)

(** ** Exceptions and results *)

Inductive Exn :=
| ValueError
| OverflowError
| UnicodeDecodeError
| AttributeError
| ServerError.   (* imaplib.IMAP4.error and transport errors *)

Inductive Result (A : Type) :=
| Ok (a : A)
| Raise (e : Exn).

Arguments Ok {A} a.
Arguments Raise {A} e.

Definition bind {A B} (c : Result A) (k : A -> Result B) : Result B :=
  match c with
  | Ok a => k a
  | Raise e => Raise e
  end.

Declare Scope result_scope.
Delimit Scope result_scope with result.
Notation "x <- c ;; k" := (bind c (fun x => k))
  (at level 100, c at next level, right associativity) : result_scope.
Open Scope result_scope.

(** ** String operations of Python used by the source *)

Module PyStr.

(** [s.startswith(p)] *)
Fixpoint startswith (p s : str) : bool :=
  match p, s with
  | [], _ => true
  | _ :: _, [] => false
  | c :: p', d :: s' => N.eqb c d && startswith p' s'
  end.

(** [p in s] *)
Fixpoint contains (p s : str) : bool :=
  startswith p s ||
  match s with
  | [] => false
  | _ :: s' => contains p s'
  end.

(** [c in s] for a one-character [c] *)
Definition has_char (c : N) (s : str) : bool := existsb (N.eqb c) s.

(** [s.replace(old, new)]: the occurrences of [old] are found from the
    left and do not overlap. [skip] counts the characters of the current
    occurrence that are still to be passed over. *)
Fixpoint replace_loop (old new : str) (skip : nat) (s : str) : str :=
  match s with
  | [] => []
  | c :: s' =>
      match skip with
      | S n => replace_loop old new n s'
      | O =>
          if startswith old s
          then new ++ replace_loop old new (length old - 1) s'
          else c :: replace_loop old new 0 s'
      end
  end.

Definition replace (old new s : str) : str :=
  match old with
  | [] => new ++ flat_map (fun c => c :: new) s
  | _ :: _ => replace_loop old new 0 s
  end.

(** [str.isspace] of one character, which is also the class [\s] of [re]
    on [str] patterns. *)
Definition is_space (c : N) : bool :=
  ((9 <=? c) && (c <=? 13) || (28 <=? c) && (c <=? 32) ||
   (c =? 133) || (c =? 160) || (c =? 5760) ||
   (8192 <=? c) && (c <=? 8202) || (c =? 8232) || (c =? 8233) ||
   (c =? 8239) || (c =? 8287) || (c =? 12288))%N.

Fixpoint lstrip (s : str) : str :=
  match s with
  | [] => []
  | c :: s' => if is_space c then lstrip s' else s
  end.

Definition rstrip (s : str) : str := rev (lstrip (rev s)).

(** [s.strip()] *)
Definition strip (s : str) : str := rstrip (lstrip s).

(** [sep.join(parts)] *)
Fixpoint join (sep : str) (parts : list str) : str :=
  match parts with
  | [] => []
  | [p] => p
  | p :: ps => p ++ sep ++ join sep ps
  end.

(** The blocks of Unicode decimal digits (category Nd, Unicode 14): first
    and last code point. Every block starts at a digit zero and counts up
    modulo ten. *)
Definition decimal_blocks : list (N * N) :=
  [ (48, 57); (1632, 1641); (1776, 1785); (1984, 1993); (2406, 2415);
    (2534, 2543); (2662, 2671); (2790, 2799); (2918, 2927); (3046, 3055);
    (3174, 3183); (3302, 3311); (3430, 3439); (3558, 3567); (3664, 3673);
    (3792, 3801); (3872, 3881); (4160, 4169); (4240, 4249); (6112, 6121);
    (6160, 6169); (6470, 6479); (6608, 6617); (6784, 6793); (6800, 6809);
    (6992, 7001); (7088, 7097); (7232, 7241); (7248, 7257); (42528, 42537);
    (43216, 43225); (43264, 43273); (43472, 43481); (43504, 43513);
    (43600, 43609); (44016, 44025); (65296, 65305); (66720, 66729);
    (68912, 68921); (69734, 69743); (69872, 69881); (69942, 69951);
    (70096, 70105); (70384, 70393); (70736, 70745); (70864, 70873);
    (71248, 71257); (71360, 71369); (71472, 71481); (71904, 71913);
    (72016, 72025); (72784, 72793); (73040, 73049); (73120, 73129);
    (92768, 92777); (92864, 92873); (93008, 93017); (120782, 120831);
    (123200, 123209); (123632, 123641); (125264, 125273);
    (130032, 130041) ]%N.

(** The value of a decimal digit, [None] for any other character. *)
Definition digit_value (c : N) : option N :=
  match find (fun r => (fst r <=? c) && (c <=? snd r))%N decimal_blocks with
  | Some r => Some ((c - fst r) mod 10)%N
  | None => None
  end.

(** The class [\d] of [re] on [str] patterns. *)
Definition is_digit (c : N) : bool :=
  match digit_value c with Some _ => true | None => false end.

(** The interpreter's default limit on the digits of a decimal string
    ([sys.get_int_max_str_digits()]). *)
Definition int_max_str_digits : nat := 4300.

Fixpoint int_digits (acc : N) (s : str) : option N :=
  match s with
  | [] => Some acc
  | c :: s' =>
      match digit_value c with
      | Some d => int_digits (10 * acc + d)%N s'
      | None => None
      end
  end.

(** [int(s)] for a string of decimal digits (no sign, no blanks). *)
Definition int (s : str) : Result N :=
  match s with
  | [] => Raise ValueError
  | _ :: _ =>
      if (int_max_str_digits <? List.length s)%nat then Raise ValueError
      else match int_digits 0 s with
           | Some n => Ok n
           | None => Raise ValueError
           end
  end.

(** [chr(n)] for [n >= 0]: a C int is expected, then a code point. *)
Definition chr (n : N) : Result str :=
  if (2147483647 <? n)%N then Raise OverflowError
  else if (1114111 <? n)%N then Raise ValueError
  else Ok [n].

End PyStr.

(** ** UTF-8 decoding, [bytes.decode('utf-8', errors=...)] *)

Module Utf8.

(** One decoded code point, or one ill-formed run of bytes. *)
Inductive item :=
| Char (c : N)
| Invalid.

Definition is_cont (x : N) : bool := ((128 <=? x) && (x <=? 191))%N.

(** The second byte allowed after the lead byte [x] of a three- or
    four-byte sequence. *)
Definition second_ok (x y : N) : bool :=
  is_cont y &&
  (if (x =? 224)%N then (160 <=? y)%N
   else if (x =? 237)%N then (y <? 160)%N
   else if (x =? 240)%N then (144 <=? y)%N
   else if (x =? 244)%N then (y <? 144)%N
   else true).

(** The decoder reports an ill-formed run as soon as a byte cannot
    continue the sequence; the run then holds the bytes accepted so far.
    A sequence cut short by the end of the data is one run. *)
Fixpoint items (bs : list N) : list item :=
  match bs with
  | [] => []
  | x :: t1 =>
      if (x <? 128)%N then Char x :: items t1
      else if (x <? 194)%N then Invalid :: items t1
      else if (x <? 224)%N then
        match t1 with
        | [] => [Invalid]
        | y :: t2 =>
            if is_cont y
            then Char ((x - 192) * 64 + (y - 128))%N :: items t2
            else Invalid :: items t1
        end
      else if (x <? 240)%N then
        match t1 with
        | [] => [Invalid]
        | y :: t2 =>
            if second_ok x y then
              match t2 with
              | [] => [Invalid]
              | z :: t3 =>
                  if is_cont z
                  then Char ((x - 224) * 4096 + (y - 128) * 64 + (z - 128))%N
                         :: items t3
                  else Invalid :: items t2
              end
            else Invalid :: items t1
        end
      else if (x <? 245)%N then
        match t1 with
        | [] => [Invalid]
        | y :: t2 =>
            if second_ok x y then
              match t2 with
              | [] => [Invalid]
              | z :: t3 =>
                  if is_cont z then
                    match t3 with
                    | [] => [Invalid]
                    | w :: t4 =>
                        if is_cont w
                        then Char ((x - 240) * 262144 + (y - 128) * 4096
                                   + (z - 128) * 64 + (w - 128))%N
                               :: items t4
                        else Invalid :: items t3
                    end
                  else Invalid :: items t2
              end
            else Invalid :: items t1
        end
      else Invalid :: items t1
  end.

Definition replacement_character : N := 65533.

(** [bs.decode('utf-8', errors='replace')] *)
Definition decode_replace (bs : bytes) : str :=
  List.map (fun i => match i with Char c => c | Invalid => replacement_character end)
           (items (List.map Byte.to_N bs)).

Fixpoint all_chars (l : list item) : option str :=
  match l with
  | [] => Some []
  | Char c :: l' =>
      match all_chars l' with Some s => Some (c :: s) | None => None end
  | Invalid :: _ => None
  end.

(** [bs.decode()] *)
Definition decode_strict (bs : bytes) : Result str :=
  match all_chars (items (List.map Byte.to_N bs)) with
  | Some s => Ok s
  | None => Raise UnicodeDecodeError
  end.

End Utf8.

(** ** Regular expressions, as the [re] module runs them *)

Module Re.

Inductive greed := Greedy | Lazy.

Inductive regex :=
| Eps
| Chr (c : N)                    (* one literal character *)
| Cls (p : N -> bool)            (* a character class *)
| Cat (r1 r2 : regex)
| Alt (r1 r2 : regex)            (* r1|r2 *)
| Star (g : greed) (r : regex).  (* r* and r*? *)

(** [.] under [re.DOTALL] *)
Definition Dot : regex := Cls (fun _ => true).

(** [[^c]] *)
Definition Not (c : N) : regex := Cls (fun x => negb (N.eqb x c)).

(** [r+] *)
Definition Plus (r : regex) : regex := Cat r (Star Greedy r).

(** A literal word *)
Fixpoint Lit (p : str) : regex :=
  match p with
  | [] => Eps
  | c :: p' => Cat (Chr c) (Lit p')
  end.

Fixpoint Seq (l : list regex) : regex :=
  match l with
  | [] => Eps
  | r :: l' => Cat r (Seq l')
  end.

Fixpoint Alts (l : list regex) : regex :=
  match l with
  | [] => Cls (fun _ => false)
  | [r] => r
  | r :: l' => Alt r (Alts l')
  end.

Section Matcher.

Variable A : Type.

(** What is tried on the rest of the subject once an item has matched. *)
Definition cont := str -> option A.

(** Repetition of [body]: a greedy star tries one more round before it
    lets the continuation run, a lazy star does the opposite. A round
    must consume something. *)
Fixpoint star_loop (g : greed) (body : str -> cont -> option A)
         (k : cont) (fuel : nat) (s : str) : option A :=
  match fuel with
  | O => k s
  | S n =>
      let again (_ : unit) :=
        body s (fun s1 =>
                  if (List.length s1 <? List.length s)%nat
                  then star_loop g body k n s1
                  else None) in
      match g with
      | Greedy =>
          match again tt with
          | Some a => Some a
          | None => k s
          end
      | Lazy =>
          match k s with
          | Some a => Some a
          | None => again tt
          end
      end
  end.

(** The backtracking matcher: the first success in the order of
    priorities of the pattern. *)
Fixpoint rmatch (r : regex) : str -> cont -> option A :=
  match r with
  | Eps => fun s k => k s
  | Chr c =>
      fun s k =>
        match s with
        | x :: s' => if N.eqb x c then k s' else None
        | [] => None
        end
  | Cls p =>
      fun s k =>
        match s with
        | x :: s' => if p x then k s' else None
        | [] => None
        end
  | Cat r1 r2 => fun s k => rmatch r1 s (fun s1 => rmatch r2 s1 k)
  | Alt r1 r2 =>
      fun s k =>
        match rmatch r1 s k with
        | Some a => Some a
        | None => rmatch r2 s k
        end
  | Star g r1 => fun s k => star_loop g (rmatch r1) k (List.length s) s
  end.

End Matcher.

(** The match that starts at the head of [s], as its number of
    characters. With [must_advance] an empty match is refused. *)
Definition match_here (r : regex) (must_advance : bool) (s : str) : option nat :=
  rmatch r s
    (fun rest =>
       let n := (List.length s - List.length rest)%nat in
       if must_advance && (n =? 0)%nat then None else Some n).

Section Sub.

Variable r : regex.
(** The replacement, called with the matched text [m.group(0)]. *)
Variable repl : str -> Result str.

(** [re.sub]: matches are looked for from the left and do not overlap;
    after an empty match the next one at the same place must advance.
    [skip] counts the characters of the current match still to pass. *)
Fixpoint sub_loop (skip : nat) (s : str) : Result str :=
  match s with
  | [] =>
      match skip, match_here r false [] with
      | O, Some _ => repl []
      | _, _ => Ok []
      end
  | c :: s' =>
      match skip with
      | S n => sub_loop n s'
      | O =>
          match match_here r false s with
          | Some (S n) =>
              t <- repl (firstn (S n) s) ;;
              out <- sub_loop n s' ;;
              Ok (t ++ out)
          | Some O =>
              t0 <- repl [] ;;
              match match_here r true s with
              | Some (S n) =>
                  t <- repl (firstn (S n) s) ;;
                  out <- sub_loop n s' ;;
                  Ok (t0 ++ t ++ out)
              | _ =>
                  out <- sub_loop 0 s' ;;
                  Ok (t0 ++ c :: out)
              end
          | None =>
              out <- sub_loop 0 s' ;;
              Ok (c :: out)
          end
      end
  end.

Definition sub_with (s : str) : Result str := sub_loop 0 s.

End Sub.

(** [re.sub(r, t, s)] for a replacement string [t] without escapes. *)
Definition sub (r : regex) (t : str) (s : str) : Result str :=
  sub_with r (fun _ => Ok t) s.

End Re.

(** ** The HTML-to-text converter *)

Module Html.

Import Re.

(** [<script.*?>.*?</script>] with [re.DOTALL] *)
Definition script_re : regex :=
  Seq [Lit (u "<script"); Star Lazy Dot; Chr chr_gt;
       Star Lazy Dot; Lit (u "</script>")].

(** [<style.*?>.*?</style>] with [re.DOTALL] *)
Definition style_re : regex :=
  Seq [Lit (u "<style"); Star Lazy Dot; Chr chr_gt;
       Star Lazy Dot; Lit (u "</style>")].

(** [<(div|p|h\d|br|li|tr)[^>]*?>] *)
Definition block_re : regex :=
  Seq [Chr chr_lt;
       Alts [Lit (u "div"); Lit (u "p"); Cat (Chr 104) (Cls PyStr.is_digit);
             Lit (u "br"); Lit (u "li"); Lit (u "tr")];
       Star Lazy (Not chr_gt); Chr chr_gt].

(** [&#(\d+);] *)
Definition numeric_re : regex :=
  Seq [Lit (u "&#"); Plus (Cls PyStr.is_digit); Chr 59].

(** [<[^>]*?>] *)
Definition tag_re : regex :=
  Seq [Chr chr_lt; Star Lazy (Not chr_gt); Chr chr_gt].

(** [\n+] *)
Definition newlines_re : regex := Plus (Chr chr_nl).

(** [\s+] *)
Definition spaces_re : regex := Plus (Cls PyStr.is_space).

(** The dictionary [entities], in the order of its entries. *)
Definition entities : list (str * str) :=
  [ (u "&nbsp;", u " ");
    (u "&amp;", u "&");
    (u "&lt;", u "<");
    (u "&gt;", u ">");
    (u "&quot;", [34%N]);
    (u "&#39;", [39%N]);
    (u "&apos;", [39%N]);
    (u "&cent;", [162%N]);
    (u "&pound;", [163%N]);
    (u "&yen;", [165%N]);
    (u "&euro;", [8364%N]);
    (u "&copy;", [169%N]);
    (u "&reg;", [174%N]) ].

Definition replace_entities (s : str) : str :=
  fold_left (fun acc e => PyStr.replace (fst e) (snd e) acc) entities s.

(** [m.group(1)] of a match of [numeric_re]: the text between the two
    characters of [&#] and the closing [;]. *)
Definition numeric_group1 (m : str) : str :=
  removelast (skipn 2 m).

(** [lambda m: chr(int(m.group(1)))] *)
Definition numeric_repl (m : str) : Result str :=
  n <- PyStr.int (numeric_group1 m) ;;
  PyStr.chr n.

(** [ImapEmailConnector._html_to_text] *)
Definition _html_to_text (html_content : str) : Result str :=
  html_content <- sub script_re (u " ") html_content ;;
  html_content <- sub style_re (u " ") html_content ;;
  html_content <- sub block_re [chr_nl] html_content ;;
  let html_content := replace_entities html_content in
  html_content <- sub_with numeric_re numeric_repl html_content ;;
  html_content <- sub tag_re [] html_content ;;
  html_content <- sub newlines_re [chr_nl] html_content ;;
  html_content <- sub spaces_re (u " ") html_content ;;
  Ok (PyStr.strip html_content).

(** [re.sub(r'\s+', ' ', content).strip()] *)
Definition clean_whitespace (content : str) : Result str :=
  content <- sub spaces_re (u " ") content ;;
  Ok (PyStr.strip content).

End Html.

(** ** Parsed messages, as the program reads them *)

Module Mime.

(** A message or one of its parts: the content type that
    [get_content_type()] returns, the [Content-Disposition] header when
    there is one, and either the body bytes that
    [get_payload(decode=True)] returns or the list of sub-parts. *)
#[warnings="-register-all"]
Inductive Message :=
| Leaf (content_type : str) (content_disposition : option str)
       (payload : bytes)
| Multipart (content_type : str) (content_disposition : option str)
            (parts : list Message).

Definition is_multipart (m : Message) : bool :=
  match m with
  | Leaf _ _ _ => false
  | Multipart _ _ _ => true
  end.

Definition get_content_type (m : Message) : str :=
  match m with
  | Leaf t _ _ => t
  | Multipart t _ _ => t
  end.

(** [part.get("Content-Disposition")] *)
Definition get_content_disposition (m : Message) : option str :=
  match m with
  | Leaf _ d _ => d
  | Multipart _ d _ => d
  end.

(** [part.get_payload(decode=True)]: [None] for a multipart. *)
Definition get_payload_decoded (m : Message) : option bytes :=
  match m with
  | Leaf _ _ p => Some p
  | Multipart _ _ _ => None
  end.

(** [msg.walk()]: the message, then its parts, depth first. *)
Fixpoint walk (m : Message) : list Message :=
  m :: match m with
       | Leaf _ _ _ => []
       | Multipart _ _ ps =>
           (fix walk_all (l : list Message) : list Message :=
              match l with
              | [] => []
              | p :: l' => walk p ++ walk_all l'
              end) ps
       end.

(** [str(h)] of a header value that may be absent. *)
Definition str_of_header (h : option str) : str :=
  match h with
  | Some v => v
  | None => u "None"
  end.

End Mime.

(** ** The IMAP connector *)

Module Imap.

(** What [fetch_emails] takes from one fetched message: the results of
    [_decode_header] on the subject and sender headers, of [_parse_date]
    on the date header, and the parsed body. *)
Record Email := {
  email_subject : str;
  email_sender : str;
  email_date : str;
  email_body : Mime.Message
}.

(** The replies of the server behind an [imaplib.IMAP4_SSL] handle. A
    reply is the status word the call returns with its data, or the
    exception the call raises. *)
Record Server := {
  login_reply : str -> str -> Result unit;
  select_reply : Result str;
  search_reply : Result (str * bytes);        (* status, message_ids[0] *)
  fetch_reply : bytes -> Result (str * Email);  (* status, parsed msg_data[0][1] *)
  close_reply : Result unit;
  logout_reply : Result unit
}.

Inductive Command :=
| LOGIN (username password : str)
| SELECT (mailbox : str)
| SEARCH (criteria : str)
| FETCH (message_set : bytes) (message_parts : str)
| CLOSE
| LOGOUT.

(** A computation that sends commands: the trace of commands is threaded
    through, an exception stops the computation. *)
Definition IO (A : Type) : Type := list Command -> Result A * list Command.

Definition ret {A} (a : A) : IO A := fun t => (Ok a, t).

Definition lift {A} (r : Result A) : IO A := fun t => (r, t).

Definition iobind {A B} (c : IO A) (k : A -> IO B) : IO B :=
  fun t =>
    match c t with
    | (Ok a, t') => k a t'
    | (Raise e, t') => (Raise e, t')
    end.

(** Send one command and take the server's reply. *)
Definition send {A} (c : Command) (reply : Result A) : IO A :=
  fun t => (reply, t ++ [c]).

(** [try: c except: h] *)
Definition try_except {A} (c : IO A) (h : Exn -> IO A) : IO A :=
  fun t =>
    match c t with
    | (Ok a, t') => (Ok a, t')
    | (Raise e, t') => h e t'
    end.

End Imap.

Declare Scope io_scope.
Delimit Scope io_scope with io.
Notation "x <~ c ;; k" := (Imap.iobind c (fun x => k))
  (at level 100, c at next level, right associativity) : io_scope.
Notation "' p <~ c ;; k" := (Imap.iobind c (fun x => match x with p => k end))
  (at level 100, p pattern, c at next level, right associativity) : io_scope.

(** [ImapEmailConnector] and its sub-classes *)
Module ImapEmailConnector.

Import Mime Imap.

Record Connector := {
  username : str;
  password : str;
  imap_server : str;
  imap_port : Z;
  imap : option Server
}.

(** [__init__] *)
Definition init (username password imap_server : str) (imap_port : Z) : Connector :=
  {| username := username; password := password;
     imap_server := imap_server; imap_port := imap_port; imap := None |}.

(** The dictionary [email_data]. *)
Record EmailRecord := {
  id : str;
  subject : str;
  from : str;
  date : str;
  content : str
}.

(** The truth value of a [bytes] or [None] payload. *)
Definition nonempty_payload (p : option bytes) : option bytes :=
  match p with
  | Some ((_ :: _) as payload) => Some payload
  | _ => None
  end.

Definition is_empty (s : str) : bool :=
  match s with [] => true | _ :: _ => false end.

Fixpoint str_eqb (s t : str) : bool :=
  match s, t with
  | [], [] => true
  | c :: s', d :: t' => N.eqb c d && str_eqb s' t'
  | _, _ => false
  end.

(** One round of the loop over [msg.walk()] in [_get_email_content]; the
    state is the pair [(plain_content, html_content)]. *)
Definition collect_part (buffers : str * str) (part : Message) : str * str :=
  let (plain_content, html_content) := buffers in
  let content_type := get_content_type part in
  let content_disposition := str_of_header (get_content_disposition part) in
  if PyStr.contains (u "attachment") content_disposition then buffers
  else if str_eqb content_type (u "text/plain") then
    match nonempty_payload (get_payload_decoded part) with
    | Some payload => (plain_content ++ Utf8.decode_replace payload, html_content)
    | None => buffers
    end
  else if str_eqb content_type (u "text/html") then
    match nonempty_payload (get_payload_decoded part) with
    | Some payload => (plain_content, html_content ++ Utf8.decode_replace payload)
    | None => buffers
    end
  else buffers.

(** The two buffers when the message is not multipart. *)
Definition collect_single (msg : Message) : str * str :=
  let content_type := get_content_type msg in
  match nonempty_payload (get_payload_decoded msg) with
  | Some payload =>
      if str_eqb content_type (u "text/plain")
      then (Utf8.decode_replace payload, [])
      else if str_eqb content_type (u "text/html")
      then ([], Utf8.decode_replace payload)
      else ([], [])
  | None => ([], [])
  end.

Definition collect (msg : Message) : str * str :=
  if is_multipart msg
  then fold_left collect_part (walk msg) ([], [])
  else collect_single msg.

(** [_get_email_content]. The argument [plain_text_only] is not read. *)
Definition _get_email_content (msg : Message) (plain_text_only : bool) : Result str :=
  let (plain_content, html_content) := collect msg in
  content <-
    (if negb (is_empty plain_content) then Ok plain_content
     else if negb (is_empty html_content) then Html._html_to_text html_content
     else Ok []) ;;
  Html.clean_whitespace content.

(** The fallback of [fetch_emails] for an empty content: every payload of
    every part. *)
Definition all_parts (msg : Message) : list str :=
  flat_map (fun part =>
              match nonempty_payload (get_payload_decoded part) with
              | Some payload => [Utf8.decode_replace payload]
              | None => []
              end) (walk msg).

Definition fallback_content (msg : Message) : str :=
  match all_parts msg with
  | [] => []
  | (_ :: _) as parts =>
      let combined := PyStr.join (u " ") parts in
      if PyStr.has_char chr_lt combined && PyStr.has_char chr_gt combined
      then match Html._html_to_text combined with
           | Ok text => text
           | Raise _ => []          (* except Exception: content stays '' *)
           end
      else combined
  end.

(** [bytes.split()]: the words between runs of ASCII white space. *)
Definition is_ascii_space (x : byte) : bool :=
  let n := Byte.to_N x in ((9 <=? n) && (n <=? 13) || (n =? 32))%N.

Fixpoint split_loop (word : bytes) (bs : bytes) : list bytes :=
  match bs with
  | [] => match word with [] => [] | _ :: _ => [word] end
  | x :: bs' =>
      if is_ascii_space x
      then match word with
           | [] => split_loop [] bs'
           | _ :: _ => word :: split_loop [] bs'
           end
      else split_loop (word ++ [x]) bs'
  end.

Definition bytes_split (bs : bytes) : list bytes := split_loop [] bs.

(** [l[-n:]] for [n > 0] *)
Definition last_n {A} (n : Z) (l : list A) : list A :=
  skipn (List.length l - Z.to_nat n) l.

(** [if limit and limit > 0: id_list = id_list[-limit:]] *)
Definition apply_limit (limit : option Z) (id_list : list bytes) : list bytes :=
  match limit with
  | Some n => if negb (n =? 0)%Z && (n >? 0)%Z then last_n n id_list else id_list
  | None => id_list
  end.

Section WithLower.

(** [str.lower] of the interpreter. *)
Variable lower : str -> str.

(** The loop over [exclude_senders] that sets [should_exclude]. *)
Fixpoint should_exclude (exclude_senders : list str) (from_address : str) : bool :=
  match exclude_senders with
  | [] => false
  | exclude_sender :: rest =>
      if PyStr.contains (lower exclude_sender) (lower from_address)
      then true
      else should_exclude rest from_address
  end.

(** The body of the loop over [id_list]: [None] when the message is
    skipped. *)
Definition fetch_one (h : Server) (plain_text_only : bool)
           (exclude_senders : list str) (email_id : bytes)
  : IO (option EmailRecord) :=
  (' (status, msg) <~ send (FETCH email_id (u "(RFC822)")) (fetch_reply h email_id) ;;
   if negb (str_eqb status (u "OK")) then ret None
   else
     let subject := email_subject msg in
     let from_address := email_sender msg in
     let date := email_date msg in
     if should_exclude exclude_senders from_address then ret None
     else
       content <~ lift (_get_email_content (email_body msg) plain_text_only) ;;
       let content :=
         if is_empty content then fallback_content (email_body msg)
         else content in
       id <~ lift (Utf8.decode_strict email_id) ;;
       ret (Some {| id := id; subject := subject; from := from_address;
                    date := date; content := content |}))%io.

Fixpoint fetch_loop (h : Server) (plain_text_only : bool)
         (exclude_senders : list str) (id_list : list bytes)
         (emails : list EmailRecord) : IO (list EmailRecord) :=
  match id_list with
  | [] => ret emails
  | email_id :: rest =>
      (r <~ fetch_one h plain_text_only exclude_senders email_id ;;
       fetch_loop h plain_text_only exclude_senders rest
                  (match r with
                   | Some email_data => emails ++ [email_data]
                   | None => emails
                   end))%io
  end.

(** [fetch_emails] *)
Definition fetch_emails (self : Connector) (limit : option Z)
           (plain_text_only : bool) (exclude_senders : option (list str))
  : IO (list EmailRecord) :=
  let emails := [] in
  let exclude_senders :=
    match exclude_senders with Some l => l | None => [] end in
  match imap self with
  | None => lift (Raise AttributeError)
  | Some h =>
      (status <~ send (SELECT (u "INBOX")) (select_reply h) ;;
       if negb (str_eqb status (u "OK")) then ret emails
       else
         ' (status, message_ids) <~ send (SEARCH (u "ALL")) (search_reply h) ;;
         if negb (str_eqb status (u "OK")) then ret emails
         else
           let id_list := bytes_split message_ids in
           let id_list := apply_limit limit id_list in
           fetch_loop h plain_text_only exclude_senders id_list emails)%io
  end.

End WithLower.

(** [connect]: the handle is stored before the login; the result is the
    truth value returned and the connector afterwards. [network] opens
    the connection to a host and port. *)
Definition connect (network : str -> Z -> Result Server) (self : Connector)
  : IO (bool * Connector) :=
  match network (imap_server self) (imap_port self) with
  | Raise _ => ret (false, self)
  | Ok h =>
      let self' :=
        {| username := username self; password := password self;
           imap_server := imap_server self; imap_port := imap_port self;
           imap := Some h |} in
      try_except
        (_ <~ send (LOGIN (username self) (password self))
                   (login_reply h (username self) (password self)) ;;
         ret (true, self'))%io
        (fun _ => ret (false, self'))
  end.

(** [disconnect] *)
Definition disconnect (self : Connector) : IO unit :=
  match imap self with
  | Some h =>
      try_except
        (_ <~ send CLOSE (close_reply h) ;;
         send LOGOUT (logout_reply h))%io
        (fun _ => ret tt)
  | None => ret tt
  end.

Definition GmailConnector (username password : str) : Connector :=
  init username password (u "imap.gmail.com") 993.

Definition OutlookConnector (username password : str) : Connector :=
  init username password (u "outlook.office365.com") 993.

Definition YahooMailConnector (username password : str) : Connector :=
  init username password (u "imap.mail.yahoo.com") 993.

Definition AOLMailConnector (username password : str) : Connector :=
  init username password (u "imap.aol.com") 993.

Definition ZohoMailConnector (username password : str) : Connector :=
  init username password (u "imap.zoho.com") 993.

End ImapEmailConnector.

Module EmailConnectorFactory.

Import ImapEmailConnector.

Section WithLower.

Variable lower : str -> str.

(** [create_connector] *)
Definition create_connector (provider username password : str) : Result Connector :=
  let provider := lower provider in
  if str_eqb provider (u "gmail") then Ok (GmailConnector username password)
  else if str_eqb provider (u "outlook") then Ok (OutlookConnector username password)
  else if str_eqb provider (u "yahoo") then Ok (YahooMailConnector username password)
  else if str_eqb provider (u "aol") then Ok (AOLMailConnector username password)
  else if str_eqb provider (u "zoho") then Ok (ZohoMailConnector username password)
  else Raise ValueError.

End WithLower.

End EmailConnectorFactory.

(** ** The exporter, the export service and the exclusion file *)

Module JsonEmailExporter.

Import ImapEmailConnector.

(** [export]: [write] stands for opening the file and dumping the records
    into it; an exception of either gives [False]. *)
Definition export (write : str -> list EmailRecord -> Result unit)
           (emails : list EmailRecord) (output_path : str) : Result bool :=
  match write output_path emails with
  | Ok _ => Ok true
  | Raise _ => Ok false
  end.

End JsonEmailExporter.

Module EmailExportService.

Import Imap ImapEmailConnector.

(** The service holds a connector and the [export] method of an
    exporter. *)
Record Service := {
  connector : Connector;
  exporter : list EmailRecord -> str -> Result bool
}.

Section WithLower.

Variable lower : str -> str.

(** Opens the connection of [imaplib.IMAP4_SSL]. *)
Variable network : str -> Z -> Result Server.

(** The [except] branch of [export_emails], for the connector as it is
    when the exception comes. *)
Definition on_error (c : Connector) (e : Exn) : IO (bool * Connector) :=
  (_ <~ disconnect c ;; ret (false, c))%io.

(** [export_emails]: the result is the truth value returned and the
    connector afterwards. *)
Definition export_emails (self : Service) (output_path : str)
           (limit : option Z) (plain_text_only : bool)
           (exclude_senders : option (list str)) : IO (bool * Connector) :=
  fun t =>
    match connect network (connector self) t with
    | (Raise e, t1) => on_error (connector self) e t1
    | (Ok (false, c), t1) => (Ok (false, c), t1)
    | (Ok (true, c), t1) =>
        try_except
          (emails <~ fetch_emails lower c limit plain_text_only exclude_senders ;;
           result <~ lift (exporter self emails output_path) ;;
           _ <~ disconnect c ;;
           ret (result, c))%io
          (on_error c) t1
    end.

End WithLower.

End EmailExportService.

(** [load_exclusion_list]: [file] is what reading the file gives, its
    lines in order, or [None] when opening or reading it raises. *)
Definition load_exclusion_list (file : option (list str)) : list str :=
  match file with
  | None => []
  | Some lines =>
      flat_map (fun line =>
                  let line := PyStr.strip line in
                  if negb (ImapEmailConnector.is_empty line)
                     && negb (PyStr.startswith (u "#") line)
                  then [line] else [])
               lines
  end.

(** ** [str.lower], as CPython 3.11 computes it (Unicode 14.0) *)

Module StrLower.

(** The code points with a lower-case form of their own, in runs: first
    and last code point, the step from one to the next, and what is added
    to each. *)
Definition lower_runs : list (N * N * N * Z) :=
  [
    (65, 90, 1, 32%Z); (192, 214, 1, 32%Z); (216, 222, 1, 32%Z);
    (256, 302, 2, 1%Z); (306, 310, 2, 1%Z); (313, 327, 2, 1%Z);
    (330, 374, 2, 1%Z); (376, 376, 1, (-121)%Z); (377, 381, 2, 1%Z);
    (385, 385, 1, 210%Z); (386, 388, 2, 1%Z); (390, 390, 1, 206%Z);
    (391, 391, 1, 1%Z); (393, 394, 1, 205%Z); (395, 395, 1, 1%Z);
    (398, 398, 1, 79%Z); (399, 399, 1, 202%Z); (400, 400, 1, 203%Z);
    (401, 401, 1, 1%Z); (403, 403, 1, 205%Z); (404, 404, 1, 207%Z);
    (406, 406, 1, 211%Z); (407, 407, 1, 209%Z); (408, 408, 1, 1%Z);
    (412, 412, 1, 211%Z); (413, 413, 1, 213%Z); (415, 415, 1, 214%Z);
    (416, 420, 2, 1%Z); (422, 422, 1, 218%Z); (423, 423, 1, 1%Z);
    (425, 425, 1, 218%Z); (428, 428, 1, 1%Z); (430, 430, 1, 218%Z);
    (431, 431, 1, 1%Z); (433, 434, 1, 217%Z); (435, 437, 2, 1%Z);
    (439, 439, 1, 219%Z); (440, 440, 1, 1%Z); (444, 444, 1, 1%Z);
    (452, 452, 1, 2%Z); (453, 453, 1, 1%Z); (455, 455, 1, 2%Z);
    (456, 456, 1, 1%Z); (458, 458, 1, 2%Z); (459, 475, 2, 1%Z);
    (478, 494, 2, 1%Z); (497, 497, 1, 2%Z); (498, 500, 2, 1%Z);
    (502, 502, 1, (-97)%Z); (503, 503, 1, (-56)%Z); (504, 542, 2, 1%Z);
    (544, 544, 1, (-130)%Z); (546, 562, 2, 1%Z); (570, 570, 1, 10795%Z);
    (571, 571, 1, 1%Z); (573, 573, 1, (-163)%Z); (574, 574, 1, 10792%Z);
    (577, 577, 1, 1%Z); (579, 579, 1, (-195)%Z); (580, 580, 1, 69%Z);
    (581, 581, 1, 71%Z); (582, 590, 2, 1%Z); (880, 882, 2, 1%Z);
    (886, 886, 1, 1%Z); (895, 895, 1, 116%Z); (902, 902, 1, 38%Z);
    (904, 906, 1, 37%Z); (908, 908, 1, 64%Z); (910, 911, 1, 63%Z);
    (913, 929, 1, 32%Z); (931, 939, 1, 32%Z); (975, 975, 1, 8%Z);
    (984, 1006, 2, 1%Z); (1012, 1012, 1, (-60)%Z); (1015, 1015, 1, 1%Z);
    (1017, 1017, 1, (-7)%Z); (1018, 1018, 1, 1%Z); (1021, 1023, 1, (-130)%Z);
    (1024, 1039, 1, 80%Z); (1040, 1071, 1, 32%Z); (1120, 1152, 2, 1%Z);
    (1162, 1214, 2, 1%Z); (1216, 1216, 1, 15%Z); (1217, 1229, 2, 1%Z);
    (1232, 1326, 2, 1%Z); (1329, 1366, 1, 48%Z); (4256, 4293, 1, 7264%Z);
    (4295, 4295, 1, 7264%Z); (4301, 4301, 1, 7264%Z); (5024, 5103, 1, 38864%Z);
    (5104, 5109, 1, 8%Z); (7312, 7354, 1, (-3008)%Z); (7357, 7359, 1, (-3008)%Z);
    (7680, 7828, 2, 1%Z); (7838, 7838, 1, (-7615)%Z); (7840, 7934, 2, 1%Z);
    (7944, 7951, 1, (-8)%Z); (7960, 7965, 1, (-8)%Z); (7976, 7983, 1, (-8)%Z);
    (7992, 7999, 1, (-8)%Z); (8008, 8013, 1, (-8)%Z); (8025, 8031, 2, (-8)%Z);
    (8040, 8047, 1, (-8)%Z); (8072, 8079, 1, (-8)%Z); (8088, 8095, 1, (-8)%Z);
    (8104, 8111, 1, (-8)%Z); (8120, 8121, 1, (-8)%Z); (8122, 8123, 1, (-74)%Z);
    (8124, 8124, 1, (-9)%Z); (8136, 8139, 1, (-86)%Z); (8140, 8140, 1, (-9)%Z);
    (8152, 8153, 1, (-8)%Z); (8154, 8155, 1, (-100)%Z); (8168, 8169, 1, (-8)%Z);
    (8170, 8171, 1, (-112)%Z); (8172, 8172, 1, (-7)%Z); (8184, 8185, 1, (-128)%Z);
    (8186, 8187, 1, (-126)%Z); (8188, 8188, 1, (-9)%Z); (8486, 8486, 1, (-7517)%Z);
    (8490, 8490, 1, (-8383)%Z); (8491, 8491, 1, (-8262)%Z); (8498, 8498, 1, 28%Z);
    (8544, 8559, 1, 16%Z); (8579, 8579, 1, 1%Z); (9398, 9423, 1, 26%Z);
    (11264, 11311, 1, 48%Z); (11360, 11360, 1, 1%Z); (11362, 11362, 1, (-10743)%Z);
    (11363, 11363, 1, (-3814)%Z); (11364, 11364, 1, (-10727)%Z); (11367, 11371, 2, 1%Z);
    (11373, 11373, 1, (-10780)%Z); (11374, 11374, 1, (-10749)%Z); (11375, 11375, 1, (-10783)%Z);
    (11376, 11376, 1, (-10782)%Z); (11378, 11378, 1, 1%Z); (11381, 11381, 1, 1%Z);
    (11390, 11391, 1, (-10815)%Z); (11392, 11490, 2, 1%Z); (11499, 11501, 2, 1%Z);
    (11506, 11506, 1, 1%Z); (42560, 42604, 2, 1%Z); (42624, 42650, 2, 1%Z);
    (42786, 42798, 2, 1%Z); (42802, 42862, 2, 1%Z); (42873, 42875, 2, 1%Z);
    (42877, 42877, 1, (-35332)%Z); (42878, 42886, 2, 1%Z); (42891, 42891, 1, 1%Z);
    (42893, 42893, 1, (-42280)%Z); (42896, 42898, 2, 1%Z); (42902, 42920, 2, 1%Z);
    (42922, 42922, 1, (-42308)%Z); (42923, 42923, 1, (-42319)%Z); (42924, 42924, 1, (-42315)%Z);
    (42925, 42925, 1, (-42305)%Z); (42926, 42926, 1, (-42308)%Z); (42928, 42928, 1, (-42258)%Z);
    (42929, 42929, 1, (-42282)%Z); (42930, 42930, 1, (-42261)%Z); (42931, 42931, 1, 928%Z);
    (42932, 42946, 2, 1%Z); (42948, 42948, 1, (-48)%Z); (42949, 42949, 1, (-42307)%Z);
    (42950, 42950, 1, (-35384)%Z); (42951, 42953, 2, 1%Z); (42960, 42960, 1, 1%Z);
    (42966, 42968, 2, 1%Z); (42997, 42997, 1, 1%Z); (65313, 65338, 1, 32%Z);
    (66560, 66599, 1, 40%Z); (66736, 66771, 1, 40%Z); (66928, 66938, 1, 39%Z);
    (66940, 66954, 1, 39%Z); (66956, 66962, 1, 39%Z); (66964, 66965, 1, 39%Z);
    (68736, 68786, 1, 64%Z); (71840, 71871, 1, 32%Z); (93760, 93791, 1, 32%Z);
    (125184, 125217, 1, 34%Z)
  ]%N.

(** The characters with the property Case_Ignorable. *)
Definition case_ignorable_ranges : list (N * N) :=
  [
    (39, 39); (46, 46); (58, 58); (94, 94); (96, 96); (168, 168);
    (173, 173); (175, 175); (180, 180); (183, 184); (688, 879); (884, 885);
    (890, 890); (900, 901); (903, 903); (1155, 1161); (1369, 1369); (1375, 1375);
    (1425, 1469); (1471, 1471); (1473, 1474); (1476, 1477); (1479, 1479); (1524, 1524);
    (1536, 1541); (1552, 1562); (1564, 1564); (1600, 1600); (1611, 1631); (1648, 1648);
    (1750, 1757); (1759, 1768); (1770, 1773); (1807, 1807); (1809, 1809); (1840, 1866);
    (1958, 1968); (2027, 2037); (2042, 2042); (2045, 2045); (2070, 2093); (2137, 2139);
    (2184, 2184); (2192, 2193); (2200, 2207); (2249, 2306); (2362, 2362); (2364, 2364);
    (2369, 2376); (2381, 2381); (2385, 2391); (2402, 2403); (2417, 2417); (2433, 2433);
    (2492, 2492); (2497, 2500); (2509, 2509); (2530, 2531); (2558, 2558); (2561, 2562);
    (2620, 2620); (2625, 2626); (2631, 2632); (2635, 2637); (2641, 2641); (2672, 2673);
    (2677, 2677); (2689, 2690); (2748, 2748); (2753, 2757); (2759, 2760); (2765, 2765);
    (2786, 2787); (2810, 2815); (2817, 2817); (2876, 2876); (2879, 2879); (2881, 2884);
    (2893, 2893); (2901, 2902); (2914, 2915); (2946, 2946); (3008, 3008); (3021, 3021);
    (3072, 3072); (3076, 3076); (3132, 3132); (3134, 3136); (3142, 3144); (3146, 3149);
    (3157, 3158); (3170, 3171); (3201, 3201); (3260, 3260); (3263, 3263); (3270, 3270);
    (3276, 3277); (3298, 3299); (3328, 3329); (3387, 3388); (3393, 3396); (3405, 3405);
    (3426, 3427); (3457, 3457); (3530, 3530); (3538, 3540); (3542, 3542); (3633, 3633);
    (3636, 3642); (3654, 3662); (3761, 3761); (3764, 3772); (3782, 3782); (3784, 3789);
    (3864, 3865); (3893, 3893); (3895, 3895); (3897, 3897); (3953, 3966); (3968, 3972);
    (3974, 3975); (3981, 3991); (3993, 4028); (4038, 4038); (4141, 4144); (4146, 4151);
    (4153, 4154); (4157, 4158); (4184, 4185); (4190, 4192); (4209, 4212); (4226, 4226);
    (4229, 4230); (4237, 4237); (4253, 4253); (4348, 4348); (4957, 4959); (5906, 5908);
    (5938, 5939); (5970, 5971); (6002, 6003); (6068, 6069); (6071, 6077); (6086, 6086);
    (6089, 6099); (6103, 6103); (6109, 6109); (6155, 6159); (6211, 6211); (6277, 6278);
    (6313, 6313); (6432, 6434); (6439, 6440); (6450, 6450); (6457, 6459); (6679, 6680);
    (6683, 6683); (6742, 6742); (6744, 6750); (6752, 6752); (6754, 6754); (6757, 6764);
    (6771, 6780); (6783, 6783); (6823, 6823); (6832, 6862); (6912, 6915); (6964, 6964);
    (6966, 6970); (6972, 6972); (6978, 6978); (7019, 7027); (7040, 7041); (7074, 7077);
    (7080, 7081); (7083, 7085); (7142, 7142); (7144, 7145); (7149, 7149); (7151, 7153);
    (7212, 7219); (7222, 7223); (7288, 7293); (7376, 7378); (7380, 7392); (7394, 7400);
    (7405, 7405); (7412, 7412); (7416, 7417); (7468, 7530); (7544, 7544); (7579, 7679);
    (8125, 8125); (8127, 8129); (8141, 8143); (8157, 8159); (8173, 8175); (8189, 8190);
    (8203, 8207); (8216, 8217); (8228, 8228); (8231, 8231); (8234, 8238); (8288, 8292);
    (8294, 8303); (8305, 8305); (8319, 8319); (8336, 8348); (8400, 8432); (11388, 11389);
    (11503, 11505); (11631, 11631); (11647, 11647); (11744, 11775); (11823, 11823); (12293, 12293);
    (12330, 12333); (12337, 12341); (12347, 12347); (12441, 12446); (12540, 12542); (40981, 40981);
    (42232, 42237); (42508, 42508); (42607, 42610); (42612, 42621); (42623, 42623); (42652, 42655);
    (42736, 42737); (42752, 42785); (42864, 42864); (42888, 42890); (42994, 42996); (43000, 43001);
    (43010, 43010); (43014, 43014); (43019, 43019); (43045, 43046); (43052, 43052); (43204, 43205);
    (43232, 43249); (43263, 43263); (43302, 43309); (43335, 43345); (43392, 43394); (43443, 43443);
    (43446, 43449); (43452, 43453); (43471, 43471); (43493, 43494); (43561, 43566); (43569, 43570);
    (43573, 43574); (43587, 43587); (43596, 43596); (43632, 43632); (43644, 43644); (43696, 43696);
    (43698, 43700); (43703, 43704); (43710, 43711); (43713, 43713); (43741, 43741); (43756, 43757);
    (43763, 43764); (43766, 43766); (43867, 43871); (43881, 43883); (44005, 44005); (44008, 44008);
    (44013, 44013); (64286, 64286); (64434, 64450); (65024, 65039); (65043, 65043); (65056, 65071);
    (65106, 65106); (65109, 65109); (65279, 65279); (65287, 65287); (65294, 65294); (65306, 65306);
    (65342, 65342); (65344, 65344); (65392, 65392); (65438, 65439); (65507, 65507); (65529, 65531);
    (66045, 66045); (66272, 66272); (66422, 66426); (67456, 67461); (67463, 67504); (67506, 67514);
    (68097, 68099); (68101, 68102); (68108, 68111); (68152, 68154); (68159, 68159); (68325, 68326);
    (68900, 68903); (69291, 69292); (69446, 69456); (69506, 69509); (69633, 69633); (69688, 69702);
    (69744, 69744); (69747, 69748); (69759, 69761); (69811, 69814); (69817, 69818); (69821, 69821);
    (69826, 69826); (69837, 69837); (69888, 69890); (69927, 69931); (69933, 69940); (70003, 70003);
    (70016, 70017); (70070, 70078); (70089, 70092); (70095, 70095); (70191, 70193); (70196, 70196);
    (70198, 70199); (70206, 70206); (70367, 70367); (70371, 70378); (70400, 70401); (70459, 70460);
    (70464, 70464); (70502, 70508); (70512, 70516); (70712, 70719); (70722, 70724); (70726, 70726);
    (70750, 70750); (70835, 70840); (70842, 70842); (70847, 70848); (70850, 70851); (71090, 71093);
    (71100, 71101); (71103, 71104); (71132, 71133); (71219, 71226); (71229, 71229); (71231, 71232);
    (71339, 71339); (71341, 71341); (71344, 71349); (71351, 71351); (71453, 71455); (71458, 71461);
    (71463, 71467); (71727, 71735); (71737, 71738); (71995, 71996); (71998, 71998); (72003, 72003);
    (72148, 72151); (72154, 72155); (72160, 72160); (72193, 72202); (72243, 72248); (72251, 72254);
    (72263, 72263); (72273, 72278); (72281, 72283); (72330, 72342); (72344, 72345); (72752, 72758);
    (72760, 72765); (72767, 72767); (72850, 72871); (72874, 72880); (72882, 72883); (72885, 72886);
    (73009, 73014); (73018, 73018); (73020, 73021); (73023, 73029); (73031, 73031); (73104, 73105);
    (73109, 73109); (73111, 73111); (73459, 73460); (78896, 78904); (92912, 92916); (92976, 92982);
    (92992, 92995); (94031, 94031); (94095, 94111); (94176, 94177); (94179, 94180); (110576, 110579);
    (110581, 110587); (110589, 110590); (113821, 113822); (113824, 113827); (118528, 118573); (118576, 118598);
    (119143, 119145); (119155, 119170); (119173, 119179); (119210, 119213); (119362, 119364); (121344, 121398);
    (121403, 121452); (121461, 121461); (121476, 121476); (121499, 121503); (121505, 121519); (122880, 122886);
    (122888, 122904); (122907, 122913); (122915, 122916); (122918, 122922); (123184, 123197); (123566, 123566);
    (123628, 123631); (125136, 125142); (125252, 125259); (127995, 127999); (917505, 917505); (917536, 917631);
    (917760, 917999)
  ]%N.

(** The characters with the property Cased. *)
Definition cased_ranges : list (N * N) :=
  [
    (65, 90); (97, 122); (170, 170); (181, 181); (186, 186); (192, 214);
    (216, 246); (248, 442); (444, 447); (452, 659); (661, 696); (704, 705);
    (736, 740); (837, 837); (880, 883); (886, 887); (890, 893); (895, 895);
    (902, 902); (904, 906); (908, 908); (910, 929); (931, 1013); (1015, 1153);
    (1162, 1327); (1329, 1366); (1376, 1416); (4256, 4293); (4295, 4295); (4301, 4301);
    (4304, 4346); (4349, 4351); (5024, 5109); (5112, 5117); (7296, 7304); (7312, 7354);
    (7357, 7359); (7424, 7615); (7680, 7957); (7960, 7965); (7968, 8005); (8008, 8013);
    (8016, 8023); (8025, 8025); (8027, 8027); (8029, 8029); (8031, 8061); (8064, 8116);
    (8118, 8124); (8126, 8126); (8130, 8132); (8134, 8140); (8144, 8147); (8150, 8155);
    (8160, 8172); (8178, 8180); (8182, 8188); (8305, 8305); (8319, 8319); (8336, 8348);
    (8450, 8450); (8455, 8455); (8458, 8467); (8469, 8469); (8473, 8477); (8484, 8484);
    (8486, 8486); (8488, 8488); (8490, 8493); (8495, 8500); (8505, 8505); (8508, 8511);
    (8517, 8521); (8526, 8526); (8544, 8575); (8579, 8580); (9398, 9449); (11264, 11492);
    (11499, 11502); (11506, 11507); (11520, 11557); (11559, 11559); (11565, 11565); (42560, 42605);
    (42624, 42653); (42786, 42887); (42891, 42894); (42896, 42954); (42960, 42961); (42963, 42963);
    (42965, 42969); (42997, 42998); (43000, 43002); (43824, 43866); (43868, 43880); (43888, 43967);
    (64256, 64262); (64275, 64279); (65313, 65338); (65345, 65370); (66560, 66639); (66736, 66771);
    (66776, 66811); (66928, 66938); (66940, 66954); (66956, 66962); (66964, 66965); (66967, 66977);
    (66979, 66993); (66995, 67001); (67003, 67004); (67456, 67456); (67459, 67461); (67463, 67504);
    (67506, 67514); (68736, 68786); (68800, 68850); (71840, 71903); (93760, 93823); (119808, 119892);
    (119894, 119964); (119966, 119967); (119970, 119970); (119973, 119974); (119977, 119980); (119982, 119993);
    (119995, 119995); (119997, 120003); (120005, 120069); (120071, 120074); (120077, 120084); (120086, 120092);
    (120094, 120121); (120123, 120126); (120128, 120132); (120134, 120134); (120138, 120144); (120146, 120485);
    (120488, 120512); (120514, 120538); (120540, 120570); (120572, 120596); (120598, 120628); (120630, 120654);
    (120656, 120686); (120688, 120712); (120714, 120744); (120746, 120770); (120772, 120779); (122624, 122633);
    (122635, 122654); (125184, 125251); (127280, 127305); (127312, 127337); (127344, 127369)
  ]%N.

Definition in_ranges (ranges : list (N * N)) (c : N) : bool :=
  existsb (fun r => (fst r <=? c) && (c <=? snd r))%N ranges.

Definition is_case_ignorable (c : N) : bool := in_ranges case_ignorable_ranges c.

Definition is_cased (c : N) : bool := in_ranges cased_ranges c.

Definition in_run (c : N) (r : N * N * N * Z) : bool :=
  let '(first, last, step, _) := r in
  ((first <=? c) && (c <=? last) && ((c - first) mod step =? 0))%N.

(** The lower-case form of one character, when it is one character. *)
Definition to_lower (c : N) : N :=
  match find (in_run c) lower_runs with
  | Some (_, _, _, d) => Z.to_N (Z.of_N c + d)
  | None => c
  end.

(** The full lower-case form: the capital I with a dot above becomes two
    characters. *)
Definition to_lower_full (c : N) : str :=
  if (c =? 304)%N then [105; 775]%N else [to_lower c].

(** The first character that is not case-ignorable. *)
Fixpoint first_not_ignorable (s : str) : option N :=
  match s with
  | [] => None
  | c :: s' => if is_case_ignorable c then first_not_ignorable s' else Some c
  end.

(** A capital sigma is a final one when a cased character stands before
    it and none after it, case-ignorable characters being passed over:
    [before] is the text before it, last character first. *)
Definition handle_capital_sigma (before after : str) : N :=
  let final_sigma :=
    match first_not_ignorable before with
    | Some c =>
        is_cased c
        && match first_not_ignorable after with
           | Some d => negb (is_cased d)
           | None => true
           end
    | None => false
    end in
  (if final_sigma then 962 else 963)%N.

Fixpoint lower_loop (before s : str) : str :=
  match s with
  | [] => []
  | c :: s' =>
      (if (c =? 931)%N then [handle_capital_sigma before s']
       else to_lower_full c)
      ++ lower_loop (c :: before) s'
  end.

(** [s.lower()] *)
Definition lower (s : str) : str := lower_loop [] s.

End StrLower.

(** * Vocabulary of the properties

    The predicates and functions in which the properties are stated, and
    the messages and servers they are tried on. *)

Import Mime Imap ImapEmailConnector.

(** ** Sessions and records *)

(** The command that [fetch_emails] sends for one message. *)
Definition fetch_command (email_id : bytes) : Command :=
  FETCH email_id (u "(RFC822)").

(** A connector that holds the handle [h]. *)
Definition connected_to (h : Server) : Connector :=
  {| username := u "me"; password := u "pw";
     imap_server := u "imap.gmail.com"; imap_port := 993;
     imap := Some h |}.

(** The lower-case form of the sender contains the lower-case form of
    [s]: what the loop over the exclusion list tests. *)
Definition contains_lowered (lower : str -> str) (s sender : str) : Prop :=
  exists a c, lower sender = a ++ lower s ++ c.

(** The same character, or the same letter of the ASCII alphabet in its
    two cases. *)
Definition same_ascii_letter (x y : N) : Prop :=
  x = y
  \/ ((65 <= x)%N /\ (x <= 90)%N /\ y = (x + 32)%N)
  \/ ((65 <= y)%N /\ (y <= 90)%N /\ x = (y + 32)%N).

(** [s] occurs in [sender] when the case of ASCII letters is ignored:
    some stretch of [sender] spells [s], letter for letter. *)
Definition occurs_ignoring_ascii_case (s sender : str) : Prop :=
  exists a m c, sender = a ++ m ++ c /\ Forall2 same_ascii_letter s m.

(** [r] is the record made from message [email_id], which was fetched and
    whose sender is not excluded. *)
Definition record_of (lower : str -> str) (h : Server) (ex : list str)
           (email_id : bytes) (r : EmailRecord) : Prop :=
  exists msg,
    fetch_reply h email_id = Ok (u "OK", msg)
    /\ Utf8.decode_strict email_id = Ok (id r)
    /\ from r = email_sender msg
    /\ subject r = email_subject msg
    /\ date r = email_date msg
    /\ forall s, In s ex -> ~ contains_lowered lower s (email_sender msg).

(** [r] is the record of message [email_id]: the message was fetched, and
    [r] carries its decoded identifier and its headers. *)
Definition record_for (h : Server) (email_id : bytes) (r : EmailRecord) : Prop :=
  exists msg,
    fetch_reply h email_id = Ok (u "OK", msg)
    /\ Utf8.decode_strict email_id = Ok (id r)
    /\ from r = email_sender msg
    /\ subject r = email_subject msg
    /\ date r = email_date msg.

(** ** Provider names *)

(** The lower-case form of an ASCII letter. *)
Definition ascii_lower_char (c : N) : N :=
  if ((65 <=? c) && (c <=? 90))%N then (c + 32)%N else c.

Definition ascii_lower (s : str) : str := List.map ascii_lower_char s.

(** [p] spells [name] with some of its letters in upper case. *)
Definition capitalization_of (name p : str) : Prop :=
  Forall2 (fun d c => c = d \/ ((97 <=? d) && (d <=? 122))%N = true /\ c = (d - 32)%N)
          name p.

(** Every character is below 128. *)
Definition is_ascii (s : str) : Prop := Forall (fun c => (c < 128)%N) s.

(** The providers and their connectors. *)
Definition providers : list (str * (str -> str -> Connector)) :=
  [ (u "gmail", GmailConnector);
    (u "outlook", OutlookConnector);
    (u "yahoo", YahooMailConnector);
    (u "aol", AOLMailConnector);
    (u "zoho", ZohoMailConnector) ].

(** ** Message bodies *)

Definition is_attachment (part : Message) : bool :=
  PyStr.contains (u "attachment") (str_of_header (get_content_disposition part)).

(** The parts that [_get_email_content] looks at. *)
Definition body_parts (msg : Message) : list Message :=
  if is_multipart msg
  then filter (fun part => negb (is_attachment part)) (walk msg)
  else [msg].

(** The payloads of the body parts of one content type, in walk order. *)
Definition payloads_of_type (content_type : str) (msg : Message) : list bytes :=
  flat_map (fun part =>
              if str_eqb (get_content_type part) content_type
              then match get_payload_decoded part with
                   | Some payload => [payload]
                   | None => []
                   end
              else [])
           (body_parts msg).

(** The payloads decoded as UTF-8 and put one after the other. *)
Definition decoded_text (payloads : list bytes) : str :=
  concat (List.map Utf8.decode_replace payloads).

(** ** Patterns *)

(** An item that matches exactly one character, those of the class [p]. *)
Definition one_char (A : Type) (body : str -> Re.cont A -> option A)
           (p : N -> bool) : Prop :=
  forall s k,
    body s k = match s with
               | x :: s' => if p x then k s' else None
               | [] => None
               end.

(** The pattern of both blocks: the opening word, any text up to a [>],
    any text up to the closing word. *)
Definition element_re (open close : str) : Re.regex :=
  Re.Seq [Re.Lit open; Re.Star Re.Lazy Re.Dot; Re.Chr chr_gt;
          Re.Star Re.Lazy Re.Dot; Re.Lit close].

(** The pattern starts with the literal character [c]. *)
Fixpoint first_char_is (c : N) (r : Re.regex) : bool :=
  match r with
  | Re.Chr c' => N.eqb c' c
  | Re.Cat r1 _ => first_char_is c r1
  | _ => false
  end.

(** [rest] does not go on with a character of the class [p]. *)
Definition ends_run (p : N -> bool) (rest : str) : Prop :=
  match rest with
  | [] => True
  | c :: _ => p c = false
  end.

(** What [re.sub] with a pattern [x+] and a one-character replacement
    computes: every run of characters of the class [p] becomes [c0].
    [in_run] tells that the character before was of the class. *)
Fixpoint collapse (p : N -> bool) (c0 : N) (in_run : bool) (s : str) : str :=
  match s with
  | [] => []
  | c :: s' =>
      if p c
      then if in_run then collapse p c0 true s' else c0 :: collapse p c0 true s'
      else c :: collapse p c0 false s'
  end.

Definition is_newline (c : N) : bool := N.eqb c chr_nl.

(** ** Shapes of text *)

(** Every white-space character is a space and none follows another.
    [prev_ws] tells that the character before was white space. *)
Fixpoint single_spaced (prev_ws : bool) (t : str) : bool :=
  match t with
  | [] => true
  | c :: t' =>
      if PyStr.is_space c
      then N.eqb c chr_space && negb prev_ws && single_spaced true t'
      else single_spaced false t'
  end.

(** No run of more than one white-space character. *)
Definition no_whitespace_run (t : str) : Prop :=
  forall a x y r,
    t = a ++ x :: y :: r -> PyStr.is_space x = true -> PyStr.is_space y = false.

(** No white space at either end. *)
Definition trimmed (t : str) : Prop :=
  (forall c r, t = c :: r -> PyStr.is_space c = false)
  /\ (forall a c, t = a ++ [c] -> PyStr.is_space c = false).

(** The output of the last step of both converters. *)
Definition normal (t : str) : Prop :=
  single_spaced false t = true /\ PyStr.lstrip t = t /\ PyStr.rstrip t = t.

(** [ws_edit s t]: [t] is [s] with some white-space characters dropped or
    replaced by white-space characters. *)
Inductive ws_edit : str -> str -> Prop :=
| ws_nil : ws_edit [] []
| ws_keep (c : N) (s t : str) : ws_edit s t -> ws_edit (c :: s) (c :: t)
| ws_drop (c : N) (s t : str) :
    PyStr.is_space c = true -> ws_edit s t -> ws_edit (c :: s) t
| ws_put (c c' : N) (s t : str) :
    PyStr.is_space c = true -> PyStr.is_space c' = true ->
    ws_edit s t -> ws_edit (c :: s) (c' :: t).

#[local] Hint Constructors ws_edit : core.

(** No [<] is followed, anywhere later, by a [>]: the string has no
    substring of the form [<...>]. *)
Fixpoint tag_free (t : str) : bool :=
  match t with
  | [] => true
  | c :: r =>
      (if N.eqb c chr_lt then negb (PyStr.has_char chr_gt r) else true)
      && tag_free r
  end.

(** ** Statements of the specification that the code does not meet *)

(** The claim as the specification words it: a rejected selection makes
    [fetch_emails] raise. *)
Definition select_rejection_raises : Prop :=
  forall (lower : str -> str) (self : Connector) (h : Server)
         (limit : option Z) (plain_text_only : bool)
         (exclude_senders : option (list str)) (status : str)
         (t : list Command),
    imap self = Some h ->
    select_reply h = Ok status ->
    status <> u "OK" ->
    exists e t',
      fetch_emails lower self limit plain_text_only exclude_senders t
      = (Raise e, t').

(** The claim as the specification words it, with the tag names matched
    in any letter case. *)
Definition blocks_removed_in_any_case : Prop :=
  forall name pre attrs body post : str,
    ascii_lower name = u "script" \/ ascii_lower name = u "style" ->
    let open := u "<" ++ name in
    let close := u "</" ++ name ++ u ">" in
    let html := pre ++ open ++ attrs ++ u ">" ++ body ++ close ++ post in
    PyStr.contains (ascii_lower open) (ascii_lower pre) = false ->
    PyStr.has_char chr_gt attrs = false ->
    PyStr.contains (ascii_lower close) (ascii_lower body) = false ->
    (ascii_lower name = u "style" ->
     PyStr.contains (u "<script") (ascii_lower html) = false) ->
    Html._html_to_text html = Html._html_to_text (pre ++ u " " ++ post).

(** The claim as the specification words it: the content of every record
    has no tag and no run of white space. *)
Definition content_is_always_flat : Prop :=
  forall (lower : str -> str) (self : Connector) (limit : option Z)
         (plain_text_only : bool) (exclude_senders : option (list str))
         (t t' : list Command) (out : list EmailRecord),
    fetch_emails lower self limit plain_text_only exclude_senders t = (Ok out, t') ->
    forall r, In r out ->
              tag_free (content r) = true /\ no_whitespace_run (content r).

(** The claim as the specification words it: a provider that is no
    capitalization of one of the five names is refused. *)
Definition every_other_string_fails (lower : str -> str) : Prop :=
  forall provider username password : str,
    (forall name conn, In (name, conn) providers ->
                       ~ capitalization_of name provider) ->
    EmailConnectorFactory.create_connector lower provider username password
    = Raise ValueError.

(** The claim as the specification words it: a processed message that
    was fetched and parsed, and whose sender contains no exclusion
    substring, has its record in the output. *)
Definition kept_senders_have_records : Prop :=
  forall (lower : str -> str) (self : Connector) (h : Server)
         (limit : option Z) (plain_text_only : bool)
         (exclude_senders : list str) (message_ids : bytes)
         (t : list Command) (email_id : bytes) (msg : Email),
    imap self = Some h ->
    select_reply h = Ok (u "OK") ->
    search_reply h = Ok (u "OK", message_ids) ->
    In email_id (apply_limit limit (bytes_split message_ids)) ->
    fetch_reply h email_id = Ok (u "OK", msg) ->
    (forall s, In s exclude_senders ->
               ~ contains_lowered lower s (email_sender msg)) ->
    exists out t',
      fetch_emails lower self limit plain_text_only (Some exclude_senders) t
      = (Ok out, t')
      /\ exists r, In r out /\ record_for h email_id r.

(** The claim as the specification words it: a fetched message whose
    sender contains an exclusion substring, be it letter for letter, has
    no record in the output. *)
Definition senders_with_the_substring_are_dropped (lower : str -> str) : Prop :=
  forall (self : Connector) (h : Server)
         (limit : option Z) (plain_text_only : bool)
         (exclude_senders : list str) (t t' : list Command)
         (out : list EmailRecord) (email_id : bytes) (msg : Email) (s : str),
    imap self = Some h ->
    fetch_emails lower self limit plain_text_only (Some exclude_senders) t
    = (Ok out, t') ->
    fetch_reply h email_id = Ok (u "OK", msg) ->
    In s exclude_senders ->
    PyStr.contains s (email_sender msg) = true ->
    forall r, In r out -> ~ record_for h email_id r.

(** ** Messages and servers of the examples *)

(** A server that answers NO to SELECT. *)
Definition rejecting_server : Server :=
  {| login_reply := fun _ _ => Ok tt;
     select_reply := Ok (u "NO");
     search_reply := Ok (u "OK", b "1 2 3");
     fetch_reply := fun _ => Raise ServerError;
     close_reply := Ok tt;
     logout_reply := Ok tt |}.

(** A plain-text message of a given sender. *)
Definition plain_email (sender : str) : Email :=
  {| email_subject := u "Offer";
     email_sender := sender;
     email_date := u "2024-01-02 03:04:05";
     email_body := Leaf (u "text/plain") None (b "Hello  there") |}.

(** A server listing five messages, every one of them fetched with the
    same plain-text body. *)
Definition five_message_server : Server :=
  {| login_reply := fun _ _ => Ok tt;
     select_reply := Ok (u "OK");
     search_reply := Ok (u "OK", b "1 2 3 4 5");
     fetch_reply := fun _ => Ok (u "OK", plain_email (u "hr@example.com"));
     close_reply := Ok tt;
     logout_reply := Ok tt |}.

(** A multipart message whose only body is HTML. *)
Definition html_only_message : Message :=
  Multipart (u "multipart/alternative") None
            [Leaf (u "text/html") None (b "<p>Hello</p>")].

(** The mailbox of the specification's scenario: a plain-text offer, an
    HTML-only rejection, and a newsletter. *)
Definition scenario_server : Server :=
  {| login_reply := fun _ _ => Ok tt;
     select_reply := Ok (u "OK");
     search_reply := Ok (u "OK", b "1 2 3");
     fetch_reply := fun email_id =>
       if str_eqb (List.map Byte.to_N email_id) (u "1") then
         Ok (u "OK", plain_email (u "hr@example.com"))
       else if str_eqb (List.map Byte.to_N email_id) (u "2") then
         Ok (u "OK",
             {| email_subject := u "Update";
                email_sender := u "jobs@corp.example";
                email_date := u "2024-01-03 00:00:00";
                email_body :=
                  Leaf (u "text/html") None
                       (b "<html><body><p>We&nbsp;regret</p></body></html>") |})
       else
         Ok (u "OK", plain_email (u "NoReply@Newsletter.com"));
     close_reply := Ok tt;
     logout_reply := Ok tt |}.

(** A message with both alternatives, an attachment and an inline text. *)
Definition alternative_message : Message :=
  Multipart (u "multipart/mixed") None
    [ Multipart (u "multipart/alternative") None
        [ Leaf (u "text/plain") None (b "Dear  candidate,");
          Leaf (u "text/html") None (b "<p>Dear <b>candidate</b>,</p>") ];
      Leaf (u "text/plain") (Some (u "attachment; filename=cv.txt")) (b "CV");
      Leaf (u "text/plain") (Some (u "inline")) (b " welcome ") ].

(** A mailbox with one plain-text message that shows markup. *)
Definition markup_server : Server :=
  {| login_reply := fun _ _ => Ok tt;
     select_reply := Ok (u "OK");
     search_reply := Ok (u "OK", b "7");
     fetch_reply := fun _ =>
       Ok (u "OK",
           {| email_subject := u "Re: offer";
              email_sender := u "hr@example.com";
              email_date := u "2024-01-02 03:04:05";
              email_body := Leaf (u "text/plain") None (b "Use <b>bold</b> text") |});
     close_reply := Ok tt;
     logout_reply := Ok tt |}.

(** A message without a declared text type whose bytes look like HTML. *)
Definition untyped_html_message : Message :=
  Leaf (u "application/octet-stream") None
       (b "<html><body><h1>Offer</h1>  <p>Dear&nbsp;you</p></body></html>").

(** ** Order of the records *)

(** [l1] is [l2] with some elements left out, the others in their order. *)
Inductive subseq {A : Type} : list A -> list A -> Prop :=
| subseq_nil : subseq [] []
| subseq_skip (x : A) (l1 l2 : list A) : subseq l1 l2 -> subseq l1 (x :: l2)
| subseq_take (x : A) (l1 l2 : list A) : subseq l1 l2 -> subseq (x :: l1) (x :: l2).

(** A mailbox of three messages whose second one holds a character
    reference beyond the last code point. *)
Definition overflow_server : Server :=
  {| login_reply := fun _ _ => Ok tt;
     select_reply := Ok (u "OK");
     search_reply := Ok (u "OK", b "1 2 3");
     fetch_reply := fun email_id =>
       if str_eqb (List.map Byte.to_N email_id) (u "2") then
         Ok (u "OK",
             {| email_subject := u "Update";
                email_sender := u "jobs@corp.example";
                email_date := u "2024-01-03 00:00:00";
                email_body :=
                  Leaf (u "text/html") None (b "<p>Hi &#1114112; there</p>") |})
       else
         Ok (u "OK", plain_email (u "hr@example.com"));
     close_reply := Ok tt;
     logout_reply := Ok tt |}.

(** A server that lists its messages but refuses the search. *)
Definition search_rejecting_server : Server :=
  {| login_reply := fun _ _ => Ok tt;
     select_reply := Ok (u "OK");
     search_reply := Ok (u "NO", b "");
     fetch_reply := fun _ => Ok (u "OK", plain_email (u "hr@example.com"));
     close_reply := Ok tt;
     logout_reply := Ok tt |}.

(** A server whose message 2 cannot be fetched. *)
Definition gap_server : Server :=
  {| login_reply := fun _ _ => Ok tt;
     select_reply := Ok (u "OK");
     search_reply := Ok (u "OK", b "1 2 3");
     fetch_reply := fun email_id =>
       if str_eqb (List.map Byte.to_N email_id) (u "2") then
         Ok (u "NO", plain_email (u "nobody@example.com"))
       else
         Ok (u "OK", plain_email (u "hr@example.com"));
     close_reply := Ok tt;
     logout_reply := Ok tt |}.

(** ** Character references *)

(** The text [&#digits;]. *)
Definition numeric_reference (digits : str) : str :=
  u "&#" ++ digits ++ u ";".

(** ** The entity table *)

(** [old] and [a] agree as far as both go: [old] may start at the head of
    a text that begins with [a]. *)
Fixpoint may_start (old a : str) : bool :=
  match old, a with
  | [], _ => true
  | _ :: _, [] => true
  | c :: old', d :: a' => N.eqb c d && may_start old' a'
  end.

(** [old] may start somewhere inside [a]. *)
Fixpoint may_start_inside (old a : str) : bool :=
  match a with
  | [] => false
  | _ :: a' => may_start old a || may_start_inside old a'
  end.

(** The entries of a table before and after the first one with key [key]. *)
Fixpoint entries_before (key : str) (table : list (str * str)) : list (str * str) :=
  match table with
  | [] => []
  | e :: table' => if str_eqb (fst e) key then [] else e :: entries_before key table'
  end.

Fixpoint entries_after (key : str) (table : list (str * str)) : list (str * str) :=
  match table with
  | [] => []
  | e :: table' => if str_eqb (fst e) key then table' else entries_after key table'
  end.

(** ** Tags *)

(** The tag with text [c] between its brackets. *)
Definition tag (c : str) : str := chr_lt :: c ++ [chr_gt].

(** The text of a tag starts as the block pattern wants it:
    [div], [p], [h] and a digit, [br], [li] or [tr]. *)
Definition opens_block (c : str) : bool :=
  PyStr.startswith (u "div") c
  || PyStr.startswith (u "p") c
  || match c with
     | h :: d :: _ => N.eqb h 104 && PyStr.is_digit d
     | _ => false
     end
  || PyStr.startswith (u "br") c
  || PyStr.startswith (u "li") c
  || PyStr.startswith (u "tr") c.

(** ** The export service *)

(** The connector once [connect] has stored the handle [h]. *)
Definition with_handle (c : Connector) (h : Server) : Connector :=
  {| username := username c; password := password c;
     imap_server := imap_server c; imap_port := imap_port c;
     imap := Some h |}.

(** The commands that read the mailbox. *)
Definition reads_mailbox (c : Command) : bool :=
  match c with
  | SELECT _ | SEARCH _ | FETCH _ _ => true
  | LOGIN _ _ | CLOSE | LOGOUT => false
  end.

(** What [disconnect] sends to the server [h]. *)
Definition closing (h : Server) : list Command :=
  match close_reply h with
  | Ok _ => [CLOSE; LOGOUT]
  | Raise _ => [CLOSE]
  end.

(** A server that refuses the login. *)
Definition locked_server : Server :=
  {| login_reply := fun _ _ => Raise ServerError;
     select_reply := Ok (u "OK");
     search_reply := Ok (u "OK", b "1");
     fetch_reply := fun _ => Ok (u "OK", plain_email (u "hr@example.com"));
     close_reply := Ok tt;
     logout_reply := Ok tt |}.

(** A Gmail service whose exporter always succeeds. *)
Definition gmail_service : EmailExportService.Service :=
  {| EmailExportService.connector := GmailConnector (u "me") (u "secret");
     EmailExportService.exporter := fun _ _ => Ok true |}.

(** ** Attachments *)

(** A message that is nothing but two attached files. *)
Definition attachment_only_message : Message :=
  Multipart (u "multipart/mixed") None
    [ Leaf (u "text/csv") (Some (u "attachment; filename=scores.csv"))
           (b "name,  score" ++ [x0a] ++ b "Ann,   7 ")%list;
      Leaf (u "text/plain") (Some (u "attachment; filename=b.txt"))
           (b " second   file") ].

(** The mailbox that holds it. *)
Definition attachment_server : Server :=
  {| login_reply := fun _ _ => Ok tt;
     select_reply := Ok (u "OK");
     search_reply := Ok (u "OK", b "1");
     fetch_reply := fun _ =>
       Ok (u "OK",
           {| email_subject := u "Your documents";
              email_sender := u "hr@example.com";
              email_date := u "2024-01-02 03:04:05";
              email_body := attachment_only_message |});
     close_reply := Ok tt;
     logout_reply := Ok tt |}.

(** ** Letter case beyond ASCII *)

(** A provider name written with the Kelvin sign in place of its last
    letter. *)
Definition kelvin_outlook : str := u "outloo" ++ [8490%N].

(** Two Greek capital letters, alpha and sigma, and a sender whose name
    goes on with another alpha. *)
Definition alpha_sigma : str := [913%N; 931%N].

Definition alpha_sigma_alpha_sender : str :=
  [913%N; 931%N; 913%N] ++ u " <a@b.gr>".

(** A mailbox with one message of that sender. *)
Definition sigma_server : Server :=
  {| login_reply := fun _ _ => Ok tt;
     select_reply := Ok (u "OK");
     search_reply := Ok (u "OK", b "1");
     fetch_reply := fun _ =>
       Ok (u "OK",
           {| email_subject := u "Offer";
              email_sender := alpha_sigma_alpha_sender;
              email_date := u "2024-01-02 03:04:05";
              email_body := Leaf (u "text/plain") None (b "Hello") |});
     close_reply := Ok tt;
     logout_reply := Ok tt |}.

(** * Properties *)

(** ** Strings *)

Lemma str_eqb_refl (s : str) : str_eqb s s = true.
Proof.
  induction s as [|c s IH]; simpl; [reflexivity|].
  now rewrite N.eqb_refl.
Qed.

Lemma str_eqb_eq (s t : str) : str_eqb s t = true <-> s = t.
Proof.
  split; [|intros ->; apply str_eqb_refl].
  revert t; induction s as [|c s IH]; intros [|d t]; simpl; try discriminate; auto.
  intros H. apply andb_true_iff in H as [Hc Hs].
  apply N.eqb_eq in Hc. f_equal; auto.
Qed.

Lemma str_eqb_neq (s t : str) : s <> t -> str_eqb s t = false.
Proof.
  intros Hne. destruct (str_eqb s t) eqn:E; [|reflexivity].
  apply str_eqb_eq in E. contradiction.
Qed.

(** ** Disconnecting *)

(** C9. [disconnect] returns normally in every state of the connector and
    whatever the server replies: without a handle nothing is sent; with a
    handle CLOSE is sent, then LOGOUT unless CLOSE raised, and an exception
    of either is swallowed. *)
Theorem disconnect_never_raises (self : Connector) (t : list Command) :
  disconnect self t =
  (Ok tt,
   t ++ match imap self with
        | None => []
        | Some h =>
            match close_reply h with
            | Ok _ => [CLOSE; LOGOUT]
            | Raise _ => [CLOSE]
            end
        end).
Proof.
  unfold disconnect, try_except, iobind, send, ret.
  destruct (imap self) as [h|]; simpl.
  - destruct (close_reply h) as [[]|e]; simpl.
    + destruct (logout_reply h) as [[]|e']; now rewrite <- app_assoc.
    + reflexivity.
  - now rewrite app_nil_r.
Qed.

(** A connector whose login failed still holds a handle; it disconnects
    without raising although CLOSE is refused. *)
Example disconnect_after_failed_login :
  let h := {| login_reply := fun _ _ => Raise ServerError;
              select_reply := Raise ServerError;
              search_reply := Raise ServerError;
              fetch_reply := fun _ => Raise ServerError;
              close_reply := Raise ServerError;
              logout_reply := Ok tt |} in
  let self := GmailConnector (u "me") (u "pw") in
  match connect (fun _ _ => Ok h) self [] with
  | (Ok (connected, self'), t) =>
      connected = false /\
      disconnect self' t = (Ok tt, [LOGIN (u "me") (u "pw"); CLOSE])
  | _ => False
  end.
Proof. vm_compute. split; reflexivity. Qed.

(** ** Selecting the inbox *)

(** C3, counterexample. With a server that answers NO to SELECT,
    [fetch_emails] returns the empty list instead of raising. *)
Lemma select_rejection_does_not_raise :
  fetch_emails ascii_lower (connected_to rejecting_server) None false None []
  = (Ok [], [SELECT (u "INBOX")])
  /\ ~ select_rejection_raises.
Proof.
  split; [reflexivity|].
  intros H.
  destruct (H ascii_lower (connected_to rejecting_server) rejecting_server
              None false None (u "NO") [] eq_refl eq_refl)
    as (e & t' & E).
  - discriminate.
  - vm_compute in E. discriminate.
Qed.

(** C3, amended. When the server rejects the selection of the inbox,
    [fetch_emails] returns the empty list of records, having sent SELECT
    and nothing else. *)
Theorem select_rejection_returns_empty
        (lower : str -> str) (self : Connector) (h : Server)
        (limit : option Z) (plain_text_only : bool)
        (exclude_senders : option (list str)) (status : str)
        (t : list Command) :
  imap self = Some h ->
  select_reply h = Ok status ->
  status <> u "OK" ->
  fetch_emails lower self limit plain_text_only exclude_senders t
  = (Ok [], t ++ [SELECT (u "INBOX")]).
Proof.
  intros Hh Hsel Hst.
  unfold fetch_emails. rewrite Hh.
  unfold iobind, send. rewrite Hsel.
  now rewrite (str_eqb_neq Hst).
Qed.

Lemma select_rejection_returns_empty_witness :
  fetch_emails ascii_lower (connected_to rejecting_server)
               (Some 2%Z) true (Some [u "newsletter"]) [LOGIN (u "me") (u "pw")]
  = (Ok [], [LOGIN (u "me") (u "pw"); SELECT (u "INBOX")]).
Proof.
  apply (@select_rejection_returns_empty
           ascii_lower (connected_to rejecting_server) rejecting_server
           (Some 2%Z) true (Some [u "newsletter"]) (u "NO")
           [LOGIN (u "me") (u "pw")]).
  - reflexivity.
  - reflexivity.
  - discriminate.
Defined.

(** ** The limit on the number of messages *)



Lemma apply_limit_positive (k : Z) (ids : list bytes) :
  (0 < k)%Z -> apply_limit (Some k) ids = last_n k ids.
Proof.
  intros Hk. unfold apply_limit.
  replace (k =? 0)%Z with false by (symmetry; apply Z.eqb_neq; lia).
  replace (k >? 0)%Z with true by (symmetry; apply Z.gtb_lt; lia).
  reflexivity.
Qed.


Lemma fetch_one_trace (lower : str -> str) (h : Server) (pto : bool)
      (ex : list str) (email_id : bytes) (t : list Command) :
  snd (fetch_one lower h pto ex email_id t) = t ++ [fetch_command email_id].
Proof.
  unfold fetch_one, iobind, send, ret, lift, fetch_command.
  destruct (fetch_reply h email_id) as [[status msg]|e]; simpl; [|reflexivity].
  destruct (str_eqb status (u "OK")); simpl; [|reflexivity].
  destruct (should_exclude lower ex (email_sender msg)); [reflexivity|].
  destruct (_get_email_content (email_body msg) pto); [|reflexivity].
  destruct (Utf8.decode_strict email_id); reflexivity.
Qed.




(** The two most recent of five. *)
Example limit_two_of_five :
  apply_limit (Some 2%Z) (bytes_split (b "1 2 3 4 5")) = [b "4"; b "5"].
Proof. reflexivity. Qed.

(** With limit 1 against five listed identifiers, one record comes back,
    for the identifier listed last. *)
Example limit_one_of_five :
  fetch_emails ascii_lower (connected_to five_message_server)
               (Some 1%Z) false None []
  = (Ok [ {| id := u "5"; subject := u "Offer"; from := u "hr@example.com";
             date := u "2024-01-02 03:04:05"; content := u "Hello there" |} ],
     [SELECT (u "INBOX"); SEARCH (u "ALL"); fetch_command (b "5")]).
Proof. vm_compute. reflexivity. Qed.

(** ** Letter case *)

(** On ASCII text [str.lower] is [ascii_lower]. *)
Lemma to_lower_ascii (c : N) :
  (c < 128)%N -> StrLower.to_lower c = ascii_lower_char c.
Proof.
  intros Hc.
  assert (Hall : forallb (fun n => N.eqb (StrLower.to_lower (N.of_nat n))
                                         (ascii_lower_char (N.of_nat n)))
                         (seq 0 128) = true)
    by (vm_compute; reflexivity).
  rewrite forallb_forall in Hall.
  specialize (Hall (N.to_nat c)).
  rewrite N2Nat.id in Hall. apply N.eqb_eq, Hall.
  apply in_seq. lia.
Qed.

Lemma lower_loop_ascii (s : str) :
  is_ascii s -> forall before, StrLower.lower_loop before s = ascii_lower s.
Proof.
  induction 1 as [|c s Hc Hs IH]; intros before; [reflexivity|].
  cbn [StrLower.lower_loop]. unfold StrLower.to_lower_full.
  replace (c =? 931)%N with false by (symmetry; apply N.eqb_neq; lia).
  replace (c =? 304)%N with false by (symmetry; apply N.eqb_neq; lia).
  cbn [app]. rewrite IH, to_lower_ascii by exact Hc. reflexivity.
Qed.

Lemma str_lower_ascii (s : str) : is_ascii s -> StrLower.lower s = ascii_lower s.
Proof. intros Hs. now apply lower_loop_ascii. Qed.

Lemma same_ascii_letter_lower (x y : N) :
  same_ascii_letter x y <-> ascii_lower_char x = ascii_lower_char y.
Proof.
  unfold same_ascii_letter, ascii_lower_char.
  destruct (N.leb_spec 65 x); destruct (N.leb_spec x 90);
    destruct (N.leb_spec 65 y); destruct (N.leb_spec y 90);
    cbn [andb]; lia.
Qed.

Lemma same_letters_lower (s m : str) :
  Forall2 same_ascii_letter s m <-> ascii_lower m = ascii_lower s.
Proof.
  unfold ascii_lower. split.
  - induction 1 as [|x y s m Hxy _ IH]; [reflexivity|].
    cbn [List.map]. apply same_ascii_letter_lower in Hxy. now rewrite Hxy, IH.
  - revert m. induction s as [|x s IH]; intros [|y m] E; try discriminate.
    + constructor.
    + cbn [List.map] in E. injection E as Exy E. constructor.
      * now apply same_ascii_letter_lower.
      * now apply IH.
Qed.

(** For ASCII text the test of the loop is an occurrence up to the case
    of the letters. *)
Lemma contains_lowered_ascii (lower : str -> str) (s sender : str) :
  (forall x, is_ascii x -> lower x = ascii_lower x) ->
  is_ascii s -> is_ascii sender ->
  contains_lowered lower s sender <-> occurs_ignoring_ascii_case s sender.
Proof.
  intros Hlower Hs Hsender.
  unfold contains_lowered, occurs_ignoring_ascii_case.
  rewrite (Hlower s Hs), (Hlower sender Hsender). split.
  - intros (a & c & E). unfold ascii_lower in E.
    apply map_eq_app in E as (a' & r & -> & Ha & E).
    apply map_eq_app in E as (m & c' & -> & Hm & Hc).
    exists a', m, c'. split; [reflexivity|].
    now apply same_letters_lower.
  - intros (a & m & c & -> & Hm). apply same_letters_lower in Hm.
    exists (ascii_lower a), (ascii_lower c).
    unfold ascii_lower in *. now rewrite !map_app, Hm.
Qed.

(** A string whose lower-case form is a lower-case name spells that name. *)
Lemma lower_capitalization (p name : str) :
  ascii_lower p = name -> capitalization_of name p.
Proof.
  intros <-. unfold capitalization_of, ascii_lower.
  induction p as [|c p IH]; [constructor|].
  cbn [List.map]. constructor; [|exact IH].
  unfold ascii_lower_char.
  destruct ((65 <=? c) && (c <=? 90))%N eqn:Ec; [|now left].
  apply andb_true_iff in Ec as [E1 E2]. apply N.leb_le in E1, E2.
  right. split; [|lia].
  apply andb_true_iff. split; apply N.leb_le; lia.
Qed.

(** ** The connector factory *)

Lemma capitalization_lower (name p : str) :
  capitalization_of name p ->
  Forall (fun d => (97 <=? d)%N && (d <=? 122)%N = true) name ->
  is_ascii p /\ ascii_lower p = name.
Proof.
  induction 1 as [|d c name p Hc Hrest IH]; intros Hname.
  - split; [constructor|reflexivity].
  - inversion Hname as [|? ? Hd Hname']; subst.
    destruct (IH Hname') as [Hascii Hlow].
    apply andb_true_iff in Hd as [Hd1 Hd2].
    apply N.leb_le in Hd1, Hd2.
    split.
    + constructor; [|exact Hascii].
      destruct Hc as [->|[_ ->]]; lia.
    + unfold ascii_lower in *. simpl. rewrite Hlow. f_equal.
      unfold ascii_lower_char.
      destruct Hc as [->|[_ ->]].
      * replace (d <=? 90)%N with false by (symmetry; apply N.leb_gt; lia).
        now rewrite andb_false_r.
      * replace (65 <=? d - 32)%N with true by (symmetry; apply N.leb_le; lia).
        replace (d - 32 <=? 90)%N with true by (symmetry; apply N.leb_le; lia).
        simpl. lia.
Qed.

Section Factory.

Variable lower : str -> str.

(** On ASCII strings [str.lower] turns the letters A-Z into a-z and leaves
    the rest. *)
Hypothesis lower_ascii : forall s, is_ascii s -> lower s = ascii_lower s.

Lemma create_connector_of_lower (name : str) (conn : str -> str -> Connector)
      (provider username password : str) :
  In (name, conn) providers ->
  lower provider = name ->
  EmailConnectorFactory.create_connector lower provider username password
  = Ok (conn username password).
Proof.
  intros Hin Hlow. unfold EmailConnectorFactory.create_connector.
  rewrite Hlow. unfold providers in Hin. simpl in Hin.
  repeat (destruct Hin as [Hin|Hin];
          [inversion Hin; subst; reflexivity|]).
  contradiction.
Qed.

(** C10. [create_connector] resolves the provider through [str.lower]: a
    provider name that is one of the five names up to the case of its
    letters gives the connector of that name, the same as the all-lower-case
    name gives, with its host and port 993; an ASCII string that is no
    capitalization of one of the five raises [ValueError]; and a string of
    any kind raises [ValueError] exactly when its lower-case form is none
    of the five. *)
Theorem create_connector_case_insensitive (provider username password : str) :
  (forall name conn,
      In (name, conn) providers ->
      capitalization_of name provider \/ lower provider = name ->
      EmailConnectorFactory.create_connector lower provider username password
      = Ok (conn username password)
      /\ EmailConnectorFactory.create_connector lower name username password
         = Ok (conn username password)
      /\ imap_port (conn username password) = 993%Z)
  /\ (is_ascii provider ->
      (forall name conn, In (name, conn) providers ->
                         ~ capitalization_of name provider) ->
      EmailConnectorFactory.create_connector lower provider username password
      = Raise ValueError)
  /\ (EmailConnectorFactory.create_connector lower provider username password
      = Raise ValueError
      <-> forall name conn, In (name, conn) providers -> lower provider <> name).
Proof.
  assert (Hnone :
            (forall name conn, In (name, conn) providers -> lower provider <> name) ->
            EmailConnectorFactory.create_connector lower provider username password
            = Raise ValueError).
  { intros Hnone. unfold EmailConnectorFactory.create_connector.
    repeat match goal with
           | |- context [str_eqb (lower provider) ?n] =>
               rewrite (@str_eqb_neq (lower provider) n)
           end; try reflexivity.
    all: eapply Hnone; unfold providers; simpl; eauto 10. }
  split; [|split].
  - intros name conn Hin Hcap.
    assert (Hname : Forall (fun d => (97 <=? d)%N && (d <=? 122)%N = true) name).
    { unfold providers in Hin. simpl in Hin.
      repeat (destruct Hin as [Hin|Hin];
              [inversion Hin; subst; repeat constructor|]).
      contradiction. }
    assert (Hself : lower name = name).
    { assert (Hc : capitalization_of name name).
      { clear. induction name; constructor; auto. }
      destruct (capitalization_lower Hc Hname) as [Ha Hl].
      now rewrite (lower_ascii Ha). }
    assert (Hprov : lower provider = name).
    { destruct Hcap as [Hcap|Hlow]; [|exact Hlow].
      destruct (capitalization_lower Hcap Hname) as [Ha Hl].
      now rewrite (lower_ascii Ha). }
    split; [|split].
    + now apply create_connector_of_lower with (name := name).
    + now apply create_connector_of_lower with (name := name).
    + unfold providers in Hin. simpl in Hin.
      repeat (destruct Hin as [Hin|Hin];
              [inversion Hin; subst; reflexivity|]).
      contradiction.
  - intros Hascii Hno. apply Hnone. intros name conn Hin Hlow.
    apply (Hno name conn Hin). apply lower_capitalization.
    now rewrite <- (lower_ascii Hascii).
  - split; [|exact Hnone].
    intros Hraise name conn Hin Hlow.
    rewrite (@create_connector_of_lower name conn provider username password
                                        Hin Hlow) in Hraise.
    discriminate.
Qed.

End Factory.

Lemma create_connector_case_insensitive_witness :
  EmailConnectorFactory.create_connector StrLower.lower (u "GMail") (u "me") (u "pw")
  = Ok (GmailConnector (u "me") (u "pw"))
  /\ EmailConnectorFactory.create_connector StrLower.lower (u "gmail") (u "me") (u "pw")
     = Ok (GmailConnector (u "me") (u "pw"))
  /\ imap_port (GmailConnector (u "me") (u "pw")) = 993%Z.
Proof.
  apply (proj1 (@create_connector_case_insensitive
                  StrLower.lower str_lower_ascii
                  (u "GMail") (u "me") (u "pw"))
               (u "gmail") GmailConnector).
  - left. reflexivity.
  - left. unfold capitalization_of.
    repeat (apply Forall2_cons; [first [left; reflexivity | right; split; reflexivity]|]).
    apply Forall2_nil.
Defined.

(** C10, counterexample. The Kelvin sign is no letter of a provider name
    in either case, but [str.lower] turns it into the letter k: the name
    written with it is no capitalization of one of the five, and it gets
    the Outlook connector. *)
Lemma kelvin_sign_is_accepted :
  StrLower.lower kelvin_outlook = u "outlook"
  /\ EmailConnectorFactory.create_connector StrLower.lower kelvin_outlook
                                            (u "me") (u "pw")
     = Ok (OutlookConnector (u "me") (u "pw"))
  /\ (forall name conn, In (name, conn) providers ->
                        ~ capitalization_of name kelvin_outlook)
  /\ ~ every_other_string_fails StrLower.lower.
Proof.
  assert (Hno : forall name conn, In (name, conn) providers ->
                                  ~ capitalization_of name kelvin_outlook).
  { intros name conn Hin Hcap. unfold providers in Hin. cbn [In] in Hin.
    unfold capitalization_of, kelvin_outlook in Hcap.
    repeat (destruct Hin as [Hin|Hin];
            [injection Hin as <- _;
             repeat match goal with
                    | H : Forall2 _ _ _ |- _ => inversion H; clear H; subst
                    end;
             repeat match goal with
                    | H : _ \/ _ |- _ => destruct H as [H|[_ H]]
                    end;
             try discriminate|]).
    contradiction. }
  split; [vm_compute; reflexivity|]. split; [vm_compute; reflexivity|].
  split; [exact Hno|].
  intros H. specialize (H kelvin_outlook (u "me") (u "pw") Hno).
  vm_compute in H. discriminate.
Qed.

Example create_connector_unknown :
  EmailConnectorFactory.create_connector ascii_lower (u "ProtonMail") (u "me") (u "pw")
  = Raise ValueError.
Proof. reflexivity. Qed.

(** ** Plain text only *)

(** C1. With [plain_text_only] set, a multipart message that has only a
    text/html part still gets its HTML collected and converted: the content
    returned is the converted HTML, where the docstring of
    [_get_email_content] promises that HTML is ignored. *)
Theorem plain_text_only_converts_html :
  collect html_only_message = ([], u "<p>Hello</p>")
  /\ _get_email_content html_only_message true = Ok (u "Hello").
Proof. vm_compute. split; reflexivity. Qed.

(** The flag has no effect on any message. *)
Lemma plain_text_only_is_ignored (msg : Message) :
  _get_email_content msg true = _get_email_content msg false.
Proof. reflexivity. Qed.

(** ** Excluded senders *)

Lemma startswith_iff (p s : str) :
  PyStr.startswith p s = true <-> exists r, s = p ++ r.
Proof.
  revert s. induction p as [|c p IH]; intros s; simpl.
  - split; [intros _; now exists s|reflexivity].
  - destruct s as [|d s].
    + split; [discriminate|intros [r Hr]; discriminate].
    + rewrite andb_true_iff, N.eqb_eq, IH. split.
      * intros [-> [r ->]]. now exists r.
      * intros [r Hr]. inversion Hr; subst. split; [reflexivity|now exists r].
Qed.

Lemma contains_iff (p s : str) :
  PyStr.contains p s = true <-> exists a r, s = a ++ p ++ r.
Proof.
  induction s as [|d s IH].
  - simpl. rewrite orb_false_r, startswith_iff. split.
    + intros [r Hr]. now exists [], r.
    + intros (a & r & H). destruct a; simpl in H.
      * now exists r.
      * discriminate.
  - cbn [PyStr.contains]. rewrite orb_true_iff, startswith_iff, IH. split.
    + intros [[r Hr]|(a & r & Hr)].
      * now exists [], r.
      * exists (d :: a), r. now rewrite Hr.
    + intros (a & r & H). destruct a as [|x a]; simpl in H.
      * left. now exists r.
      * right. inversion H; subst. now exists a, r.
Qed.

Lemma should_exclude_true (lower : str -> str) (ex : list str) (sender : str) :
  should_exclude lower ex sender = true <->
  exists s, In s ex /\ contains_lowered lower s sender.
Proof.
  unfold contains_lowered.
  induction ex as [|x ex IH]; simpl.
  - split; [discriminate|intros (s & [] & _)].
  - destruct (PyStr.contains (lower x) (lower sender)) eqn:E.
    + split; [intros _|reflexivity].
      exists x. split; [now left|]. now apply contains_iff.
    + rewrite IH. split.
      * intros (s & Hin & Hs). exists s. split; [now right|exact Hs].
      * intros (s & [->|Hin] & Hs).
        -- apply contains_iff in Hs. congruence.
        -- now exists s.
Qed.

Lemma should_exclude_false (lower : str -> str) (ex : list str) (sender : str) :
  should_exclude lower ex sender = false <->
  forall s, In s ex -> ~ contains_lowered lower s sender.
Proof.
  split.
  - intros H s Hin Hs.
    assert (should_exclude lower ex sender = true)
      by (apply should_exclude_true; now exists s).
    congruence.
  - intros H. destruct (should_exclude lower ex sender) eqn:E; [|reflexivity].
    apply should_exclude_true in E as (s & Hin & Hs). now destruct (H s Hin).
Qed.

Lemma fetch_one_some (lower : str -> str) (h : Server) (pto : bool)
      (ex : list str) (email_id : bytes) (t t1 : list Command) (r : EmailRecord) :
  fetch_one lower h pto ex email_id t = (Ok (Some r), t1) ->
  record_of lower h ex email_id r.
Proof.
  unfold fetch_one, iobind, send, ret, lift, record_of.
  destruct (fetch_reply h email_id) as [[status msg]|e]; [|discriminate].
  destruct (str_eqb status (u "OK")) eqn:Es; simpl; [|discriminate].
  apply str_eqb_eq in Es. subst status.
  destruct (should_exclude lower ex (email_sender msg)) eqn:Ex; [discriminate|].
  destruct (_get_email_content (email_body msg) pto); [|discriminate].
  destruct (Utf8.decode_strict email_id) as [i|]; [|discriminate].
  intros H. inversion H; subst; simpl. exists msg.
  repeat split; try reflexivity. now apply should_exclude_false.
Qed.

Lemma fetch_one_kept (lower : str -> str) (h : Server) (pto : bool)
      (ex : list str) (email_id : bytes) (t t1 : list Command)
      (o : option EmailRecord) (msg : Email) :
  fetch_one lower h pto ex email_id t = (Ok o, t1) ->
  fetch_reply h email_id = Ok (u "OK", msg) ->
  (forall s, In s ex -> ~ contains_lowered lower s (email_sender msg)) ->
  exists r, o = Some r.
Proof.
  unfold fetch_one, iobind, send, ret, lift.
  intros H Hf Hex. rewrite Hf in H. simpl in H.
  apply should_exclude_false in Hex. rewrite Hex in H.
  destruct (_get_email_content (email_body msg) pto); [|discriminate].
  destruct (Utf8.decode_strict email_id) as [i|]; [|discriminate].
  inversion H. eauto.
Qed.

Lemma fetch_loop_records (lower : str -> str) (h : Server) (pto : bool)
      (ex : list str) (ids : list bytes) :
  forall emails t out t',
    fetch_loop lower h pto ex ids emails t = (Ok out, t') ->
    exists new,
      out = emails ++ new
      /\ (forall r, In r new ->
                    exists email_id, In email_id ids /\ record_of lower h ex email_id r)
      /\ (forall email_id msg,
             In email_id ids ->
             fetch_reply h email_id = Ok (u "OK", msg) ->
             (forall s, In s ex -> ~ contains_lowered lower s (email_sender msg)) ->
             exists r, In r new /\ record_of lower h ex email_id r).
Proof.
  induction ids as [|email_id ids IH]; intros emails t out t' H; simpl in H.
  - unfold ret in H. inversion H; subst. exists []. rewrite app_nil_r.
    split; [reflexivity|]. split; intros; contradiction.
  - unfold iobind in H at 1.
    destruct (fetch_one lower h pto ex email_id t) as [[o|e] t1] eqn:E1;
      [|discriminate].
    apply IH in H as (new & -> & Hnew & Hall).
    destruct o as [r0|].
    + exists (r0 :: new). rewrite <- app_assoc. split; [reflexivity|]. split.
      * intros r [<-|Hr].
        -- exists email_id. split; [now left|]. eapply fetch_one_some; eauto.
        -- destruct (Hnew r Hr) as (i & Hi & Hrec). exists i. split; [now right|auto].
      * intros i msg [<-|Hi] Hf Hex.
        -- exists r0. split; [now left|]. eapply fetch_one_some; eauto.
        -- destruct (Hall i msg Hi Hf Hex) as (r & Hr & Hrec).
           exists r. split; [now right|auto].
    + exists new. split; [reflexivity|]. split.
      * intros r Hr. destruct (Hnew r Hr) as (i & Hi & Hrec).
        exists i. split; [now right|auto].
      * intros i msg [<-|Hi] Hf Hex.
        -- eapply fetch_one_kept in E1; eauto. destruct E1 as [r Hr]. discriminate.
        -- apply (Hall i msg Hi Hf Hex).
Qed.

Lemma record_of_for (lower : str -> str) (h : Server) (ex : list str)
      (email_id : bytes) (r : EmailRecord) :
  record_of lower h ex email_id r ->
  record_for h email_id r
  /\ forall s, In s ex -> ~ contains_lowered lower s (from r).
Proof.
  intros (msg & Hf & Hid & Hfrom & Hsub & Hdate & Hex). split.
  - exists msg. auto.
  - rewrite Hfrom. exact Hex.
Qed.

(** C4. When [fetch_emails] returns its records: no record of the result
    is the record of a fetched message whose sender, put in lower case by
    [str.lower], contains an exclusion substring put in lower case; every
    processed message that was fetched and whose sender contains none in
    this way has its record in the result; and every record of the result
    is the record of a processed message. For ASCII text the test is an
    occurrence of the substring in the sender up to the case of the
    letters. *)
Theorem excluded_senders_have_no_record
        (lower : str -> str) (self : Connector) (h : Server)
        (limit : option Z) (plain_text_only : bool)
        (exclude_senders : list str) (message_ids : bytes)
        (t t' : list Command) (out : list EmailRecord) :
  imap self = Some h ->
  select_reply h = Ok (u "OK") ->
  search_reply h = Ok (u "OK", message_ids) ->
  fetch_emails lower self limit plain_text_only (Some exclude_senders) t
  = (Ok out, t') ->
  let processed := apply_limit limit (bytes_split message_ids) in
  (forall email_id msg s,
      fetch_reply h email_id = Ok (u "OK", msg) ->
      In s exclude_senders ->
      contains_lowered lower s (email_sender msg) ->
      forall r, In r out -> ~ record_for h email_id r)
  /\ (forall email_id msg,
         In email_id processed ->
         fetch_reply h email_id = Ok (u "OK", msg) ->
         (forall s, In s exclude_senders ->
                    ~ contains_lowered lower s (email_sender msg)) ->
         exists r, In r out /\ record_for h email_id r)
  /\ (forall r, In r out ->
                exists email_id, In email_id processed /\ record_for h email_id r)
  /\ ((forall x, is_ascii x -> lower x = ascii_lower x) ->
      forall s sender,
        is_ascii s -> is_ascii sender ->
        (contains_lowered lower s sender <-> occurs_ignoring_ascii_case s sender)).
Proof.
  intros Hh Hsel Hsearch H processed.
  unfold fetch_emails in H. rewrite Hh in H.
  unfold iobind, send in H. rewrite Hsel in H. simpl in H.
  rewrite Hsearch in H. simpl in H.
  apply fetch_loop_records in H as (new & -> & Hnew & Hall).
  simpl. split; [|split; [|split]].
  - intros email_id msg s Hf Hs Hcontains r Hr (msg' & Hf' & _ & Hfrom & _).
    destruct (Hnew r Hr) as (i & _ & Hrec).
    apply record_of_for in Hrec as [_ Hex].
    apply (Hex s Hs). rewrite Hfrom.
    rewrite Hf in Hf'. inversion Hf'. now subst msg'.
  - intros email_id msg Hi Hf Hex.
    destruct (Hall email_id msg Hi Hf Hex) as (r & Hr & Hrec).
    exists r. split; [exact Hr|]. now apply record_of_for in Hrec.
  - intros r Hr. destruct (Hnew r Hr) as (i & Hi & Hrec).
    exists i. split; [exact Hi|]. now apply record_of_for in Hrec.
  - intros Hlower s sender Hs Hsender. now apply contains_lowered_ascii.
Qed.

Lemma excluded_senders_have_no_record_witness :
  exists out,
    List.map id out = [u "1"; u "2"]
    /\ List.map content out = [u "Hello there"; u "We regret"]
    /\ (forall email_id msg s,
           fetch_reply scenario_server email_id = Ok (u "OK", msg) ->
           In s [u "newsletter"] ->
           contains_lowered StrLower.lower s (email_sender msg) ->
           forall r, In r out -> ~ record_for scenario_server email_id r)
    /\ (forall email_id msg,
           In email_id (apply_limit None (bytes_split (b "1 2 3"))) ->
           fetch_reply scenario_server email_id = Ok (u "OK", msg) ->
           (forall s, In s [u "newsletter"] ->
                      ~ contains_lowered StrLower.lower s (email_sender msg)) ->
           exists r, In r out /\ record_for scenario_server email_id r)
    /\ (forall r, In r out ->
                  exists email_id,
                    In email_id (apply_limit None (bytes_split (b "1 2 3")))
                    /\ record_for scenario_server email_id r)
    /\ ((forall x, is_ascii x -> StrLower.lower x = ascii_lower x) ->
        forall s sender,
          is_ascii s -> is_ascii sender ->
          (contains_lowered StrLower.lower s sender
           <-> occurs_ignoring_ascii_case s sender)).
Proof.
  eexists. split; [|split]; cycle 2.
  - eapply (@excluded_senders_have_no_record
              StrLower.lower (connected_to scenario_server) scenario_server
              None false [u "newsletter"] (b "1 2 3") []).
    + reflexivity.
    + reflexivity.
    + reflexivity.
    + vm_compute. reflexivity.
  - vm_compute. reflexivity.
  - vm_compute. reflexivity.
Defined.

(** C4, counterexample. The second of three messages holds a character
    reference out of range: the first one is fetched and parsed, nothing
    is excluded, and yet it has no record, because [fetch_emails] raises
    and returns no record at all. *)
Lemma kept_sender_without_record :
  fetch_reply overflow_server (b "1")
  = Ok (u "OK", plain_email (u "hr@example.com"))
  /\ fetch_emails StrLower.lower (connected_to overflow_server) None false
                  (Some []) []
     = (Raise ValueError,
        [SELECT (u "INBOX"); SEARCH (u "ALL");
         fetch_command (b "1"); fetch_command (b "2")])
  /\ ~ kept_senders_have_records.
Proof.
  split; [reflexivity|]. split; [vm_compute; reflexivity|].
  intros H.
  destruct (H StrLower.lower (connected_to overflow_server) overflow_server
              None false [] (b "1 2 3") [] (b "1")
              (plain_email (u "hr@example.com")))
    as (out & t' & Hout & _); try reflexivity.
  - vm_compute. now left.
  - intros s [].
  - vm_compute in Hout. discriminate.
Qed.

(** The other half of the claim does not hold of every text either: a
    capital sigma at the end of the exclusion substring is put in lower
    case as a final sigma, and in the sender, where a letter follows it,
    as a medial one. The substring stands in the sender letter for
    letter, and the message keeps its record. *)
Example final_sigma_keeps_the_record :
  PyStr.contains alpha_sigma alpha_sigma_alpha_sender = true
  /\ StrLower.lower alpha_sigma = [945; 962]%N
  /\ StrLower.lower alpha_sigma_alpha_sender = [945; 963; 945]%N ++ u " <a@b.gr>"
  /\ List.map from (match fst (fetch_emails StrLower.lower
                                            (connected_to sigma_server) None false
                                            (Some [alpha_sigma]) []) with
                    | Ok out => out
                    | Raise _ => []
                    end)
     = [alpha_sigma_alpha_sender]
  /\ ~ senders_with_the_substring_are_dropped StrLower.lower.
Proof.
  split; [vm_compute; reflexivity|]. split; [vm_compute; reflexivity|].
  split; [vm_compute; reflexivity|]. split; [vm_compute; reflexivity|].
  intros H.
  eapply (H (connected_to sigma_server) sigma_server None false [alpha_sigma]
            [] _ _ (b "1") _ alpha_sigma).
  - reflexivity.
  - vm_compute. reflexivity.
  - reflexivity.
  - now left.
  - vm_compute. reflexivity.
  - now left.
  - eexists. repeat split; reflexivity.
Qed.

(** ** Plain text first *)

Lemma items_nonempty (bs : list N) : bs <> [] -> Utf8.items bs <> [].
Proof.
  destruct bs as [|x t1]; [congruence|]. intros _. simpl.
  repeat match goal with
         | |- (if ?c then _ else _) <> [] => destruct c
         | |- match ?l with [] => _ | _ :: _ => _ end <> [] => destruct l
         end; discriminate.
Qed.

Lemma decode_replace_nonempty (payload : bytes) :
  payload <> [] -> Utf8.decode_replace payload <> [].
Proof.
  intros Hne. unfold Utf8.decode_replace.
  assert (H : Utf8.items (List.map Byte.to_N payload) <> []).
  { apply items_nonempty. destruct payload; [congruence|discriminate]. }
  destruct (Utf8.items (List.map Byte.to_N payload)); [congruence|discriminate].
Qed.

Lemma decode_replace_nil : Utf8.decode_replace [] = [].
Proof. reflexivity. Qed.

Lemma sub_loop_const_ok (r : Re.regex) (t : str) (s : str) :
  forall skip, exists out, Re.sub_loop r (fun _ => Ok t) skip s = Ok out.
Proof.
  induction s as [|c s IH]; intros skip; simpl.
  - destruct skip; destruct (Re.match_here r false []); eauto.
  - destruct skip as [|n]; [|apply IH].
    destruct (Re.match_here r false (c :: s)) as [[|n]|].
    + destruct (Re.match_here r true (c :: s)) as [[|n]|]; simpl.
      * destruct (IH 0%nat) as [out ->]. simpl. eauto.
      * destruct (IH n) as [out ->]. simpl. eauto.
      * destruct (IH 0%nat) as [out ->]. simpl. eauto.
    + simpl. destruct (IH n) as [out ->]. simpl. eauto.
    + destruct (IH 0%nat) as [out ->]. simpl. eauto.
Qed.

Lemma clean_whitespace_ok (s : str) : exists c, Html.clean_whitespace s = Ok c.
Proof.
  unfold Html.clean_whitespace, Re.sub, Re.sub_with.
  destruct (sub_loop_const_ok Html.spaces_re (u " ") s 0) as [out ->].
  simpl. eauto.
Qed.

Lemma text_types_differ (t : str) :
  str_eqb t (u "text/plain") = true -> str_eqb t (u "text/html") = false.
Proof.
  intros H. apply str_eqb_eq in H. subst. reflexivity.
Qed.

Lemma collect_parts_buffers (l : list Message) :
  forall plain html,
    fold_left collect_part l (plain, html)
    = (plain ++ decoded_text
         (flat_map (fun part =>
                      if str_eqb (get_content_type part) (u "text/plain")
                      then match get_payload_decoded part with
                           | Some payload => [payload]
                           | None => []
                           end
                      else [])
                   (filter (fun part => negb (is_attachment part)) l)),
       html ++ decoded_text
         (flat_map (fun part =>
                      if str_eqb (get_content_type part) (u "text/html")
                      then match get_payload_decoded part with
                           | Some payload => [payload]
                           | None => []
                           end
                      else [])
                   (filter (fun part => negb (is_attachment part)) l))).
Proof.
  unfold decoded_text.
  induction l as [|part l IH]; intros plain html; simpl.
  - now rewrite !app_nil_r.
  - fold (is_attachment part).
    destruct (is_attachment part); simpl; [apply IH|].
    destruct (str_eqb (get_content_type part) (u "text/plain")) eqn:Ep.
    + rewrite (text_types_differ _ Ep). simpl.
      destruct (get_payload_decoded part) as [[|x payload]|]; simpl;
        rewrite IH, ?app_nil_r; try reflexivity.
      now rewrite <- app_assoc.
    + destruct (str_eqb (get_content_type part) (u "text/html")) eqn:Eh; simpl.
      * destruct (get_payload_decoded part) as [[|x payload]|]; simpl;
          rewrite IH, ?app_nil_r; try reflexivity.
        now rewrite <- app_assoc.
      * apply IH.
Qed.

(** The two buffers of [_get_email_content] hold the decoded payloads of
    the text/plain and of the text/html body parts. *)
Lemma collect_buffers (msg : Message) :
  collect msg = (decoded_text (payloads_of_type (u "text/plain") msg),
                 decoded_text (payloads_of_type (u "text/html") msg)).
Proof.
  unfold collect, payloads_of_type, body_parts.
  destruct (is_multipart msg) eqn:Em.
  - now rewrite collect_parts_buffers.
  - unfold collect_single, decoded_text. simpl.
    destruct (str_eqb (get_content_type msg) (u "text/plain")) eqn:Ep.
    + rewrite (text_types_differ _ Ep).
      destruct (get_payload_decoded msg) as [[|x payload]|]; simpl;
        now rewrite ?app_nil_r.
    + destruct (str_eqb (get_content_type msg) (u "text/html"));
        destruct (get_payload_decoded msg) as [[|x payload]|]; simpl;
        now rewrite ?app_nil_r.
Qed.

Lemma decoded_text_nonempty (payloads : list bytes) (payload : bytes) :
  In payload payloads -> payload <> [] -> decoded_text payloads <> [].
Proof.
  unfold decoded_text.
  induction payloads as [|p ps IH]; intros Hin Hne; [contradiction|].
  simpl. destruct Hin as [->|Hin].
  - pose proof (decode_replace_nonempty Hne) as H.
    destruct (Utf8.decode_replace payload); [congruence|discriminate].
  - specialize (IH Hin Hne).
    destruct (Utf8.decode_replace p); [exact IH|discriminate].
Qed.

(** C5. For a message with a text/plain body part whose payload is not
    empty, [_get_email_content] returns the whitespace-cleaned
    concatenation of the UTF-8 decoded text/plain payloads, whatever
    text/html parts there are; in general the HTML buffer is converted only
    when the plain-text buffer is empty. *)
Theorem plain_text_is_preferred (msg : Message) (plain_text_only : bool) :
  (exists part payload,
      In part (body_parts msg)
      /\ get_content_type part = u "text/plain"
      /\ get_payload_decoded part = Some payload
      /\ payload <> []) ->
  let plain := decoded_text (payloads_of_type (u "text/plain") msg) in
  plain <> []
  /\ _get_email_content msg plain_text_only = Html.clean_whitespace plain
  /\ exists text, _get_email_content msg plain_text_only = Ok text.
Proof.
  intros (part & payload & Hin & Hct & Hpay & Hne) plain.
  assert (Hplain : plain <> []).
  { apply decoded_text_nonempty with (payload := payload); [|exact Hne].
    unfold payloads_of_type. apply in_flat_map. exists part.
    split; [exact Hin|]. rewrite Hct, str_eqb_refl, Hpay. now left. }
  assert (E : _get_email_content msg plain_text_only = Html.clean_whitespace plain).
  { unfold _get_email_content. rewrite collect_buffers. fold plain.
    destruct plain; [congruence|reflexivity]. }
  split; [exact Hplain|]. split; [exact E|].
  rewrite E. apply clean_whitespace_ok.
Qed.

(** The other half of the selection: with an empty plain-text buffer the
    content is the converted HTML buffer, or empty. *)
Lemma html_is_the_fallback (msg : Message) (plain_text_only : bool) :
  decoded_text (payloads_of_type (u "text/plain") msg) = [] ->
  let html := decoded_text (payloads_of_type (u "text/html") msg) in
  _get_email_content msg plain_text_only
  = (content <- (if is_empty html then Ok [] else Html._html_to_text html) ;;
     Html.clean_whitespace content).
Proof.
  intros Hplain html. unfold _get_email_content.
  rewrite collect_buffers, Hplain. fold html.
  now destruct html.
Qed.

Lemma plain_text_is_preferred_witness :
  decoded_text (payloads_of_type (u "text/plain") alternative_message) <> []
  /\ _get_email_content alternative_message false
     = Html.clean_whitespace
         (decoded_text (payloads_of_type (u "text/plain") alternative_message))
  /\ exists text, _get_email_content alternative_message false = Ok text.
Proof.
  apply (@plain_text_is_preferred alternative_message false).
  exists (Leaf (u "text/plain") None (b "Dear  candidate,")), (b "Dear  candidate,").
  split; [|split; [|split]].
  - vm_compute. right. right. left. reflexivity.
  - reflexivity.
  - reflexivity.
  - discriminate.
Defined.

Example alternative_message_content :
  _get_email_content alternative_message false = Ok (u "Dear candidate, welcome").
Proof. vm_compute. reflexivity. Qed.

(** ** The matcher on the patterns of the source *)

Lemma rmatch_lit (A : Type) (p s : str) (k : Re.cont A) :
  Re.rmatch (Re.Lit p) s k
  = if PyStr.startswith p s then k (skipn (List.length p) s) else None.
Proof.
  revert s. induction p as [|c p IH]; intros s; simpl; [reflexivity|].
  destruct s as [|d s]; [reflexivity|].
  rewrite N.eqb_sym. destruct (N.eqb c d); simpl; [apply IH|reflexivity].
Qed.

Lemma one_char_cls (A : Type) (p : N -> bool) :
  one_char (Re.rmatch (A := A) (Re.Cls p)) p.
Proof. intros s k. reflexivity. Qed.

Lemma one_char_chr (A : Type) (c : N) :
  one_char (Re.rmatch (A := A) (Re.Chr c)) (fun x => N.eqb x c).
Proof. intros s k. reflexivity. Qed.

(** A lazy star over one-character items stops at the first place where
    the continuation succeeds. *)
Lemma lazy_star_skip (A : Type) (body : str -> Re.cont A -> option A)
      (p : N -> bool) (k : Re.cont A) (x : A) (rest : str) :
  one_char body p ->
  k rest = Some x ->
  forall a fuel,
    forallb p a = true ->
    (forall a1 a2, a = a1 ++ a2 -> a2 <> [] -> k (a2 ++ rest) = None) ->
    (List.length (a ++ rest) <= fuel)%nat ->
    Re.star_loop Re.Lazy body k fuel (a ++ rest) = Some x.
Proof.
  intros Hbody Hk. induction a as [|c a IH]; intros fuel Hp Hfail Hfuel.
  - simpl. destruct fuel; simpl; now rewrite Hk.
  - destruct fuel as [|n]; [simpl in Hfuel; lia|].
    simpl in Hp. apply andb_true_iff in Hp as [Hc Hp].
    cbn [Re.star_loop].
    rewrite (Hfail [] (c :: a) eq_refl) by discriminate.
    rewrite Hbody. cbn [app]. rewrite Hc.
    replace (List.length (a ++ rest) <? List.length (c :: a ++ rest))%nat with true
      by (symmetry; apply Nat.ltb_lt; simpl; lia).
    apply IH; [exact Hp| |simpl in Hfuel; lia].
    intros a1 a2 -> Hne. now apply (Hfail (c :: a1) a2).
Qed.

(** It fails when the continuation fails at every place. *)
Lemma lazy_star_none (A : Type) (body : str -> Re.cont A -> option A)
      (p : N -> bool) (k : Re.cont A) :
  one_char body p ->
  forall s fuel,
    (forall s1 s2, s = s1 ++ s2 -> k s2 = None) ->
    Re.star_loop Re.Lazy body k fuel s = None.
Proof.
  intros Hbody. induction s as [|c s IH]; intros fuel Hfail.
  - destruct fuel; simpl; rewrite (Hfail [] [] eq_refl); [reflexivity|].
    now rewrite Hbody.
  - destruct fuel as [|n]; simpl; rewrite (Hfail [] (c :: s) eq_refl);
      [reflexivity|].
    rewrite Hbody. destruct (p c); [|reflexivity].
    destruct (List.length s <? S (List.length s))%nat; [|reflexivity].
    apply IH. intros s1 s2 ->. now apply (Hfail (c :: s1) s2).
Qed.

(** A greedy star over one-character items takes the whole run. *)
Lemma greedy_star_run (A : Type) (body : str -> Re.cont A -> option A)
      (p : N -> bool) (k : Re.cont A) (x : A) (rest : str) :
  one_char body p ->
  k rest = Some x ->
  match rest with [] => True | c :: _ => p c = false end ->
  forall run fuel,
    forallb p run = true ->
    (List.length (run ++ rest) <= fuel)%nat ->
    Re.star_loop Re.Greedy body k fuel (run ++ rest) = Some x.
Proof.
  intros Hbody Hk Hrest.
  assert (Hat_rest : forall fuel, Re.star_loop Re.Greedy body k fuel rest = Some x).
  { intros [|n]; simpl; [exact Hk|]. rewrite Hbody.
    destruct rest as [|c rest']; [exact Hk|]. now rewrite Hrest. }
  induction run as [|c run IH]; intros fuel Hp Hfuel.
  - apply Hat_rest.
  - destruct fuel as [|n]; [simpl in Hfuel; lia|].
    simpl in Hp. apply andb_true_iff in Hp as [Hc Hp].
    cbn [Re.star_loop app]. rewrite Hbody, Hc.
    replace (List.length (run ++ rest) <? List.length (c :: run ++ rest))%nat with true
      by (symmetry; apply Nat.ltb_lt; simpl; lia).
    rewrite IH; [reflexivity|exact Hp|simpl in Hfuel; lia].
Qed.

(** ** [re.sub] *)

Lemma sub_loop_skip (r : Re.regex) (repl : str -> Result str) (a s : str) :
  Re.sub_loop r repl (List.length a) (a ++ s) = Re.sub_loop r repl 0 s.
Proof.
  induction a as [|c a IH]; simpl; [|exact IH].
  destruct s; reflexivity.
Qed.

(** Where no match starts, the characters are copied. *)
Lemma sub_loop_copy (r : Re.regex) (repl : str -> Result str) (s : str) :
  forall a,
    (forall a1 a2, a = a1 ++ a2 -> a2 <> [] ->
                   Re.match_here r false (a2 ++ s) = None) ->
    Re.sub_loop r repl 0 (a ++ s)
    = (out <- Re.sub_loop r repl 0 s ;; Ok (a ++ out)).
Proof.
  induction a as [|c a IH]; intros Hnone.
  - simpl. destruct (Re.sub_loop r repl 0 s); reflexivity.
  - cbn [app Re.sub_loop].
    change (c :: a ++ s) with ((c :: a) ++ s).
    rewrite (Hnone [] (c :: a) eq_refl) by discriminate.
    rewrite IH.
    + destruct (Re.sub_loop r repl 0 s); reflexivity.
    + intros a1 a2 -> Hne. now apply (Hnone (c :: a1) a2).
Qed.

(** A match is replaced and the search goes on behind it. *)
Lemma sub_loop_hit (r : Re.regex) (repl : str -> Result str) (m s : str) :
  m <> [] ->
  Re.match_here r false (m ++ s) = Some (List.length m) ->
  Re.sub_loop r repl 0 (m ++ s)
  = (t <- repl m ;; out <- Re.sub_loop r repl 0 s ;; Ok (t ++ out)).
Proof.
  intros Hne Hm. destruct m as [|c m]; [congruence|].
  cbn [app Re.sub_loop]. change (c :: m ++ s) with ((c :: m) ++ s).
  rewrite Hm. cbn [List.length].
  replace (firstn (S (List.length m)) ((c :: m) ++ s)) with (c :: m).
  - now rewrite sub_loop_skip.
  - change (S (List.length m)) with (List.length (c :: m)).
    now rewrite firstn_app, firstn_all, Nat.sub_diag, firstn_0, app_nil_r.
Qed.

Lemma sub_loop_end (r : Re.regex) (repl : str -> Result str) :
  Re.match_here r false [] = None -> Re.sub_loop r repl 0 [] = Ok [].
Proof. intros H. simpl. now rewrite H. Qed.

(** Without a match anywhere the string comes back unchanged. *)
Lemma sub_with_unchanged (r : Re.regex) (repl : str -> Result str) (s : str) :
  (forall s1 s2, s = s1 ++ s2 -> Re.match_here r false s2 = None) ->
  Re.sub_with r repl s = Ok s.
Proof.
  intros Hnone. unfold Re.sub_with.
  rewrite <- (app_nil_r s) at 1. rewrite sub_loop_copy.
  - rewrite sub_loop_end; [simpl; now rewrite app_nil_r|].
    apply (Hnone s []). now rewrite app_nil_r.
  - intros a1 a2 -> Hne. rewrite app_nil_r. now apply (Hnone a1 a2).
Qed.

(** ** Occurrences of a word *)

Lemma has_char_iff (c : N) (s : str) : PyStr.has_char c s = true <-> In c s.
Proof.
  unfold PyStr.has_char. rewrite existsb_exists. split.
  - intros (x & Hin & Hx). apply N.eqb_eq in Hx. now subst.
  - intros Hin. exists c. split; [exact Hin|apply N.eqb_refl].
Qed.

Lemma has_char_false (c : N) (s : str) : PyStr.has_char c s = false <-> ~ In c s.
Proof.
  rewrite <- has_char_iff. destruct (PyStr.has_char c s); split; congruence.
Qed.

Lemma contains_false (p s : str) :
  PyStr.contains p s = false <->
  forall s1 s2, s = s1 ++ s2 -> PyStr.startswith p s2 = false.
Proof.
  split.
  - intros H s1 s2 ->. destruct (PyStr.startswith p s2) eqn:E; [|reflexivity].
    apply startswith_iff in E as [r ->].
    assert (PyStr.contains p (s1 ++ p ++ r) = true)
      by (apply contains_iff; now exists s1, r).
    congruence.
  - intros H. destruct (PyStr.contains p s) eqn:E; [|reflexivity].
    apply contains_iff in E as (a & r & ->).
    assert (PyStr.startswith p (p ++ r) = true)
      by (apply startswith_iff; now exists r).
    rewrite (H a (p ++ r) eq_refl) in *. discriminate.
Qed.

Lemma contains_app_false (p s1 s2 : str) :
  PyStr.contains p (s1 ++ s2) = false ->
  PyStr.contains p s1 = false /\ PyStr.contains p s2 = false.
Proof.
  intros H. split.
  - destruct (PyStr.contains p s1) eqn:E; [|reflexivity].
    apply contains_iff in E as (a & r & ->).
    assert (PyStr.contains p ((a ++ p ++ r) ++ s2) = true).
    { apply contains_iff. exists a, (r ++ s2). now rewrite <- !app_assoc. }
    congruence.
  - destruct (PyStr.contains p s2) eqn:E; [|reflexivity].
    apply contains_iff in E as (a & r & ->).
    assert (PyStr.contains p (s1 ++ a ++ p ++ r) = true).
    { apply contains_iff. exists (s1 ++ a), r. now rewrite <- !app_assoc. }
    congruence.
Qed.

Lemma startswith_app_cases (p a r : str) :
  PyStr.startswith p (a ++ r) = true ->
  (exists q, a = p ++ q)
  \/ (exists q, p = a ++ q /\ q <> [] /\ PyStr.startswith q r = true).
Proof.
  revert a. induction p as [|c p IH]; intros a H.
  - left. now exists a.
  - destruct a as [|d a].
    + right. exists (c :: p). split; [reflexivity|]. split; [discriminate|exact H].
    + simpl in H. apply andb_true_iff in H as [Hc H].
      apply N.eqb_eq in Hc. subst d.
      destruct (IH a H) as [[q ->]|(q & -> & Hq & Hs)].
      * left. now exists q.
      * right. exists q. split; [reflexivity|]. split; assumption.
Qed.

(** A word that does not occur in [a] does not start inside [a] and run
    over its end either, when the character after [a] is not one of the
    word's letters after the first. *)
Lemma no_straddle (p a : str) (x : N) (rest : str) :
  PyStr.contains p a = false ->
  PyStr.has_char x (tl p) = false ->
  forall a1 a2,
    a = a1 ++ a2 ->
    (a2 = [] -> PyStr.startswith p (x :: rest) = false) ->
    PyStr.startswith p (a2 ++ x :: rest) = false.
Proof.
  intros Hno Hx a1 a2 -> Hempty.
  destruct (PyStr.startswith p (a2 ++ x :: rest)) eqn:E; [|reflexivity].
  destruct (startswith_app_cases _ _ _ E) as [[q ->]|(q & -> & Hq & Hs)].
  - assert (PyStr.contains p (a1 ++ p ++ q) = true)
      by (apply contains_iff; now exists a1, q).
    congruence.
  - destruct a2 as [|d a2].
    + specialize (Hempty eq_refl). simpl in E, Hempty. congruence.
    + destruct q as [|y q]; [congruence|].
      simpl in Hs. apply andb_true_iff in Hs as [Hy _].
      apply N.eqb_eq in Hy. subst y.
      apply has_char_false in Hx. exfalso. apply Hx.
      simpl. apply in_or_app. right. now left.
Qed.

(** ** Script and style blocks *)

Lemma script_re_element : Html.script_re = element_re (u "<script") (u "</script>").
Proof. reflexivity. Qed.

Lemma style_re_element : Html.style_re = element_re (u "<style") (u "</style>").
Proof. reflexivity. Qed.

Lemma element_no_match (open close : str) (must_advance : bool) (s : str) :
  PyStr.startswith open s = false ->
  Re.match_here (element_re open close) must_advance s = None.
Proof.
  intros H. unfold Re.match_here, element_re.
  cbn [Re.Seq Re.rmatch]. now rewrite rmatch_lit, H.
Qed.

Lemma startswith_self (p r : str) : PyStr.startswith p (p ++ r) = true.
Proof. apply startswith_iff. now exists r. Qed.

Lemma skipn_self (A : Type) (p r : list A) : skipn (List.length p) (p ++ r) = r.
Proof. now rewrite skipn_app, skipn_all, Nat.sub_diag. Qed.

Lemma forallb_dot (a : str) : forallb (fun _ : N => true) a = true.
Proof. induction a; simpl; auto. Qed.

(** The match at an opening word runs to the end of the first closing word
    behind the first [>]. *)
Lemma element_match (open close attrs body post : str) :
  PyStr.has_char chr_gt attrs = false ->
  PyStr.contains close body = false ->
  close <> [] ->
  PyStr.has_char (hd 0%N close) (tl close) = false ->
  let block := open ++ attrs ++ [chr_gt] ++ body ++ close in
  Re.match_here (element_re open close) false (block ++ post)
  = Some (List.length block).
Proof.
  intros Hattrs Hbody Hclose Hborder block.
  unfold Re.match_here, element_re. cbn [Re.Seq Re.rmatch].
  unfold block. rewrite <- !app_assoc.
  rewrite rmatch_lit, startswith_self, skipn_self.
  destruct close as [|c close']; [congruence|]. cbn [hd tl] in Hborder.
  set (s := open ++ attrs ++ [chr_gt] ++ body ++ (c :: close') ++ post).
  set (kf := fun rest : str =>
               if false && (List.length s - List.length rest =? 0)%nat
               then None
               else Some (List.length s - List.length rest)%nat).
  apply lazy_star_skip with (p := fun _ => true).
  - apply one_char_cls.
  - cbn [app]. rewrite N.eqb_refl.
    apply lazy_star_skip with (p := fun _ => true).
    + apply one_char_cls.
    + change (c :: close' ++ post) with ((c :: close') ++ post).
      rewrite rmatch_lit, startswith_self, skipn_self.
      unfold kf, s. cbn [andb]. f_equal.
      rewrite !length_app. cbn [List.length]. rewrite !length_app.
      cbn [List.length]. lia.
    + apply forallb_dot.
    + intros a1 a2 Ha Hne. rewrite rmatch_lit.
      rewrite (@no_straddle (c :: close') body c (close' ++ post) Hbody Hborder a1 a2 Ha);
        [reflexivity|].
      intros ->. contradiction.
    + lia.
  - apply forallb_dot.
  - intros a1 a2 Ha Hne. destruct a2 as [|d a2]; [congruence|].
    cbn [app].
    assert (Hd : N.eqb d chr_gt = false).
    { apply N.eqb_neq. intros ->. apply has_char_false in Hattrs.
      apply Hattrs. rewrite Ha. apply in_or_app. right. now left. }
    now rewrite Hd.
  - lia.
Qed.

Lemma contains_glue (p pre post : str) (x : N) :
  PyStr.contains p pre = false ->
  PyStr.contains p post = false ->
  PyStr.has_char x p = false ->
  PyStr.contains p (pre ++ x :: post) = false.
Proof.
  intros Hpre Hpost Hx. apply contains_false. intros s1 s2 E.
  assert (Hhead : PyStr.startswith p (x :: post) = false).
  { destruct p as [|c p]; [destruct pre; discriminate Hpre|].
    cbn [PyStr.startswith].
    destruct (N.eqb_spec c x) as [->|]; [|reflexivity].
    unfold PyStr.has_char in Hx. cbn [existsb] in Hx.
    now rewrite N.eqb_refl in Hx. }
  assert (Htl : PyStr.has_char x (tl p) = false).
  { destruct p as [|c p]; [reflexivity|].
    unfold PyStr.has_char in *. cbn [existsb tl] in *.
    now apply orb_false_iff in Hx as [_ Hx]. }
  symmetry in E. apply app_eq_app in E as [l [[-> E]|[-> ->]]].
  - destruct l as [|y l]; simpl in E.
    + now subst s2.
    + inversion E; subst. apply (proj1 (contains_false p _) Hpost l s2 eq_refl).
  - apply (@no_straddle p (s1 ++ l) x post Hpre Htl s1 l eq_refl).
    intros _. exact Hhead.
Qed.

(** One block with nothing like its opening word before it is replaced
    by one space, the same result as when the space stood there. *)
Lemma element_sub (open close pre attrs body post : str) :
  PyStr.has_char (hd 0%N open) (tl open) = false ->
  PyStr.has_char chr_space open = false ->
  PyStr.contains open pre = false ->
  PyStr.has_char chr_gt attrs = false ->
  PyStr.contains close body = false ->
  close <> [] ->
  PyStr.has_char (hd 0%N close) (tl close) = false ->
  Re.sub (element_re open close) [chr_space]
         (pre ++ (open ++ attrs ++ [chr_gt] ++ body ++ close) ++ post)
  = Re.sub (element_re open close) [chr_space] (pre ++ [chr_space] ++ post).
Proof.
  intros Hopen Hsp Hpre Hattrs Hbody Hclose Hborder.
  assert (Hne : open <> []) by (intros ->; destruct pre; discriminate Hpre).
  unfold Re.sub, Re.sub_with.
  rewrite sub_loop_copy.
  - rewrite sub_loop_hit.
    + rewrite (app_assoc pre [chr_space] post), sub_loop_copy.
      * destruct (Re.sub_loop _ _ 0 post); simpl; [|reflexivity].
        now rewrite <- app_assoc.
      * intros a1 a2 E Hne2.
        destruct (exists_last Hne2) as (a2' & y & ->).
        rewrite app_assoc in E. apply app_inj_tail in E as [E <-].
        apply element_no_match. rewrite <- app_assoc. cbn [app].
        apply (@no_straddle open pre chr_space post Hpre) with (a1 := a1);
          [|exact E|].
        -- destruct open as [|o open']; [congruence|].
           unfold PyStr.has_char in *. cbn [existsb tl] in *.
           now apply orb_false_iff in Hsp as [_ Hsp].
        -- intros _. destruct open as [|o open']; [congruence|].
           unfold PyStr.has_char in Hsp. cbn [existsb] in Hsp.
           apply orb_false_iff in Hsp as [Ho _].
           cbn [PyStr.startswith]. rewrite N.eqb_sym in Ho. now rewrite Ho.
    + destruct open; [congruence|discriminate].
    + now apply element_match.
  - intros a1 a2 E Hne2. apply element_no_match.
    destruct open as [|o open']; [congruence|].
    rewrite <- !app_assoc. cbn [app hd tl] in *.
    apply (@no_straddle (o :: open') pre o _ Hpre Hopen a1 a2 E).
    intros ->. contradiction.
Qed.

Lemma element_sub_unchanged (open close t s : str) :
  PyStr.contains open s = false ->
  Re.sub (element_re open close) t s = Ok s.
Proof.
  intros H. apply sub_with_unchanged. intros s1 s2 E.
  apply element_no_match. apply (proj1 (contains_false open s) H s1 s2 E).
Qed.

(** C7, counterexample. An upper-case script block is not removed: its
    tags are stripped later, its content stays. *)
Lemma upper_case_script_is_kept :
  Html._html_to_text (u "a<SCRIPT>evil()</SCRIPT>b") = Ok (u "aevil()b")
  /\ Html._html_to_text (u "a b") = Ok (u "a b")
  /\ ~ blocks_removed_in_any_case.
Proof.
  split; [vm_compute; reflexivity|]. split; [vm_compute; reflexivity|].
  intros H.
  specialize (H (u "SCRIPT") (u "a") [] (u "evil()") (u "b")).
  vm_compute in H.
  assert (E : Ok (u "aevil()b") = Ok (u "a b")).
  { apply H; try reflexivity. now left. discriminate. }
  vm_compute in E. discriminate.
Qed.

(** C7, amended. [_html_to_text] removes a block that opens with the
    lower-case word [<script] or [<style], runs over the first [>] and ends
    with the first lower-case closing tag behind it, content and line
    breaks included, before any other step: the result is that of the
    input with one space in place of the block. Tag names in another
    letter case are not matched. For a style block the script step must
    find nothing to remove. *)
Theorem script_and_style_blocks_removed (name pre attrs body post : str) :
  name = u "script" \/ name = u "style" ->
  let open := u "<" ++ name in
  let close := u "</" ++ name ++ u ">" in
  let html := pre ++ open ++ attrs ++ u ">" ++ body ++ close ++ post in
  PyStr.contains open pre = false ->
  PyStr.has_char chr_gt attrs = false ->
  PyStr.contains close body = false ->
  (name = u "style" -> PyStr.contains (u "<script") html = false) ->
  Html._html_to_text html = Html._html_to_text (pre ++ u " " ++ post).
Proof.
  intros Hname open close html Hpre Hattrs Hbody Hstyle.
  assert (E : Re.sub (element_re open close) (u " ") html
              = Re.sub (element_re open close) (u " ") (pre ++ u " " ++ post)).
  { replace html with (pre ++ (open ++ attrs ++ [chr_gt] ++ body ++ close) ++ post)
      by (unfold html; now rewrite <- !app_assoc).
    destruct Hname as [-> | ->];
      apply element_sub; try assumption; try reflexivity; discriminate. }
  unfold Html._html_to_text.
  destruct Hname as [-> | ->].
  - change Html.script_re with (element_re open close). now rewrite E.
  - specialize (Hstyle eq_refl).
    assert (Hs1 : PyStr.contains (u "<script") pre = false)
      by (apply (contains_app_false _ _ _ Hstyle)).
    assert (Hs2 : PyStr.contains (u "<script") post = false).
    { unfold html in Hstyle. rewrite !app_assoc in Hstyle.
      apply (contains_app_false _ _ _ Hstyle). }
    rewrite script_re_element, !element_sub_unchanged;
      [|apply contains_glue; [assumption|assumption|reflexivity]|exact Hstyle].
    cbn [bind]. change Html.style_re with (element_re open close).
    now rewrite E.
Qed.

Lemma script_and_style_blocks_removed_witness :
  Html._html_to_text
    (u "Hi " ++ (u "<" ++ u "script") ++ u " type=x" ++ u ">"
       ++ [chr_nl; 97; 60; 98; 62; 38; 35; 54; 53; 59; chr_nl]%N
       ++ (u "</" ++ u "script" ++ u ">") ++ u "<p>bye</p>")
  = Html._html_to_text (u "Hi " ++ u " " ++ u "<p>bye</p>").
Proof.
  apply (@script_and_style_blocks_removed
           (u "script") (u "Hi ") (u " type=x")
           [chr_nl; 97; 60; 98; 62; 38; 35; 54; 53; 59; chr_nl]%N
           (u "<p>bye</p>")).
  - left. reflexivity.
  - reflexivity.
  - reflexivity.
  - reflexivity.
  - discriminate.
Defined.

Example style_block_removed :
  Html._html_to_text (u "<style type=x>p { color: red }</style><p>Dear  all</p>")
  = Ok (u "Dear all").
Proof. vm_compute. reflexivity. Qed.

(** ** Collapsing runs of characters *)

Lemma span_run (p : N -> bool) (s : str) :
  exists run rest, s = run ++ rest /\ forallb p run = true /\ ends_run p rest.
Proof.
  induction s as [|c s (run & rest & -> & Hrun & Hrest)].
  - exists [], []. simpl. auto.
  - destruct (p c) eqn:Hc.
    + exists (c :: run), rest. simpl. rewrite Hc. auto.
    + exists [], (c :: run ++ rest). simpl. auto.
Qed.

Lemma collapse_run (p : N -> bool) (c0 : N) (run rest : str) :
  forallb p run = true -> ends_run p rest ->
  collapse p c0 true (run ++ rest) = collapse p c0 false rest.
Proof.
  intros Hrun Hrest. induction run as [|c run IH]; simpl in *.
  - destruct rest as [|d rest]; [reflexivity|]. simpl in *. now rewrite Hrest.
  - apply andb_true_iff in Hrun as [Hc Hrun]. rewrite Hc. now apply IH.
Qed.

Section PlusOfOneChar.

Variable item : Re.regex.
Variable p : N -> bool.
Hypothesis item_one_char : forall A : Type, one_char (Re.rmatch (A := A) item) p.

Lemma plus_no_match (must_advance : bool) (s : str) :
  ends_run p s -> Re.match_here (Re.Plus item) must_advance s = None.
Proof.
  intros Hs. unfold Re.match_here, Re.Plus. cbn [Re.rmatch].
  rewrite item_one_char. destruct s as [|c s]; [reflexivity|].
  simpl in Hs. now rewrite Hs.
Qed.

Lemma plus_match_run (c : N) (run rest : str) :
  p c = true -> forallb p run = true -> ends_run p rest ->
  Re.match_here (Re.Plus item) false ((c :: run) ++ rest)
  = Some (List.length (c :: run)).
Proof.
  intros Hc Hrun Hrest. unfold Re.match_here, Re.Plus. cbn [Re.rmatch].
  rewrite item_one_char. cbn [app]. rewrite Hc.
  apply greedy_star_run with (p := p); auto.
  cbn [andb List.length]. f_equal. rewrite length_app. lia.
Qed.

Lemma sub_plus_collapse_bounded (c0 : N) :
  forall n s,
    (List.length s <= n)%nat ->
    Re.sub_loop (Re.Plus item) (fun _ => Ok [c0]) 0 s
    = Ok (collapse p c0 false s).
Proof.
  induction n as [|n IH]; intros s Hlen.
  - destruct s; [|simpl in Hlen; lia].
    apply sub_loop_end. now apply plus_no_match.
  - destruct s as [|c s]; [apply sub_loop_end; now apply plus_no_match|].
    simpl in Hlen. destruct (p c) eqn:Hc.
    + destruct (span_run p s) as (run & rest & -> & Hrun & Hrest).
      change (c :: run ++ rest) with ((c :: run) ++ rest).
      rewrite sub_loop_hit; [|discriminate|now apply plus_match_run].
      cbn [bind]. rewrite IH by (rewrite length_app in Hlen; lia).
      cbn [bind app collapse]. rewrite Hc.
      now rewrite collapse_run.
    + change (c :: s) with ([c] ++ s). rewrite sub_loop_copy.
      * rewrite IH by lia. cbn [bind app collapse]. now rewrite Hc.
      * intros a1 a2 E Hne. destruct a1 as [|x a1].
        -- simpl in E. subst a2. apply plus_no_match. exact Hc.
        -- inversion E as [[Hx Ha]]. destruct a1; [|discriminate].
           simpl in Ha. congruence.
Qed.

(** [re.sub(x+, c0, s)] *)
Lemma sub_plus_collapse (c0 : N) (s : str) :
  Re.sub (Re.Plus item) [c0] s = Ok (collapse p c0 false s).
Proof.
  unfold Re.sub, Re.sub_with. now apply sub_plus_collapse_bounded with (n := List.length s).
Qed.

End PlusOfOneChar.

Lemma sub_newlines (s : str) :
  Re.sub Html.newlines_re [chr_nl] s = Ok (collapse is_newline chr_nl false s).
Proof.
  apply sub_plus_collapse. intros A. apply one_char_chr.
Qed.

Lemma sub_spaces (s : str) :
  Re.sub Html.spaces_re (u " ") s = Ok (collapse PyStr.is_space chr_space false s).
Proof.
  apply (@sub_plus_collapse (Re.Cls PyStr.is_space) PyStr.is_space).
  intros A. apply one_char_cls.
Qed.

Lemma clean_whitespace_eq (s : str) :
  Html.clean_whitespace s
  = Ok (PyStr.strip (collapse PyStr.is_space chr_space false s)).
Proof.
  unfold Html.clean_whitespace. now rewrite sub_spaces.
Qed.

(** ** Normalized white space *)

Lemma collapse_single_spaced (s : str) :
  forall flag, single_spaced flag (collapse PyStr.is_space chr_space flag s) = true.
Proof.
  induction s as [|c s IH]; intros flag; simpl; [reflexivity|].
  destruct (PyStr.is_space c) eqn:Hc.
  - destruct flag; [apply IH|].
    cbn [single_spaced]. change (PyStr.is_space chr_space) with true.
    cbn. apply IH.
  - cbn [single_spaced]. rewrite Hc. apply IH.
Qed.

Lemma single_spaced_collapse (t : str) :
  forall flag,
    single_spaced flag t = true ->
    collapse PyStr.is_space chr_space flag t = t.
Proof.
  induction t as [|c t IH]; intros flag H; simpl in *; [reflexivity|].
  destruct (PyStr.is_space c).
  - apply andb_true_iff in H as [H Ht]. apply andb_true_iff in H as [Hc Hf].
    apply N.eqb_eq in Hc. subst c. destruct flag; [discriminate|].
    now rewrite IH.
  - now rewrite IH.
Qed.

Lemma single_spaced_weaken (t : str) (flag : bool) :
  single_spaced flag t = true -> single_spaced false t = true.
Proof.
  destruct t as [|c t]; [reflexivity|]. simpl.
  destruct (PyStr.is_space c); [|auto].
  intros H. apply andb_true_iff in H as [H Ht]. apply andb_true_iff in H as [Hc _].
  now rewrite Hc, Ht.
Qed.

Lemma single_spaced_suffix (w t : str) :
  forall flag, single_spaced flag (w ++ t) = true -> single_spaced false t = true.
Proof.
  induction w as [|c w IH]; intros flag H.
  - now apply single_spaced_weaken with (flag := flag).
  - simpl in H. destruct (PyStr.is_space c).
    + apply andb_true_iff in H as [_ H]. now apply IH in H.
    + now apply IH in H.
Qed.

Lemma single_spaced_prefix (t w : str) :
  forall flag, single_spaced flag (t ++ w) = true -> single_spaced flag t = true.
Proof.
  induction t as [|c t IH]; intros flag H; [reflexivity|].
  simpl in *. destruct (PyStr.is_space c).
  - apply andb_true_iff in H as [H Ht]. rewrite H. now apply IH in Ht.
  - now apply IH in H.
Qed.

Lemma single_spaced_no_newline (t : str) :
  forall flag,
    single_spaced flag t = true ->
    collapse is_newline chr_nl false t = t.
Proof.
  induction t as [|c t IH]; intros flag H; simpl in *; [reflexivity|].
  destruct (PyStr.is_space c) eqn:Hc.
  - apply andb_true_iff in H as [H Ht]. apply andb_true_iff in H as [Hsp _].
    apply N.eqb_eq in Hsp. subst c. cbn. f_equal. now apply IH with (flag := true).
  - assert (Hn : is_newline c = false).
    { unfold is_newline. destruct (N.eqb_spec c chr_nl) as [->|]; [|reflexivity].
      discriminate Hc. }
    rewrite Hn. f_equal. now apply IH with (flag := false).
Qed.

Lemma single_spaced_no_run (t : str) :
  forall flag, single_spaced flag t = true -> no_whitespace_run t.
Proof.
  unfold no_whitespace_run.
  induction t as [|c t IH]; intros flag H a x y r E Hx.
  - destruct a; discriminate.
  - destruct a as [|d a]; simpl in E; inversion E; subst.
    + simpl in H. rewrite Hx in H.
      apply andb_true_iff in H as [_ H].
      destruct (PyStr.is_space y); [|reflexivity].
      simpl in H. now rewrite andb_false_r in H.
    + simpl in H. destruct (PyStr.is_space d).
      * apply andb_true_iff in H as [_ H]. eapply IH; eauto.
      * eapply IH; eauto.
Qed.

(** ** Stripping *)

Lemma lstrip_split (s : str) :
  exists w, s = w ++ PyStr.lstrip s /\ forallb PyStr.is_space w = true.
Proof.
  induction s as [|c s (w & E & Hw)]; simpl.
  - now exists [].
  - destruct (PyStr.is_space c) eqn:Hc.
    + exists (c :: w). simpl. rewrite Hc. split; [now f_equal|exact Hw].
    + now exists [].
Qed.

Lemma lstrip_head (s c r : str) (x : N) :
  PyStr.lstrip s = x :: r -> PyStr.is_space x = false.
Proof.
  induction s as [|d s IH]; simpl; [discriminate|].
  destruct (PyStr.is_space d) eqn:Hd; [exact IH|].
  intros E. inversion E. now subst.
Qed.

Lemma lstrip_fixed (t : str) :
  match t with [] => True | c :: _ => PyStr.is_space c = false end ->
  PyStr.lstrip t = t.
Proof.
  destruct t as [|c t]; [reflexivity|]. simpl. now intros ->.
Qed.

Lemma lstrip_idem (s : str) : PyStr.lstrip (PyStr.lstrip s) = PyStr.lstrip s.
Proof.
  apply lstrip_fixed. destruct (PyStr.lstrip s) as [|x r] eqn:E; [exact I|].
  now apply (@lstrip_head s [] r x).
Qed.

Lemma rstrip_split (s : str) :
  exists w, s = PyStr.rstrip s ++ w /\ forallb PyStr.is_space w = true.
Proof.
  unfold PyStr.rstrip.
  destruct (lstrip_split (rev s)) as (w & E & Hw).
  exists (rev w). split.
  - rewrite <- rev_app_distr, <- E. now rewrite rev_involutive.
  - rewrite forallb_forall in *. intros x Hx. apply Hw. now apply in_rev.
Qed.

Lemma rstrip_idem (s : str) : PyStr.rstrip (PyStr.rstrip s) = PyStr.rstrip s.
Proof.
  unfold PyStr.rstrip. now rewrite rev_involutive, lstrip_idem.
Qed.

Lemma rstrip_last (s a : str) (x : N) :
  PyStr.rstrip s = a ++ [x] -> PyStr.is_space x = false.
Proof.
  unfold PyStr.rstrip. intros E.
  apply (f_equal (@rev N)) in E. rewrite rev_involutive, rev_app_distr in E.
  simpl in E. now apply (@lstrip_head (rev s) [] (rev a) x).
Qed.

(** Stripping the right end keeps a left end that is already stripped. *)
Lemma rstrip_keeps_head (t : str) :
  PyStr.lstrip t = t -> PyStr.lstrip (PyStr.rstrip t) = PyStr.rstrip t.
Proof.
  intros Ht. apply lstrip_fixed.
  destruct (rstrip_split t) as (w & E & _).
  destruct (PyStr.rstrip t) as [|c r]; [exact I|].
  rewrite E in Ht. simpl in Ht.
  destruct (PyStr.is_space c) eqn:Hc; [|reflexivity].
  exfalso.
  destruct (lstrip_split (r ++ w)) as (w' & E' & _).
  assert (Hlen : List.length (PyStr.lstrip (r ++ w)) = S (List.length (r ++ w)))
    by now rewrite Ht.
  assert (Hle : (List.length (PyStr.lstrip (r ++ w)) <= List.length (r ++ w))%nat)
    by (rewrite E' at 2; rewrite length_app; lia).
  lia.
Qed.

Lemma strip_normal (s : str) :
  single_spaced false s = true -> normal (PyStr.strip s).
Proof.
  intros H. unfold normal, PyStr.strip.
  destruct (lstrip_split s) as (w & E & _).
  destruct (rstrip_split (PyStr.lstrip s)) as (w' & E' & _).
  split; [|split].
  - rewrite E in H. apply single_spaced_suffix in H.
    rewrite E' in H. now apply single_spaced_prefix in H.
  - apply rstrip_keeps_head, lstrip_idem.
  - apply rstrip_idem.
Qed.

Lemma normal_strip (t : str) : normal t -> PyStr.strip t = t.
Proof.
  intros (_ & Hl & Hr). unfold PyStr.strip. now rewrite Hl, Hr.
Qed.

Lemma normal_trimmed (t : str) : normal t -> trimmed t.
Proof.
  intros (_ & Hl & Hr). split.
  - intros c r ->. now apply (@lstrip_head (c :: r) [] r c).
  - intros a c ->. now apply (@rstrip_last (a ++ [c]) a c).
Qed.

(** Normal strings are fixed by the three last steps of [_html_to_text]. *)
Lemma normal_fixed (t : str) :
  normal t ->
  PyStr.strip (collapse PyStr.is_space chr_space false
                        (collapse is_newline chr_nl false t)) = t.
Proof.
  intros Hn. destruct Hn as (Hs & Hl & Hr).
  rewrite (single_spaced_no_newline _ _ Hs), (single_spaced_collapse _ _ Hs).
  apply normal_strip. now repeat split.
Qed.

(** ** Edits of white space only *)

Lemma ws_edit_refl (s : str) : ws_edit s s.
Proof. induction s; auto. Qed.

Lemma ws_edit_collapse (p : N -> bool) (c0 : N) (s : str) :
  (forall c, p c = true -> PyStr.is_space c = true) ->
  PyStr.is_space c0 = true ->
  forall flag, ws_edit s (collapse p c0 flag s).
Proof.
  intros Hp Hc0. induction s as [|c s IH]; intros flag; simpl; [auto|].
  destruct (p c) eqn:Hc; [|auto].
  destruct flag; auto.
Qed.

Lemma ws_edit_drop_front (w t : str) :
  forallb PyStr.is_space w = true -> ws_edit (w ++ t) t.
Proof.
  induction w as [|c w IH]; simpl; intros H; [apply ws_edit_refl|].
  apply andb_true_iff in H as [Hc Hw]. auto.
Qed.

Lemma ws_edit_drop_back (t w : str) :
  forallb PyStr.is_space w = true -> ws_edit (t ++ w) t.
Proof.
  intros H. induction t as [|c t IH]; simpl; [|auto].
  rewrite <- (app_nil_r w). now apply ws_edit_drop_front.
Qed.

Lemma ws_edit_in (s t : str) (c : N) :
  ws_edit s t -> PyStr.is_space c = false -> In c t -> In c s.
Proof.
  intros H Hc. induction H; simpl; intros Hin; auto.
  - destruct Hin; auto.
  - destruct Hin as [<-|Hin]; [congruence|auto].
Qed.

Lemma ws_edit_has_char (s t : str) (c : N) :
  ws_edit s t -> PyStr.is_space c = false ->
  PyStr.has_char c s = false -> PyStr.has_char c t = false.
Proof.
  intros H Hc Hs. apply has_char_false. intros Hin.
  apply has_char_false in Hs. apply Hs. eapply ws_edit_in; eauto.
Qed.

(** The edits made by the last steps of the converters. *)
Lemma ws_edit_strip (s : str) : ws_edit s (PyStr.strip s).
Proof.
  unfold PyStr.strip.
  destruct (lstrip_split s) as (w & E & Hw).
  destruct (rstrip_split (PyStr.lstrip s)) as (w' & E' & Hw').
  rewrite E at 1. rewrite E' at 1.
  clear E E'. induction w as [|c w IH]; simpl.
  - now apply ws_edit_drop_back.
  - simpl in Hw. apply andb_true_iff in Hw as [Hc Hw]. auto.
Qed.

Lemma has_char_through_steps (c : N) (s : str) :
  PyStr.is_space c = false ->
  PyStr.has_char c s = false ->
  PyStr.has_char c
    (PyStr.strip (collapse PyStr.is_space chr_space false
                           (collapse is_newline chr_nl false s))) = false.
Proof.
  intros Hc Hs.
  eapply ws_edit_has_char; [apply ws_edit_strip|exact Hc|].
  eapply ws_edit_has_char; [apply ws_edit_collapse; auto|exact Hc|].
  eapply ws_edit_has_char; [apply ws_edit_collapse|exact Hc|exact Hs].
  - intros x Hx. unfold is_newline in Hx. apply N.eqb_eq in Hx. now subst.
  - reflexivity.
Qed.

(** ** Patterns that start with a fixed character *)

Lemma first_char_fails (A : Type) (c : N) (r : Re.regex) :
  first_char_is c r = true ->
  forall (s : str) (k : Re.cont A),
    match s with [] => True | x :: _ => x <> c end ->
    Re.rmatch r s k = None.
Proof.
  induction r; simpl; try discriminate; intros H s k Hs.
  - apply N.eqb_eq in H. subst c0. destruct s as [|x s]; [reflexivity|].
    now rewrite (proj2 (N.eqb_neq x c) Hs).
  - now apply IHr1.
Qed.

Lemma sub_first_char_absent (c : N) (r : Re.regex) (repl : str -> Result str)
      (s : str) :
  first_char_is c r = true ->
  PyStr.has_char c s = false ->
  Re.sub_with r repl s = Ok s.
Proof.
  intros Hr Hs. apply sub_with_unchanged. intros s1 s2 ->.
  unfold Re.match_here. apply first_char_fails with (c := c); [exact Hr|].
  destruct s2 as [|x s2]; [exact I|].
  intros ->. apply has_char_false in Hs. apply Hs.
  apply in_or_app. right. now left.
Qed.

Lemma sub_absent (c : N) (r : Re.regex) (t s : str) :
  first_char_is c r = true ->
  PyStr.has_char c s = false ->
  Re.sub r t s = Ok s.
Proof. apply sub_first_char_absent. Qed.

Lemma replace_absent (c : N) (old new s : str) :
  PyStr.has_char c s = false ->
  PyStr.replace (c :: old) new s = s.
Proof.
  unfold PyStr.replace. induction s as [|d s IH]; intros H; [reflexivity|].
  unfold PyStr.has_char in H. cbn [existsb] in H.
  apply orb_false_iff in H as [Hd Hs].
  cbn [PyStr.replace_loop PyStr.startswith]. rewrite Hd. cbn [andb].
  f_equal. now apply IH.
Qed.

Lemma replace_entities_absent (s : str) :
  PyStr.has_char chr_amp s = false -> Html.replace_entities s = s.
Proof.
  intros H. unfold Html.replace_entities.
  assert (Hall : Forall (fun e => exists old, fst e = chr_amp :: old) Html.entities).
  { unfold Html.entities. repeat constructor; eexists; reflexivity. }
  generalize dependent Html.entities. intros l Hall.
  induction Hall as [|e l [old He] _ IH]; cbn [fold_left]; [reflexivity|].
  destruct e as [o n]. cbn [fst snd] in *. subst o.
  rewrite replace_absent by exact H. exact IH.
Qed.

(** On a string without [<] and [&] only the last three steps of
    [_html_to_text] act. *)
Lemma html_to_text_plain (s : str) :
  PyStr.has_char chr_lt s = false ->
  PyStr.has_char chr_amp s = false ->
  Html._html_to_text s
  = Ok (PyStr.strip (collapse PyStr.is_space chr_space false
                              (collapse is_newline chr_nl false s))).
Proof.
  intros Hlt Hamp. unfold Html._html_to_text.
  rewrite (@sub_absent chr_lt Html.script_re) by (reflexivity || exact Hlt).
  cbn [bind].
  rewrite (@sub_absent chr_lt Html.style_re) by (reflexivity || exact Hlt).
  cbn [bind].
  rewrite (@sub_absent chr_lt Html.block_re) by (reflexivity || exact Hlt).
  cbn [bind].
  rewrite replace_entities_absent by exact Hamp.
  rewrite (@sub_first_char_absent chr_amp Html.numeric_re) by (reflexivity || exact Hamp).
  cbn [bind].
  rewrite (@sub_absent chr_lt Html.tag_re) by (reflexivity || exact Hlt).
  cbn [bind].
  rewrite sub_newlines. cbn [bind].
  rewrite sub_spaces. reflexivity.
Qed.

(** ** Idempotence on plain text *)

(** C8. For a string without [<] and without [&], [_html_to_text] returns
    a string, and applying it to that string returns it again. *)
Theorem html_to_text_idempotent (s : str) :
  PyStr.has_char chr_lt s = false ->
  PyStr.has_char chr_amp s = false ->
  exists t,
    Html._html_to_text s = Ok t
    /\ (t' <- Html._html_to_text s ;; Html._html_to_text t') = Ok t.
Proof.
  intros Hlt Hamp.
  set (t := PyStr.strip (collapse PyStr.is_space chr_space false
                                  (collapse is_newline chr_nl false s))).
  exists t. rewrite (html_to_text_plain _ Hlt Hamp). fold t.
  split; [reflexivity|]. cbn [bind].
  rewrite html_to_text_plain.
  - f_equal. apply normal_fixed. apply strip_normal, collapse_single_spaced.
  - now apply has_char_through_steps.
  - now apply has_char_through_steps.
Qed.

Lemma html_to_text_idempotent_witness :
  exists t,
    Html._html_to_text (u "  Dear   candidate, " ++ [chr_nl; chr_nl; 9]%N ++ u "welcome ") = Ok t
    /\ (t' <- Html._html_to_text (u "  Dear   candidate, " ++ [chr_nl; chr_nl; 9]%N ++ u "welcome ") ;;
        Html._html_to_text t') = Ok t.
Proof.
  apply (@html_to_text_idempotent
           (u "  Dear   candidate, " ++ [chr_nl; chr_nl; 9]%N ++ u "welcome ")).
  - reflexivity.
  - reflexivity.
Defined.

Example html_to_text_twice :
  Html._html_to_text (u "  Dear   candidate, " ++ [chr_nl; chr_nl; 9]%N ++ u "welcome ")
  = Ok (u "Dear candidate, welcome")
  /\ Html._html_to_text (u "Dear candidate, welcome") = Ok (u "Dear candidate, welcome").
Proof. split; vm_compute; reflexivity. Qed.

(** ** Tags *)

Lemma ws_edit_tag_free (s t : str) :
  ws_edit s t -> tag_free s = true -> tag_free t = true.
Proof.
  induction 1 as [|c s t H IH|c s t Hc H IH|c c' s t Hc Hc' H IH];
    cbn [tag_free]; intros Hs.
  - reflexivity.
  - apply andb_true_iff in Hs as [Hhead Hs]. rewrite (IH Hs), andb_true_r.
    destruct (N.eqb c chr_lt); [|reflexivity].
    apply negb_true_iff in Hhead. apply negb_true_iff.
    now apply ws_edit_has_char with (s := s).
  - apply andb_true_iff in Hs as [_ Hs]. auto.
  - apply andb_true_iff in Hs as [_ Hs]. rewrite (IH Hs), andb_true_r.
    destruct (N.eqb_spec c' chr_lt) as [->|]; [discriminate Hc'|reflexivity].
Qed.

Lemma first_occurrence (c : N) (s : str) :
  PyStr.has_char c s = true ->
  exists a rest, s = a ++ c :: rest /\ PyStr.has_char c a = false.
Proof.
  unfold PyStr.has_char.
  induction s as [|d s IH]; cbn [existsb]; [discriminate|].
  destruct (N.eqb_spec c d) as [->|Hne]; intros H.
  - now exists [], s.
  - destruct (IH H) as (a & rest & -> & Ha).
    exists (d :: a), rest. split; [reflexivity|].
    cbn [existsb]. rewrite Ha. now rewrite (proj2 (N.eqb_neq c d) Hne).
Qed.

(** A replacement by the empty string only deletes. *)
Lemma sub_empty_deletes (r : Re.regex) (s : str) :
  forall skip t c,
    Re.sub_loop r (fun _ => Ok []) skip s = Ok t -> In c t -> In c s.
Proof.
  induction s as [|d s IH]; intros skip t c H Hin; simpl in H.
  - destruct skip; destruct (Re.match_here r false []);
      inversion H; subst; contradiction.
  - destruct skip as [|n]; [|right; eapply IH; eauto].
    destruct (Re.match_here r false (d :: s)) as [[|n]|].
    + destruct (Re.match_here r true (d :: s)) as [[|n]|]; cbn [bind app] in H.
      * destruct (Re.sub_loop r _ 0 s) eqn:E; inversion H; subst.
        destruct Hin as [<-|Hin]; [now left|right; eapply IH; eauto].
      * destruct (Re.sub_loop r _ n s) eqn:E; inversion H; subst.
        right; eapply IH; eauto.
      * destruct (Re.sub_loop r _ 0 s) eqn:E; inversion H; subst.
        destruct Hin as [<-|Hin]; [now left|right; eapply IH; eauto].
    + cbn [bind app] in H.
      destruct (Re.sub_loop r _ n s) eqn:E; inversion H; subst.
      right; eapply IH; eauto.
    + destruct (Re.sub_loop r _ 0 s) eqn:E; inversion H; subst.
      destruct Hin as [<-|Hin]; [now left|right; eapply IH; eauto].
Qed.

Lemma tag_match (a rest : str) :
  PyStr.has_char chr_gt a = false ->
  Re.match_here Html.tag_re false ((chr_lt :: a ++ [chr_gt]) ++ rest)
  = Some (List.length (chr_lt :: a ++ [chr_gt])).
Proof.
  intros Ha. unfold Re.match_here, Html.tag_re. cbn [Re.Seq Re.rmatch app].
  rewrite N.eqb_refl. rewrite <- app_assoc.
  apply lazy_star_skip with (p := fun x => negb (N.eqb x chr_gt)).
  - apply one_char_cls.
  - cbn [app]. rewrite N.eqb_refl. cbn [andb List.length]. f_equal.
    rewrite !length_app. cbn [List.length]. lia.
  - apply forallb_forall. intros x Hx. apply negb_true_iff, N.eqb_neq.
    intros ->. apply has_char_false in Ha. contradiction.
  - intros a1 a2 E Hne. destruct a2 as [|d a2]; [congruence|]. cbn [app].
    assert (Hd : N.eqb d chr_gt = false).
    { apply N.eqb_neq. intros ->. apply has_char_false in Ha. apply Ha.
      rewrite E. apply in_or_app. right. now left. }
    now rewrite Hd.
  - lia.
Qed.

Lemma tag_no_match (s : str) :
  PyStr.has_char chr_gt s = false ->
  Re.match_here Html.tag_re false (chr_lt :: s) = None.
Proof.
  intros Hs. unfold Re.match_here, Html.tag_re. cbn [Re.Seq Re.rmatch].
  rewrite N.eqb_refl.
  apply lazy_star_none with (p := fun x => negb (N.eqb x chr_gt));
    [apply one_char_cls|].
  intros s1 s2 ->. destruct s2 as [|d s2]; [reflexivity|].
  assert (Hd : N.eqb d chr_gt = false).
  { apply N.eqb_neq. intros ->. apply has_char_false in Hs. apply Hs.
    apply in_or_app. right. now left. }
  now rewrite Hd.
Qed.

(** The step that strips the tags leaves none. *)
Lemma sub_tag_free_bounded :
  forall n s,
    (List.length s <= n)%nat ->
    exists t, Re.sub Html.tag_re [] s = Ok t /\ tag_free t = true.
Proof.
  unfold Re.sub, Re.sub_with.
  induction n as [|n IH]; intros s Hlen.
  - destruct s; [|simpl in Hlen; lia]. exists []. split; reflexivity.
  - destruct s as [|c s]; [exists []; split; reflexivity|].
    simpl in Hlen.
    destruct (N.eqb_spec c chr_lt) as [->|Hc].
    + destruct (PyStr.has_char chr_gt s) eqn:Hgt.
      * destruct (first_occurrence _ _ Hgt) as (a & rest & -> & Ha).
        destruct (IH rest) as (t & Et & Ht).
        { rewrite length_app in Hlen. simpl in Hlen. lia. }
        exists t. split; [|exact Ht].
        replace (chr_lt :: a ++ chr_gt :: rest)
          with ((chr_lt :: a ++ [chr_gt]) ++ rest)
          by (simpl; now rewrite <- app_assoc).
        rewrite sub_loop_hit; [|discriminate|now apply tag_match].
        cbn [bind]. now rewrite Et.
      * destruct (IH s) as (t & Et & Ht); [lia|].
        exists (chr_lt :: t). split.
        -- change (chr_lt :: s) with ([chr_lt] ++ s). rewrite sub_loop_copy.
           ++ now rewrite Et.
           ++ intros a1 a2 E Hne. destruct a1 as [|x a1].
              ** simpl in E. subst a2. now apply tag_no_match.
              ** inversion E as [[Hx Ha]]. destruct a1; [|discriminate].
                 simpl in Ha. congruence.
        -- cbn [tag_free]. rewrite N.eqb_refl, Ht, andb_true_r.
           apply negb_true_iff, has_char_false. intros Hin.
           apply has_char_false in Hgt. apply Hgt.
           eapply sub_empty_deletes; eauto.
    + destruct (IH s) as (t & Et & Ht); [lia|].
      exists (c :: t). split.
      * change (c :: s) with ([c] ++ s). rewrite sub_loop_copy.
        -- now rewrite Et.
        -- intros a1 a2 E Hne. destruct a1 as [|x a1].
           ++ simpl in E. subst a2. unfold Re.match_here.
              now apply first_char_fails with (c := chr_lt).
           ++ inversion E as [[Hx Ha]]. destruct a1; [|discriminate].
              simpl in Ha. congruence.
      * cbn [tag_free]. now rewrite (proj2 (N.eqb_neq c chr_lt) Hc), Ht.
Qed.

Lemma sub_tag_free (s : str) :
  exists t, Re.sub Html.tag_re [] s = Ok t /\ tag_free t = true.
Proof. now apply sub_tag_free_bounded with (n := List.length s). Qed.

(** The last steps: the result is normal, and free of tags if the input
    was. *)
Lemma last_steps (s : str) :
  let t := PyStr.strip (collapse PyStr.is_space chr_space false s) in
  normal t /\ (tag_free s = true -> tag_free t = true).
Proof.
  intros t. split.
  - apply strip_normal, collapse_single_spaced.
  - intros Hs. unfold t.
    eapply ws_edit_tag_free; [apply ws_edit_strip|].
    eapply ws_edit_tag_free; [apply ws_edit_collapse; auto|exact Hs].
Qed.

(** What [_html_to_text] returns is normal and free of tags. *)
Lemma html_to_text_normal (s t : str) :
  Html._html_to_text s = Ok t -> normal t /\ tag_free t = true.
Proof.
  unfold Html._html_to_text. intros H.
  destruct (Re.sub Html.script_re (u " ") s) as [s1|]; [|discriminate].
  cbn [bind] in H.
  destruct (Re.sub Html.style_re (u " ") s1) as [s2|]; [|discriminate].
  cbn [bind] in H.
  destruct (Re.sub Html.block_re [chr_nl] s2) as [s3|]; [|discriminate].
  cbn [bind] in H.
  destruct (Re.sub_with Html.numeric_re Html.numeric_repl
                        (Html.replace_entities s3)) as [s5|]; [|discriminate].
  cbn [bind] in H.
  destruct (sub_tag_free s5) as (s6 & E6 & H6). rewrite E6 in H.
  cbn [bind] in H. rewrite sub_newlines in H. cbn [bind] in H.
  rewrite sub_spaces in H. cbn [bind] in H.
  inversion H; subst t. clear H.
  destruct (last_steps (collapse is_newline chr_nl false s6)) as [Hn Ht].
  split; [exact Hn|]. apply Ht.
  eapply ws_edit_tag_free; [apply ws_edit_collapse|exact H6].
  - intros x Hx. unfold is_newline in Hx. apply N.eqb_eq in Hx. now subst.
  - reflexivity.
Qed.

(** ** The content of a record *)

(** C2, counterexample. A text/plain payload is returned with the tags it
    contains. *)
Lemma plain_text_keeps_tags :
  fetch_emails ascii_lower (connected_to markup_server) None false None []
  = (Ok [ {| id := u "7"; subject := u "Re: offer"; from := u "hr@example.com";
             date := u "2024-01-02 03:04:05";
             content := u "Use <b>bold</b> text" |} ],
     [SELECT (u "INBOX"); SEARCH (u "ALL"); fetch_command (b "7")])
  /\ tag_free (u "Use <b>bold</b> text") = false
  /\ ~ content_is_always_flat.
Proof.
  split; [vm_compute; reflexivity|]. split; [vm_compute; reflexivity|].
  intros H.
  destruct (H ascii_lower (connected_to markup_server) None false None [] _ _
              eq_refl _ (or_introl eq_refl)) as [Htag _].
  vm_compute in Htag. discriminate.
Qed.

(** C2, amended. What [_get_email_content] returns has no run of more than
    one white-space character and no white space at its ends; when the
    plain-text buffer is empty, so that the content is converted HTML, it
    has no tag either. The content that the fallback of [fetch_emails]
    converts from HTML has the same three properties. A text/plain payload
    keeps its tags. *)
Theorem extracted_content_is_normalized
        (msg : Message) (plain_text_only : bool) (text : str) :
  _get_email_content msg plain_text_only = Ok text ->
  (no_whitespace_run text /\ trimmed text
   /\ (decoded_text (payloads_of_type (u "text/plain") msg) = [] ->
       tag_free text = true))
  /\ (let combined := PyStr.join (u " ") (all_parts msg) in
      PyStr.has_char chr_lt combined && PyStr.has_char chr_gt combined = true ->
      no_whitespace_run (fallback_content msg)
      /\ trimmed (fallback_content msg)
      /\ tag_free (fallback_content msg) = true).
Proof.
  intros H. split.
  - unfold _get_email_content in H. rewrite collect_buffers in H.
    set (plain := decoded_text (payloads_of_type (u "text/plain") msg)) in *.
    set (html := decoded_text (payloads_of_type (u "text/html") msg)) in *.
    destruct (negb (is_empty plain)) eqn:Ep.
    + cbn [bind] in H. rewrite clean_whitespace_eq in H. inversion H; subst text.
      destruct (last_steps plain) as [Hn _].
      split; [eapply single_spaced_no_run; apply Hn|].
      split; [now apply normal_trimmed|].
      intros Hplain. rewrite Hplain in Ep. discriminate.
    + assert (Hcontent : exists c, Html.clean_whitespace c = Ok text
                                   /\ tag_free c = true).
      { destruct (negb (is_empty html)).
        - destruct (Html._html_to_text html) as [c|] eqn:Ec; [|discriminate].
          exists c. split; [exact H|]. now apply html_to_text_normal in Ec.
        - exists []. split; [exact H|reflexivity]. }
      destruct Hcontent as (c & Hc & Htag).
      rewrite clean_whitespace_eq in Hc. inversion Hc; subst text.
      destruct (last_steps c) as [Hn Ht].
      split; [eapply single_spaced_no_run; apply Hn|].
      split; [now apply normal_trimmed|]. auto.
  - intros combined Hhtml. unfold fallback_content.
    destruct (all_parts msg) as [|part parts] eqn:Eparts.
    + repeat split; try reflexivity.
      * intros a x y r E. destruct a; discriminate.
      * intros c r E. discriminate.
      * intros a c E. destruct a; discriminate.
    + fold combined. rewrite Hhtml.
      destruct (Html._html_to_text combined) as [c|] eqn:Ec.
      * apply html_to_text_normal in Ec as [Hn Htag].
        split; [eapply single_spaced_no_run; apply Hn|].
        split; [now apply normal_trimmed|exact Htag].
      * repeat split; try reflexivity.
        -- intros a x y r E. destruct a; discriminate.
        -- intros c r E. discriminate.
        -- intros a c E. destruct a; discriminate.
Qed.

Lemma extracted_content_is_normalized_witness :
  (no_whitespace_run (u "We regret") /\ trimmed (u "We regret")
   /\ (decoded_text
         (payloads_of_type (u "text/plain")
            (Leaf (u "text/html") None (b "<p>We&nbsp; regret</p>"))) = [] ->
       tag_free (u "We regret") = true))
  /\ (let combined :=
        PyStr.join (u " ")
          (all_parts (Leaf (u "text/html") None (b "<p>We&nbsp; regret</p>"))) in
      PyStr.has_char chr_lt combined && PyStr.has_char chr_gt combined = true ->
      no_whitespace_run
        (fallback_content (Leaf (u "text/html") None (b "<p>We&nbsp; regret</p>")))
      /\ trimmed
           (fallback_content (Leaf (u "text/html") None (b "<p>We&nbsp; regret</p>")))
      /\ tag_free
           (fallback_content (Leaf (u "text/html") None (b "<p>We&nbsp; regret</p>")))
         = true).
Proof.
  apply (@extracted_content_is_normalized
           (Leaf (u "text/html") None (b "<p>We&nbsp; regret</p>")) false
           (u "We regret")).
  vm_compute. reflexivity.
Defined.

(** The fallback on a message whose only part has no text type. *)
Example fallback_converts_html :
  _get_email_content untyped_html_message false = Ok []
  /\ fallback_content untyped_html_message = u "Offer Dear you".
Proof. split; vm_compute; reflexivity. Qed.

(** The other branch of the fallback hands the payloads on as they are. *)
Example fallback_keeps_raw_text :
  fallback_content (Leaf (u "application/octet-stream") None (b "a  b "))
  = u "a  b ".
Proof. vm_compute. reflexivity. Qed.

(** * Further properties of the connector *)

(** ** The loop over the listing *)

Lemma subseq_length (A : Type) (l1 l2 : list A) :
  subseq l1 l2 -> (List.length l1 <= List.length l2)%nat.
Proof. induction 1; simpl; lia. Qed.

Lemma last_n_bound (A : Type) (k : Z) (l : list A) :
  (List.length (last_n k l) <= Z.to_nat k)%nat.
Proof. unfold last_n. rewrite length_skipn. lia. Qed.

Lemma fetch_loop_in_order (lower : str -> str) (h : Server) (pto : bool)
      (ex : list str) (ids : list bytes) :
  forall emails t out t',
    fetch_loop lower h pto ex ids emails t = (Ok out, t') ->
    exists kept new,
      out = emails ++ new
      /\ subseq kept ids
      /\ Forall2 (record_for h) kept new.
Proof.
  induction ids as [|email_id ids IH]; intros emails t out t' H; simpl in H.
  - unfold ret in H. inversion H; subst. exists [], [].
    rewrite app_nil_r. repeat split; constructor.
  - unfold iobind in H at 1.
    destruct (fetch_one lower h pto ex email_id t) as [[o|e] t1] eqn:E1;
      [|discriminate].
    apply IH in H as (kept & new & -> & Hsub & Hrec).
    destruct o as [r0|].
    + exists (email_id :: kept), (r0 :: new). rewrite <- app_assoc.
      split; [reflexivity|]. split; [now constructor|].
      constructor; [|exact Hrec].
      apply fetch_one_some in E1. now apply record_of_for in E1.
    + exists kept, new. split; [reflexivity|]. split; [now constructor|exact Hrec].
Qed.

(** X1. The records of a normal return follow the listing: they are the
    records of some of the processed identifiers, one each, in the order
    of the listing; so a positive limit bounds their number. *)
Theorem records_follow_the_listing
        (lower : str -> str) (self : Connector) (h : Server)
        (limit : option Z) (plain_text_only : bool)
        (exclude_senders : option (list str)) (message_ids : bytes)
        (t t' : list Command) (out : list EmailRecord) :
  imap self = Some h ->
  select_reply h = Ok (u "OK") ->
  search_reply h = Ok (u "OK", message_ids) ->
  fetch_emails lower self limit plain_text_only exclude_senders t = (Ok out, t') ->
  let processed := apply_limit limit (bytes_split message_ids) in
  (exists kept, subseq kept processed /\ Forall2 (record_for h) kept out)
  /\ (List.length out <= List.length processed)%nat
  /\ (forall k, limit = Some k -> (0 < k)%Z ->
                (List.length out <= Z.to_nat k)%nat).
Proof.
  intros Hh Hsel Hsearch H processed.
  unfold fetch_emails in H. rewrite Hh in H.
  unfold iobind, send in H. rewrite Hsel in H. simpl in H.
  rewrite Hsearch in H. simpl in H.
  apply fetch_loop_in_order in H as (kept & new & -> & Hsub & Hrec).
  simpl.
  assert (Hlen : (List.length new <= List.length processed)%nat).
  { rewrite <- (Forall2_length Hrec). now apply subseq_length. }
  split; [now exists kept|]. split; [exact Hlen|].
  intros k -> Hk. unfold processed in Hlen.
  rewrite (apply_limit_positive _ Hk) in Hlen.
  pose proof (last_n_bound k (bytes_split message_ids)). lia.
Qed.

Lemma records_follow_the_listing_witness :
  exists out,
    List.map id out = [u "2"; u "3"]
    /\ (exists kept,
           subseq kept (apply_limit (Some 2%Z) (bytes_split (b "1 2 3")))
           /\ Forall2 (record_for scenario_server) kept out)
    /\ (List.length out
        <= List.length (apply_limit (Some 2%Z) (bytes_split (b "1 2 3"))))%nat
    /\ (forall k, Some 2%Z = Some k -> (0 < k)%Z ->
                  (List.length out <= Z.to_nat k)%nat).
Proof.
  eexists. split; cycle 1.
  - eapply (@records_follow_the_listing
              ascii_lower (connected_to scenario_server) scenario_server
              (Some 2%Z) false None (b "1 2 3") []).
    + reflexivity.
    + reflexivity.
    + reflexivity.
    + vm_compute. reflexivity.
  - vm_compute. reflexivity.
Defined.

(** X2. When the server rejects the search, [fetch_emails] returns the
    empty list, having sent SELECT and SEARCH and no FETCH. *)
Theorem search_rejection_returns_empty
        (lower : str -> str) (self : Connector) (h : Server)
        (limit : option Z) (plain_text_only : bool)
        (exclude_senders : option (list str)) (status : str)
        (message_ids : bytes) (t : list Command) :
  imap self = Some h ->
  select_reply h = Ok (u "OK") ->
  search_reply h = Ok (status, message_ids) ->
  status <> u "OK" ->
  fetch_emails lower self limit plain_text_only exclude_senders t
  = (Ok [], t ++ [SELECT (u "INBOX"); SEARCH (u "ALL")]).
Proof.
  intros Hh Hsel Hsearch Hst.
  unfold fetch_emails. rewrite Hh.
  unfold iobind, send. rewrite Hsel. simpl. rewrite Hsearch.
  rewrite (str_eqb_neq Hst). simpl. unfold ret. now rewrite <- app_assoc.
Qed.

Lemma search_rejection_returns_empty_witness :
  fetch_emails ascii_lower (connected_to search_rejecting_server)
               None false None []
  = (Ok [], [SELECT (u "INBOX"); SEARCH (u "ALL")]).
Proof.
  apply (@search_rejection_returns_empty
           ascii_lower (connected_to search_rejecting_server)
           search_rejecting_server None false None (u "NO") (b "") []).
  - reflexivity.
  - reflexivity.
  - reflexivity.
  - discriminate.
Defined.

Lemma fetch_one_result (lower : str -> str) (h : Server) (pto : bool)
      (ex : list str) (email_id : bytes) (t t0 : list Command) :
  fst (fetch_one lower h pto ex email_id t)
  = fst (fetch_one lower h pto ex email_id t0).
Proof.
  unfold fetch_one, iobind, send, ret, lift.
  destruct (fetch_reply h email_id) as [[status msg]|e]; simpl; [|reflexivity].
  destruct (str_eqb status (u "OK")); simpl; [|reflexivity].
  destruct (should_exclude lower ex (email_sender msg)); [reflexivity|].
  destruct (_get_email_content (email_body msg) pto); [|reflexivity].
  destruct (Utf8.decode_strict email_id); reflexivity.
Qed.

(** The records do not depend on what was sent before. *)
Lemma fetch_loop_result (lower : str -> str) (h : Server) (pto : bool)
      (ex : list str) (ids : list bytes) :
  forall emails t t0,
    fst (fetch_loop lower h pto ex ids emails t)
    = fst (fetch_loop lower h pto ex ids emails t0).
Proof.
  induction ids as [|email_id ids IH]; intros emails t t0; simpl; [reflexivity|].
  unfold iobind at 1 2.
  pose proof (fetch_one_result lower h pto ex email_id t t0) as E.
  destruct (fetch_one lower h pto ex email_id t) as [[o|e] t1];
    destruct (fetch_one lower h pto ex email_id t0) as [[o0|e0] t2];
    simpl in E; try discriminate; inversion E; subst; [apply IH|reflexivity].
Qed.

Lemma fetch_one_not_ok (lower : str -> str) (h : Server) (pto : bool)
      (ex : list str) (email_id : bytes) (status : str) (msg : Email)
      (t : list Command) :
  fetch_reply h email_id = Ok (status, msg) ->
  status <> u "OK" ->
  fetch_one lower h pto ex email_id t = (Ok None, t ++ [fetch_command email_id]).
Proof.
  intros Hf Hst. unfold fetch_one, iobind, send, ret. rewrite Hf.
  now rewrite (str_eqb_neq Hst).
Qed.

(** X3. A message whose FETCH is answered with a status other than OK is
    skipped and the loop goes on: the outcome is that of the listing
    without this identifier. *)
Theorem failed_fetch_is_skipped
        (lower : str -> str) (h : Server) (plain_text_only : bool)
        (exclude_senders : list str) (before after : list bytes)
        (email_id : bytes) (status : str) (msg : Email)
        (emails : list EmailRecord) (t : list Command) :
  fetch_reply h email_id = Ok (status, msg) ->
  status <> u "OK" ->
  fst (fetch_loop lower h plain_text_only exclude_senders
                  (before ++ email_id :: after) emails t)
  = fst (fetch_loop lower h plain_text_only exclude_senders
                    (before ++ after) emails t).
Proof.
  intros Hf Hst. revert emails t.
  induction before as [|i before IH]; intros emails t.
  - cbn [app fetch_loop]. unfold iobind at 1.
    rewrite (@fetch_one_not_ok lower h plain_text_only exclude_senders
                                email_id status msg t Hf Hst).
    apply fetch_loop_result.
  - cbn [app fetch_loop]. unfold iobind at 1 2.
    destruct (fetch_one lower h plain_text_only exclude_senders i t) as [[o|e] t1];
      [apply IH|reflexivity].
Qed.

Lemma failed_fetch_is_skipped_witness :
  fst (fetch_loop ascii_lower gap_server false []
                  ([b "1"] ++ b "2" :: [b "3"]) [] [])
  = fst (fetch_loop ascii_lower gap_server false [] ([b "1"] ++ [b "3"]) [] []).
Proof.
  apply (@failed_fetch_is_skipped
           ascii_lower gap_server false [] [b "1"] [b "3"] (b "2") (u "NO")
           (plain_email (u "nobody@example.com")) [] []).
  - reflexivity.
  - discriminate.
Defined.

Lemma fetch_one_raises (lower : str -> str) (h : Server) (pto : bool)
      (ex : list str) (email_id : bytes) (msg : Email) (e : Exn)
      (t : list Command) :
  fetch_reply h email_id = Ok (u "OK", msg) ->
  should_exclude lower ex (email_sender msg) = false ->
  _get_email_content (email_body msg) pto = Raise e ->
  fetch_one lower h pto ex email_id t = (Raise e, t ++ [fetch_command email_id]).
Proof.
  intros Hf Hex Hc. unfold fetch_one, iobind, send, ret, lift.
  rewrite Hf. simpl. now rewrite Hex, Hc.
Qed.

Lemma fetch_loop_raises (lower : str -> str) (h : Server) (pto : bool)
      (ex : list str) (email_id : bytes) (msg : Email) (e : Exn)
      (ids : list bytes) :
  fetch_reply h email_id = Ok (u "OK", msg) ->
  should_exclude lower ex (email_sender msg) = false ->
  _get_email_content (email_body msg) pto = Raise e ->
  In email_id ids ->
  forall emails t,
  exists e' t', fetch_loop lower h pto ex ids emails t = (Raise e', t').
Proof.
  intros Hf Hex Hc.
  induction ids as [|i ids IH]; intros Hin emails t; [contradiction|].
  cbn [fetch_loop]. unfold iobind at 1.
  destruct (fetch_one lower h pto ex i t) as [[o|e1] t1] eqn:E1.
  - destruct Hin as [->|Hin].
    + rewrite (@fetch_one_raises lower h pto ex email_id msg e t Hf Hex Hc) in E1.
      discriminate.
    + now apply IH.
  - now exists e1, t1.
Qed.

(** X4. An exception of the content extraction is not caught: when one
    processed message that was fetched and is not excluded makes
    [_get_email_content] raise, [fetch_emails] raises and returns no
    record at all, whatever the other messages are. *)
Theorem extraction_error_aborts_the_batch
        (lower : str -> str) (self : Connector) (h : Server)
        (limit : option Z) (plain_text_only : bool)
        (exclude_senders : option (list str)) (message_ids : bytes)
        (email_id : bytes) (msg : Email) (e : Exn) (t : list Command) :
  imap self = Some h ->
  select_reply h = Ok (u "OK") ->
  search_reply h = Ok (u "OK", message_ids) ->
  In email_id (apply_limit limit (bytes_split message_ids)) ->
  fetch_reply h email_id = Ok (u "OK", msg) ->
  should_exclude lower
                 (match exclude_senders with Some l => l | None => [] end)
                 (email_sender msg) = false ->
  _get_email_content (email_body msg) plain_text_only = Raise e ->
  exists e' t',
    fetch_emails lower self limit plain_text_only exclude_senders t
    = (Raise e', t').
Proof.
  intros Hh Hsel Hsearch Hin Hf Hex Hc.
  unfold fetch_emails. rewrite Hh.
  unfold iobind at 1, send at 1. rewrite Hsel. simpl.
  unfold iobind at 1, send at 1. rewrite Hsearch. simpl.
  eapply fetch_loop_raises; eauto.
Qed.

Lemma extraction_error_aborts_the_batch_witness :
  exists e' t',
    fetch_emails ascii_lower (connected_to overflow_server) None false None []
    = (Raise e', t').
Proof.
  apply (@extraction_error_aborts_the_batch
           ascii_lower (connected_to overflow_server) overflow_server
           None false None (b "1 2 3") (b "2")
           {| email_subject := u "Update";
              email_sender := u "jobs@corp.example";
              email_date := u "2024-01-03 00:00:00";
              email_body :=
                Leaf (u "text/html") None (b "<p>Hi &#1114112; there</p>") |}
           ValueError []).
  - reflexivity.
  - reflexivity.
  - reflexivity.
  - vm_compute. right. left. reflexivity.
  - reflexivity.
  - reflexivity.
  - vm_compute. reflexivity.
Defined.

Example overflow_server_outcome :
  fetch_emails ascii_lower (connected_to overflow_server) None false None []
  = (Raise ValueError,
     [SELECT (u "INBOX"); SEARCH (u "ALL"); fetch_command (b "1");
      fetch_command (b "2")]).
Proof. vm_compute. reflexivity. Qed.

(** ** The exclusion list *)

Lemma should_exclude_app (lower : str -> str) (ex1 ex2 : list str) (sender : str) :
  should_exclude lower (ex1 ++ ex2) sender
  = should_exclude lower ex1 sender || should_exclude lower ex2 sender.
Proof.
  induction ex1 as [|x ex1 IH]; simpl; [reflexivity|].
  now destruct (PyStr.contains (lower x) (lower sender)).
Qed.

(** X5. Whether a sender is excluded depends only on which strings are in
    the exclusion list, not on their order or number; merging two lists
    excludes what either excludes. *)
Theorem exclusion_list_is_a_set
        (lower : str -> str) (ex1 ex2 : list str) (sender : str) :
  (forall s, In s ex1 <-> In s ex2) ->
  should_exclude lower ex1 sender = should_exclude lower ex2 sender
  /\ should_exclude lower (ex1 ++ ex2) sender = should_exclude lower ex1 sender.
Proof.
  intros Hsame.
  assert (E : should_exclude lower ex1 sender = should_exclude lower ex2 sender).
  { destruct (should_exclude lower ex1 sender) eqn:E1;
      destruct (should_exclude lower ex2 sender) eqn:E2; try reflexivity.
    - apply should_exclude_true in E1 as (s & Hs & Hc).
      assert (should_exclude lower ex2 sender = true)
        by (apply should_exclude_true; exists s; split; [now apply Hsame|exact Hc]).
      congruence.
    - apply should_exclude_true in E2 as (s & Hs & Hc).
      assert (should_exclude lower ex1 sender = true)
        by (apply should_exclude_true; exists s; split; [now apply Hsame|exact Hc]).
      congruence. }
  split; [exact E|].
  rewrite should_exclude_app, <- E. apply orb_diag.
Qed.

Lemma exclusion_list_is_a_set_witness :
  should_exclude ascii_lower [u "news"; u "promo"; u "news"] (u "Promo@shop.example")
  = should_exclude ascii_lower [u "promo"; u "news"] (u "Promo@shop.example")
  /\ should_exclude ascii_lower
       ([u "news"; u "promo"; u "news"] ++ [u "promo"; u "news"])
       (u "Promo@shop.example")
     = should_exclude ascii_lower [u "news"; u "promo"; u "news"]
                      (u "Promo@shop.example").
Proof.
  apply (@exclusion_list_is_a_set
           ascii_lower [u "news"; u "promo"; u "news"] [u "promo"; u "news"]
           (u "Promo@shop.example")).
  intros s. simpl. tauto.
Defined.

Lemma fetch_loop_all_excluded (lower : str -> str) (h : Server) (pto : bool)
      (ex : list str) (ids : list bytes) :
  (forall sender, should_exclude lower ex sender = true) ->
  forall emails t out t',
    fetch_loop lower h pto ex ids emails t = (Ok out, t') -> out = emails.
Proof.
  intros Hall. induction ids as [|i ids IH]; intros emails t out t' H.
  - simpl in H. unfold ret in H. now inversion H.
  - cbn [fetch_loop] in H. unfold iobind in H at 1.
    destruct (fetch_one lower h pto ex i t) as [[o|e] t1] eqn:E1; [|discriminate].
    destruct o as [r|]; [|now apply IH in H].
    exfalso. unfold fetch_one, iobind, send, ret, lift in E1.
    destruct (fetch_reply h i) as [[status msg]|e]; [|discriminate].
    simpl in E1. destruct (str_eqb status (u "OK")); simpl in E1; [|discriminate].
    rewrite Hall in E1. discriminate.
Qed.

(** X6. An empty exclusion string matches every sender: with it in the
    list, a normal return of [fetch_emails] holds no record. *)
Theorem empty_exclusion_excludes_everyone
        (lower : str -> str) (self : Connector)
        (limit : option Z) (plain_text_only : bool)
        (exclude_senders : list str)
        (t t' : list Command) (out : list EmailRecord) :
  lower [] = [] ->
  In [] exclude_senders ->
  (forall sender, should_exclude lower exclude_senders sender = true)
  /\ (fetch_emails lower self limit plain_text_only (Some exclude_senders) t
      = (Ok out, t') ->
      out = []).
Proof.
  intros Hlow Hin.
  assert (Hall : forall sender, should_exclude lower exclude_senders sender = true).
  { intros sender. apply should_exclude_true. exists []. split; [exact Hin|].
    exists [], (lower sender). now rewrite Hlow. }
  split; [exact Hall|].
  unfold fetch_emails. destruct (imap self) as [h|]; [|discriminate].
  unfold iobind at 1, send at 1.
  destruct (select_reply h) as [status|e]; [|discriminate].
  destruct (negb (str_eqb status (u "OK"))).
  - unfold ret. intros H. now inversion H.
  - unfold iobind at 1, send at 1.
    destruct (search_reply h) as [[status' ids]|e]; [|discriminate].
    destruct (negb (str_eqb status' (u "OK"))).
    + unfold ret. intros H. now inversion H.
    + intros H. eapply fetch_loop_all_excluded in H; eauto.
Qed.

Lemma empty_exclusion_excludes_everyone_witness :
  (forall sender, should_exclude ascii_lower [u "newsletter"; []] sender = true)
  /\ (fetch_emails ascii_lower (connected_to scenario_server) None false
                   (Some [u "newsletter"; []]) []
      = (Ok [], [SELECT (u "INBOX"); SEARCH (u "ALL"); fetch_command (b "1");
                 fetch_command (b "2"); fetch_command (b "3")]) ->
      @nil EmailRecord = []).
Proof.
  apply (@empty_exclusion_excludes_everyone
           ascii_lower (connected_to scenario_server) None false
           [u "newsletter"; []] []).
  - reflexivity.
  - right. left. reflexivity.
Defined.

Example empty_exclusion_outcome :
  fetch_emails ascii_lower (connected_to scenario_server) None false
               (Some [u "newsletter"; []]) []
  = (Ok [], [SELECT (u "INBOX"); SEARCH (u "ALL"); fetch_command (b "1");
             fetch_command (b "2"); fetch_command (b "3")]).
Proof. vm_compute. reflexivity. Qed.

(** * Further properties of the converter and the extractor *)

(** ** The shape of converted text *)

Lemma single_spaced_only_spaces (t : str) :
  forall flag c,
    single_spaced flag t = true ->
    In c t -> PyStr.is_space c = true -> c = chr_space.
Proof.
  induction t as [|d t IH]; intros flag c H Hin Hc; [contradiction|].
  simpl in H. destruct Hin as [->|Hin].
  - rewrite Hc in H. apply andb_true_iff in H as [H _].
    apply andb_true_iff in H as [H _]. now apply N.eqb_eq in H.
  - destruct (PyStr.is_space d).
    + apply andb_true_iff in H as [_ H]. eapply IH; eauto.
    + eapply IH; eauto.
Qed.

(** X7. Whatever [_html_to_text] returns has no tag left, has no white
    space at its ends, and has no white space other than single ordinary
    spaces: no newline, tab or no-break space survives, and no two spaces
    follow each other. *)
Theorem converted_text_shape (html_content text : str) :
  Html._html_to_text html_content = Ok text ->
  tag_free text = true
  /\ trimmed text
  /\ no_whitespace_run text
  /\ (forall c, In c text -> PyStr.is_space c = true -> c = chr_space).
Proof.
  intros H. apply html_to_text_normal in H as [Hn Htag].
  split; [exact Htag|]. split; [now apply normal_trimmed|].
  destruct Hn as (Hs & _ & _). split.
  - eapply single_spaced_no_run; eauto.
  - intros c. eapply single_spaced_only_spaces; eauto.
Qed.

Lemma converted_text_shape_witness :
  tag_free (u "Dear you, welcome") = true
  /\ trimmed (u "Dear you, welcome")
  /\ no_whitespace_run (u "Dear you, welcome")
  /\ (forall c, In c (u "Dear you, welcome") ->
                PyStr.is_space c = true -> c = chr_space).
Proof.
  apply (@converted_text_shape
           (u " <div>Dear&nbsp;you,</div>" ++ [chr_nl; 9; 160]%N
              ++ u "<b>welcome</b> ")
           (u "Dear you, welcome")).
  vm_compute. reflexivity.
Defined.

(** The final clean-up of [_get_email_content] changes nothing in
    converted text. *)
Lemma clean_whitespace_normal (t : str) :
  normal t -> Html.clean_whitespace t = Ok t.
Proof.
  intros Hn. rewrite clean_whitespace_eq.
  destruct Hn as (Hs & Hl & Hr).
  rewrite (single_spaced_collapse _ _ Hs). f_equal.
  apply normal_strip. now repeat split.
Qed.

(** X8. For a message without plain text but with HTML, the content is
    exactly what [_html_to_text] makes of the concatenated HTML payloads,
    its exception included: the clean-up after it changes nothing. *)
Theorem html_only_content_is_converted_html
        (msg : Message) (plain_text_only : bool) :
  decoded_text (payloads_of_type (u "text/plain") msg) = [] ->
  decoded_text (payloads_of_type (u "text/html") msg) <> [] ->
  _get_email_content msg plain_text_only
  = Html._html_to_text (decoded_text (payloads_of_type (u "text/html") msg)).
Proof.
  intros Hplain Hhtml.
  unfold _get_email_content. rewrite collect_buffers, Hplain.
  destruct (decoded_text (payloads_of_type (u "text/html") msg)) as [|c html] eqn:E;
    [congruence|].
  cbn [is_empty negb].
  destruct (Html._html_to_text (c :: html)) as [text|e] eqn:Et; [|reflexivity].
  cbn [bind]. apply clean_whitespace_normal.
  now apply html_to_text_normal in Et.
Qed.

Lemma html_only_content_is_converted_html_witness :
  _get_email_content html_only_message true
  = Html._html_to_text
      (decoded_text (payloads_of_type (u "text/html") html_only_message)).
Proof.
  apply (@html_only_content_is_converted_html html_only_message true).
  - reflexivity.
  - discriminate.
Defined.

(** ** A prefix without the first character of a pattern *)

Lemma first_char_prefix (c : N) (r : Re.regex) (a b : str) :
  first_char_is c r = true ->
  PyStr.has_char c a = false ->
  forall a1 a2, a = a1 ++ a2 -> a2 <> [] ->
                Re.match_here r false (a2 ++ b) = None.
Proof.
  intros Hr Ha a1 a2 -> Hne. destruct a2 as [|x a2]; [congruence|].
  unfold Re.match_here. apply first_char_fails with (c := c); [exact Hr|].
  cbn [app]. intros ->. apply has_char_false in Ha. apply Ha.
  apply in_or_app. right. now left.
Qed.

(** [re.sub] copies such a prefix and works on the rest alone. *)
Lemma sub_with_prefix (c : N) (r : Re.regex) (repl : str -> Result str)
      (a b : str) :
  first_char_is c r = true ->
  PyStr.has_char c a = false ->
  Re.sub_with r repl (a ++ b)
  = (out <- Re.sub_with r repl b ;; Ok (a ++ out)).
Proof.
  intros Hr Ha. unfold Re.sub_with. apply sub_loop_copy.
  now apply first_char_prefix with (c := c) (a := a).
Qed.

Lemma sub_prefix (c : N) (r : Re.regex) (t a b : str) :
  first_char_is c r = true ->
  PyStr.has_char c a = false ->
  exists b', Re.sub r t b = Ok b' /\ Re.sub r t (a ++ b) = Ok (a ++ b').
Proof.
  intros Hr Ha. unfold Re.sub.
  rewrite sub_with_prefix with (c := c) by assumption.
  destruct (sub_loop_const_ok r t b 0) as [b' E].
  unfold Re.sub_with. rewrite E. now exists b'.
Qed.

Lemma replace_loop_copy (old new b : str) :
  forall a,
    (forall a1 a2, a = a1 ++ a2 -> a2 <> [] ->
                   PyStr.startswith old (a2 ++ b) = false) ->
    PyStr.replace_loop old new 0 (a ++ b) = a ++ PyStr.replace_loop old new 0 b.
Proof.
  induction a as [|x a IH]; intros Hnone; [reflexivity|].
  cbn [app PyStr.replace_loop].
  change (x :: a ++ b) with ((x :: a) ++ b).
  rewrite (Hnone [] (x :: a) eq_refl) by discriminate.
  cbn [app]. f_equal. apply IH.
  intros a1 a2 -> Hne. now apply (Hnone (x :: a1) a2).
Qed.

Lemma has_char_app (c : N) (s1 s2 : str) :
  PyStr.has_char c (s1 ++ s2) = PyStr.has_char c s1 || PyStr.has_char c s2.
Proof. unfold PyStr.has_char. apply existsb_app. Qed.

(** [str.replace] of a word that starts with [c] copies a prefix
    without [c]. *)
Lemma replace_prefix (c : N) (old new a b : str) :
  PyStr.has_char c a = false ->
  PyStr.replace (c :: old) new (a ++ b) = a ++ PyStr.replace (c :: old) new b.
Proof.
  intros Ha. unfold PyStr.replace. apply replace_loop_copy.
  intros a1 a2 -> Hne. destruct a2 as [|x a2]; [congruence|].
  cbn [app PyStr.startswith].
  destruct (N.eqb_spec c x) as [->|]; [|reflexivity].
  apply has_char_false in Ha. exfalso. apply Ha.
  apply in_or_app. right. now left.
Qed.

Lemma entities_start_with_amp :
  Forall (fun e => exists old, fst e = chr_amp :: old) Html.entities.
Proof. unfold Html.entities. repeat constructor; eexists; reflexivity. Qed.

Lemma replace_entities_prefix (a b : str) :
  PyStr.has_char chr_amp a = false ->
  Html.replace_entities (a ++ b) = a ++ Html.replace_entities b.
Proof.
  intros Ha. unfold Html.replace_entities.
  pose proof entities_start_with_amp as Hall.
  generalize dependent Html.entities. intros l Hall. revert b.
  induction Hall as [|e l [old He] _ IH]; intros b; cbn [fold_left]; [reflexivity|].
  destruct e as [o n]. cbn [fst snd] in *. subst o.
  rewrite replace_prefix by exact Ha. apply IH.
Qed.

(** The first three steps and the entity table leave a prefix without
    [<] and [&] as it is and work on the rest alone. *)
Lemma first_steps_prefix (a b : str) :
  PyStr.has_char chr_lt a = false ->
  PyStr.has_char chr_amp a = false ->
  exists b',
    Html._html_to_text (a ++ b)
    = (html_content <- Re.sub_with Html.numeric_re Html.numeric_repl (a ++ b') ;;
       html_content <- Re.sub Html.tag_re [] html_content ;;
       html_content <- Re.sub Html.newlines_re [chr_nl] html_content ;;
       html_content <- Re.sub Html.spaces_re (u " ") html_content ;;
       Ok (PyStr.strip html_content))
    /\ (exists b1 b2 b3,
           Re.sub Html.script_re (u " ") b = Ok b1
           /\ Re.sub Html.style_re (u " ") b1 = Ok b2
           /\ Re.sub Html.block_re [chr_nl] b2 = Ok b3
           /\ b' = Html.replace_entities b3).
Proof.
  intros Hlt Hamp.
  destruct (@sub_prefix chr_lt Html.script_re (u " ") a b eq_refl Hlt)
    as (b1 & E1 & E1').
  destruct (@sub_prefix chr_lt Html.style_re (u " ") a b1 eq_refl Hlt)
    as (b2 & E2 & E2').
  destruct (@sub_prefix chr_lt Html.block_re [chr_nl] a b2 eq_refl Hlt)
    as (b3 & E3 & E3').
  exists (Html.replace_entities b3). split.
  - unfold Html._html_to_text.
    rewrite E1'. cbn [bind]. rewrite E2'. cbn [bind]. rewrite E3'. cbn [bind].
    now rewrite replace_entities_prefix by exact Hamp.
  - now exists b1, b2, b3.
Qed.

(** ** Numeric character references *)

Lemma int_digits_all (s : str) :
  forall acc n,
    PyStr.int_digits acc s = Some n -> forallb PyStr.is_digit s = true.
Proof.
  induction s as [|c s IH]; intros acc n H; [reflexivity|].
  cbn [PyStr.int_digits] in H. cbn [forallb].
  destruct (PyStr.digit_value c) as [d|] eqn:Ed; [|discriminate].
  unfold PyStr.is_digit at 1. rewrite Ed. cbn [andb]. eapply IH; eauto.
Qed.

Lemma digits_no_char (c : N) (digits : str) :
  PyStr.is_digit c = false ->
  forallb PyStr.is_digit digits = true ->
  PyStr.has_char c digits = false.
Proof.
  intros Hc Hd. apply has_char_false. intros Hin.
  rewrite forallb_forall in Hd. specialize (Hd c Hin). congruence.
Qed.

Lemma reference_no_char (c : N) (digits : str) :
  PyStr.is_digit c = false ->
  c <> chr_amp -> c <> 35%N -> c <> 59%N ->
  forallb PyStr.is_digit digits = true ->
  PyStr.has_char c (numeric_reference digits) = false.
Proof.
  intros Hc H1 H2 H3 Hd. unfold numeric_reference.
  rewrite !has_char_app, (@digits_no_char c digits Hc Hd).
  unfold PyStr.has_char. cbn. unfold chr_amp in H1.
  apply N.eqb_neq in H1, H2, H3.
  now rewrite H1, H2, H3.
Qed.

Lemma numeric_match (digits rest : str) :
  digits <> [] ->
  forallb PyStr.is_digit digits = true ->
  Re.match_here Html.numeric_re false (numeric_reference digits ++ rest)
  = Some (List.length (numeric_reference digits)).
Proof.
  intros Hne Hd. destruct digits as [|d digits]; [congruence|].
  cbn [forallb] in Hd. apply andb_true_iff in Hd as [Hd1 Hd].
  unfold Re.match_here, Html.numeric_re, numeric_reference, Re.Plus.
  cbn [Re.Seq Re.rmatch].
  rewrite <- !app_assoc. rewrite rmatch_lit, startswith_self, skipn_self.
  cbn [app Re.rmatch]. rewrite Hd1.
  change (u ";") with [59%N].
  apply greedy_star_run with (p := PyStr.is_digit).
  - intros s k. reflexivity.
  - cbn [app]. rewrite N.eqb_refl. cbn [andb]. f_equal.
    rewrite !length_app. cbn [List.length]. rewrite !length_app.
    cbn [List.length]. lia.
  - reflexivity.
  - exact Hd.
  - lia.
Qed.

Lemma numeric_group1_reference (digits : str) :
  Html.numeric_group1 (numeric_reference digits) = digits.
Proof.
  unfold Html.numeric_group1, numeric_reference. cbn [u app skipn].
  change (List.map Byte.to_N (list_byte_of_string ";")) with [59%N].
  apply removelast_last.
Qed.

(** No entity of the table starts inside a reference, except [&#39;] at
    the reference [&#39;]. *)
Lemma digits_not_39 (digits b : str) :
  forallb PyStr.is_digit digits = true ->
  digits <> u "39" ->
  PyStr.startswith (u "39;") (digits ++ u ";" ++ b) = false.
Proof.
  intros Hd Hne.
  change (u "39;") with [51; 57; 59]%N. change (u ";") with [59%N].
  change (u "39") with [51; 57]%N in Hne.
  destruct digits as [|d1 [|d2 [|d3 digits]]]; cbn [app PyStr.startswith].
  - reflexivity.
  - now rewrite andb_false_r.
  - destruct (N.eqb_spec 51 d1) as [<-|]; [|reflexivity].
    destruct (N.eqb_spec 57 d2) as [<-|]; [|reflexivity].
    exfalso. now apply Hne.
  - destruct (N.eqb_spec 59 d3) as [<-|]; [|now rewrite !andb_false_r].
    cbn in Hd. now rewrite !andb_false_r in Hd.
Qed.

Lemma reference_suffix (digits : str) (a1 a2 : str) (x : N) :
  forallb PyStr.is_digit digits = true ->
  numeric_reference digits = a1 ++ x :: a2 ->
  x <> chr_amp \/ a1 = [].
Proof.
  intros Hd E. destruct a1 as [|y a1]; [now right|]. left.
  unfold numeric_reference in E. cbn [u app] in E.
  change (List.map Byte.to_N (list_byte_of_string "&#")) with [38; 35]%N in E.
  cbn [app] in E. inversion E as [[Hy E']]. clear E.
  intros ->.
  assert (Hin : In chr_amp (35%N :: digits ++ u ";")).
  { rewrite E'. apply in_or_app. right. now left. }
  destruct Hin as [Hin|Hin]; [discriminate|].
  apply in_app_or in Hin as [Hin|Hin].
  - rewrite forallb_forall in Hd. specialize (Hd _ Hin). discriminate.
  - destruct Hin as [Hin|[]]. discriminate.
Qed.

Lemma replace_entities_copy (a : str) :
  (forall e, In e Html.entities ->
             forall b a1 a2, a = a1 ++ a2 -> a2 <> [] ->
                             PyStr.startswith (fst e) (a2 ++ b) = false) ->
  forall b, Html.replace_entities (a ++ b) = a ++ Html.replace_entities b.
Proof.
  unfold Html.replace_entities.
  pose proof entities_start_with_amp as Hall.
  generalize dependent Html.entities. intros l Hall Hnone.
  induction Hall as [|e l [old He] _ IH]; intros b; cbn [fold_left]; [reflexivity|].
  destruct e as [o n]. cbn [fst snd] in *. subst o.
  unfold PyStr.replace at 2. rewrite replace_loop_copy.
  - fold (PyStr.replace (chr_amp :: old) n b). apply IH.
    intros e He. apply Hnone. now right.
  - intros a1 a2 E Hne. apply (Hnone (chr_amp :: old, n) (or_introl eq_refl) b a1 a2 E Hne).
Qed.

Lemma replace_entities_reference (digits b : str) :
  forallb PyStr.is_digit digits = true ->
  digits <> u "39" ->
  Html.replace_entities (numeric_reference digits ++ b)
  = numeric_reference digits ++ Html.replace_entities b.
Proof.
  intros Hd Hne. apply replace_entities_copy.
  intros e He b0 a1 a2 E Hne2.
  destruct a2 as [|x a2]; [congruence|].
  destruct (@reference_suffix digits a1 a2 x Hd E) as [Hx| ->].
  - destruct (Forall_forall (fun e => exists old, fst e = chr_amp :: old)
                            Html.entities) as [Hall _].
    destruct (Hall entities_start_with_amp e He) as [old Hold].
    destruct e as [o n]. cbn [fst] in *. subst o.
    cbn [app PyStr.startswith].
    destruct (N.eqb_spec chr_amp x) as [<-|]; [congruence|reflexivity].
  - cbn [app] in E. rewrite <- E. unfold numeric_reference.
    rewrite <- !app_assoc.
    change (u "&#") with [38; 35]%N. cbn [app].
    unfold Html.entities in He. cbn [In] in He.
    repeat (destruct He as [<-|He]; [try reflexivity|]); try contradiction.
    cbn [fst]. change (u "&#39;") with (38%N :: 35%N :: u "39;").
    cbn [PyStr.startswith]. rewrite !N.eqb_refl. cbn [andb].
    now apply digits_not_39.
Qed.

Lemma int_digits_39 : PyStr.int_digits 0 (u "39") = Some 39%N.
Proof. reflexivity. Qed.

(** What the replacement makes of a reference. *)
Lemma numeric_repl_reference (digits : str) :
  Html.numeric_repl (numeric_reference digits)
  = (n <- PyStr.int digits ;; PyStr.chr n).
Proof. unfold Html.numeric_repl. now rewrite numeric_group1_reference. Qed.

(** The converter up to the step of the references, on a text that starts
    with a prefix free of [<] and [&] and a reference. *)
Lemma reference_reached (pre digits post : str) :
  PyStr.has_char chr_lt pre = false ->
  PyStr.has_char chr_amp pre = false ->
  digits <> [] ->
  forallb PyStr.is_digit digits = true ->
  digits <> u "39" ->
  exists rest,
    Html._html_to_text (pre ++ numeric_reference digits ++ post)
    = (html_content <-
         (t <- Html.numeric_repl (numeric_reference digits) ;;
          out <- Re.sub_with Html.numeric_re Html.numeric_repl rest ;;
          Ok (pre ++ t ++ out)) ;;
       html_content <- Re.sub Html.tag_re [] html_content ;;
       html_content <- Re.sub Html.newlines_re [chr_nl] html_content ;;
       html_content <- Re.sub Html.spaces_re (u " ") html_content ;;
       Ok (PyStr.strip html_content))
    /\ (forall a,
           PyStr.has_char chr_lt a = false ->
           PyStr.has_char chr_amp a = false ->
           Html._html_to_text (a ++ post)
           = (html_content <-
                (out <- Re.sub_with Html.numeric_re Html.numeric_repl rest ;;
                 Ok (a ++ out)) ;;
              html_content <- Re.sub Html.tag_re [] html_content ;;
              html_content <- Re.sub Html.newlines_re [chr_nl] html_content ;;
              html_content <- Re.sub Html.spaces_re (u " ") html_content ;;
              Ok (PyStr.strip html_content))).
Proof.
  intros Hlt Hamp Hne Hd H39.
  assert (Hm : PyStr.has_char chr_lt (numeric_reference digits) = false)
    by (apply reference_no_char; try discriminate; auto).
  destruct (@sub_prefix chr_lt Html.script_re (u " ")
                        (pre ++ numeric_reference digits) post eq_refl)
    as (b1 & E1 & E1'); [now rewrite has_char_app, Hlt, Hm|].
  destruct (@sub_prefix chr_lt Html.style_re (u " ")
                        (pre ++ numeric_reference digits) b1 eq_refl)
    as (b2 & E2 & E2'); [now rewrite has_char_app, Hlt, Hm|].
  destruct (@sub_prefix chr_lt Html.block_re [chr_nl]
                        (pre ++ numeric_reference digits) b2 eq_refl)
    as (b3 & E3 & E3'); [now rewrite has_char_app, Hlt, Hm|].
  exists (Html.replace_entities b3). split.
  - unfold Html._html_to_text.
    rewrite app_assoc, E1'. cbn [bind]. rewrite E2'. cbn [bind].
    rewrite E3'. cbn [bind].
    rewrite <- app_assoc.
    rewrite replace_entities_prefix by exact Hamp.
    rewrite replace_entities_reference by assumption.
    rewrite sub_with_prefix with (c := chr_amp) by (reflexivity || exact Hamp).
    unfold Re.sub_with at 1.
    rewrite sub_loop_hit;
      [|unfold numeric_reference; discriminate|now apply numeric_match].
    fold (Re.sub_with Html.numeric_re Html.numeric_repl (Html.replace_entities b3)).
    destruct (Html.numeric_repl (numeric_reference digits)) as [t|e];
      [|reflexivity].
    cbn [bind].
    destruct (Re.sub_with Html.numeric_re Html.numeric_repl
                          (Html.replace_entities b3)); reflexivity.
  - intros a Ha1 Ha2. unfold Html._html_to_text.
    destruct (@sub_prefix chr_lt Html.script_re (u " ") a post eq_refl Ha1)
      as (c1 & F1 & F1').
    rewrite E1 in F1. inversion F1; subst c1. rewrite F1'. cbn [bind].
    destruct (@sub_prefix chr_lt Html.style_re (u " ") a b1 eq_refl Ha1)
      as (c2 & F2 & F2').
    rewrite E2 in F2. inversion F2; subst c2. rewrite F2'. cbn [bind].
    destruct (@sub_prefix chr_lt Html.block_re [chr_nl] a b2 eq_refl Ha1)
      as (c3 & F3 & F3').
    rewrite E3 in F3. inversion F3; subst c3. rewrite F3'. cbn [bind].
    rewrite replace_entities_prefix by exact Ha2.
    now rewrite sub_with_prefix with (c := chr_amp) by (reflexivity || exact Ha2).
Qed.

(** X9. A numeric character reference whose number is above the last
    code point, or is written with more digits than [int] accepts, makes
    [_html_to_text] raise, when only text free of [<] and [&] stands
    before it. *)
Theorem reference_out_of_range_raises (pre digits post : str) (n : N) :
  PyStr.has_char chr_lt pre = false ->
  PyStr.has_char chr_amp pre = false ->
  PyStr.int_digits 0 digits = Some n ->
  (1114111 < n)%N \/ (PyStr.int_max_str_digits < List.length digits)%nat ->
  exists e,
    Html._html_to_text (pre ++ numeric_reference digits ++ post) = Raise e.
Proof.
  intros Hlt Hamp Hn Hbig.
  assert (Hd : forallb PyStr.is_digit digits = true)
    by (eapply int_digits_all; eauto).
  assert (Hne : digits <> []).
  { intros ->. simpl in Hn. inversion Hn; subst n.
    destruct Hbig as [Hbig|Hbig]; [lia|]. unfold PyStr.int_max_str_digits in Hbig.
    simpl in Hbig. lia. }
  assert (H39 : digits <> u "39").
  { intros ->. rewrite int_digits_39 in Hn. inversion Hn; subst n.
    destruct Hbig as [Hbig|Hbig]; [lia|]. unfold PyStr.int_max_str_digits in Hbig.
    simpl in Hbig. lia. }
  destruct (@reference_reached pre digits post Hlt Hamp Hne Hd H39) as (rest & E & _).
  assert (Hrepl : exists e, Html.numeric_repl (numeric_reference digits) = Raise e).
  { rewrite numeric_repl_reference. unfold PyStr.int.
    destruct digits as [|d digits]; [congruence|].
    destruct (PyStr.int_max_str_digits <? List.length (d :: digits))%nat eqn:El.
    - now exists ValueError.
    - destruct Hbig as [Hbig|Hbig]; [|apply Nat.ltb_ge in El; lia].
      rewrite Hn. cbn [bind]. unfold PyStr.chr.
      destruct (2147483647 <? n)%N; [now exists OverflowError|].
      replace (1114111 <? n)%N with true by (symmetry; now apply N.ltb_lt).
      now exists ValueError. }
  destruct Hrepl as [e He]. exists e. rewrite E, He. reflexivity.
Qed.

Lemma reference_out_of_range_raises_witness :
  exists e,
    Html._html_to_text (u "Hi " ++ numeric_reference (u "1114112") ++ u " <b>there</b>")
    = Raise e.
Proof.
  apply (@reference_out_of_range_raises
           (u "Hi ") (u "1114112") (u " <b>there</b>") 1114112%N).
  - reflexivity.
  - reflexivity.
  - reflexivity.
  - left. reflexivity.
Defined.

(** ** The entity table *)

Lemma may_start_sound (old a b : str) :
  PyStr.startswith old (a ++ b) = true -> may_start old a = true.
Proof.
  revert a. induction old as [|c old IH]; intros a H; [reflexivity|].
  destruct a as [|d a]; [reflexivity|].
  cbn [app PyStr.startswith] in H. apply andb_true_iff in H as [Hc H].
  cbn [may_start]. rewrite Hc. cbn [andb]. now apply IH.
Qed.

Lemma may_start_inside_sound (old a b : str) :
  may_start_inside old a = false ->
  forall a1 a2, a = a1 ++ a2 -> a2 <> [] ->
                PyStr.startswith old (a2 ++ b) = false.
Proof.
  revert a. induction a as [|x a IH]; intros H a1 a2 E Hne.
  - destruct a1; destruct a2; try discriminate. congruence.
  - cbn [may_start_inside] in H. apply orb_false_iff in H as [H1 H2].
    destruct a1 as [|y a1].
    + simpl in E. subst a2.
      destruct (PyStr.startswith old ((x :: a) ++ b)) eqn:Es; [|reflexivity].
      apply may_start_sound in Es. congruence.
    + inversion E; subst. now apply (IH H2 a1 a2).
Qed.

Lemma fold_replace_copy (table : list (str * str)) (a : str) :
  forallb (fun e => negb (is_empty (fst e)) && negb (may_start_inside (fst e) a))
          table = true ->
  forall b,
    fold_left (fun acc e => PyStr.replace (fst e) (snd e) acc) table (a ++ b)
    = a ++ fold_left (fun acc e => PyStr.replace (fst e) (snd e) acc) table b.
Proof.
  induction table as [|[old new] table IH]; intros H b; cbn [fold_left]; [reflexivity|].
  cbn [forallb fst snd] in *. apply andb_true_iff in H as [H Ht].
  apply andb_true_iff in H as [Hne Hin].
  apply negb_true_iff in Hin.
  destruct old as [|c old]; [discriminate|].
  unfold PyStr.replace at 2.
  rewrite replace_loop_copy by (now apply may_start_inside_sound with (a := a)).
  fold (PyStr.replace (c :: old) new b). now apply IH.
Qed.

Lemma replace_loop_skip (old new a s : str) :
  PyStr.replace_loop old new (List.length a) (a ++ s)
  = PyStr.replace_loop old new 0 s.
Proof.
  induction a as [|c a IH]; simpl; [|exact IH].
  destruct s; reflexivity.
Qed.

Lemma replace_hit (old new b : str) :
  old <> [] ->
  PyStr.replace old new (old ++ b) = new ++ PyStr.replace old new b.
Proof.
  intros Hne. destruct old as [|c old]; [congruence|].
  unfold PyStr.replace. cbn [app PyStr.replace_loop].
  change (c :: old ++ b) with ((c :: old) ++ b). rewrite startswith_self.
  replace (List.length (c :: old) - 1) with (List.length old)
    by (cbn [List.length]; lia).
  now rewrite replace_loop_skip.
Qed.

Lemma table_split (key : str) (table : list (str * str)) :
  (exists val, In (key, val) table) ->
  exists val,
    table = entries_before key table ++ (key, val) :: entries_after key table.
Proof.
  induction table as [|[k v] table IH]; intros [val Hin]; [contradiction|].
  cbn [entries_before entries_after fst].
  destruct (str_eqb k key) eqn:Ek.
  - apply str_eqb_eq in Ek. subst k. now exists v.
  - destruct Hin as [Hin|Hin].
    + inversion Hin; subst. now rewrite str_eqb_refl in Ek.
    + destruct IH as [val' E]; [now exists val|].
      exists val'. cbn [app]. now rewrite <- E.
Qed.

Lemma fold_replace_key (before after : list (str * str)) (key val b : str) :
  key <> [] ->
  forallb (fun e => negb (is_empty (fst e)) && negb (may_start_inside (fst e) key))
          before = true ->
  Forall (fun e => exists old, fst e = chr_amp :: old) after ->
  PyStr.has_char chr_amp val = false ->
  fold_left (fun acc e => PyStr.replace (fst e) (snd e) acc)
            (before ++ (key, val) :: after) (key ++ b)
  = val ++ fold_left (fun acc e => PyStr.replace (fst e) (snd e) acc)
                     (before ++ (key, val) :: after) b.
Proof.
  intros Hne Hbefore Hafter Hval.
  rewrite !fold_left_app. cbn [fold_left fst snd].
  rewrite fold_replace_copy by exact Hbefore.
  rewrite replace_hit by exact Hne.
  generalize (PyStr.replace key val
                (fold_left (fun acc e => PyStr.replace (fst e) (snd e) acc)
                           before b)).
  induction Hafter as [|[o n] l [old Ho] _ IH]; intros s; cbn [fold_left]; [reflexivity|].
  cbn [fst snd] in *. subst o.
  rewrite replace_prefix by exact Hval. apply IH.
Qed.

(** What the table does to one of its keys, in a table whose entries
    before it cannot start inside the key. *)
Lemma replace_entities_key (key val pre b : str) :
  Html.entities
  = entries_before key Html.entities ++ (key, val) :: entries_after key Html.entities ->
  key <> [] ->
  forallb (fun e => negb (is_empty (fst e)) && negb (may_start_inside (fst e) key))
          (entries_before key Html.entities) = true ->
  PyStr.has_char chr_amp pre = false ->
  PyStr.has_char chr_amp val = false ->
  Html.replace_entities (pre ++ key ++ b)
  = pre ++ val ++ Html.replace_entities b.
Proof.
  intros Hsplit Hne Hbefore Hpre Hval.
  rewrite replace_entities_prefix by exact Hpre. f_equal.
  pose proof entities_start_with_amp as Hall.
  unfold Html.replace_entities.
  set (before := entries_before key Html.entities) in *.
  set (after := entries_after key Html.entities) in *.
  rewrite Hsplit in Hall |- *.
  apply Forall_app in Hall as [_ Hall].
  inversion Hall as [|? ? _ Hafter]; subst.
  now apply fold_replace_key.
Qed.

(** A key of the table that no earlier entry can start inside, with a
    value holding neither [&] nor [<], is decoded in place. *)
Lemma key_is_decoded (key val pre post : str) :
  PyStr.has_char chr_lt key = false ->
  PyStr.has_char chr_lt val = false ->
  PyStr.has_char chr_amp val = false ->
  key <> [] ->
  Html.entities
  = entries_before key Html.entities ++ (key, val) :: entries_after key Html.entities ->
  forallb (fun e => negb (is_empty (fst e)) && negb (may_start_inside (fst e) key))
          (entries_before key Html.entities) = true ->
  PyStr.has_char chr_lt pre = false ->
  PyStr.has_char chr_amp pre = false ->
  Html._html_to_text (pre ++ key ++ post)
  = Html._html_to_text (pre ++ val ++ post).
Proof.
  intros Hk Hvl Hva Hne Hsplit Hbefore Hlt Hamp.
  destruct (@sub_prefix chr_lt Html.script_re (u " ") (pre ++ key) post eq_refl)
    as (b1 & E1 & E1'); [now rewrite has_char_app, Hlt, Hk|].
  destruct (@sub_prefix chr_lt Html.style_re (u " ") (pre ++ key) b1 eq_refl)
    as (b2 & E2 & E2'); [now rewrite has_char_app, Hlt, Hk|].
  destruct (@sub_prefix chr_lt Html.block_re [chr_nl] (pre ++ key) b2 eq_refl)
    as (b3 & E3 & E3'); [now rewrite has_char_app, Hlt, Hk|].
  destruct (@sub_prefix chr_lt Html.script_re (u " ") (pre ++ val) post eq_refl)
    as (c1 & F1 & F1'); [now rewrite has_char_app, Hlt, Hvl|].
  rewrite E1 in F1. inversion F1; subst c1.
  destruct (@sub_prefix chr_lt Html.style_re (u " ") (pre ++ val) b1 eq_refl)
    as (c2 & F2 & F2'); [now rewrite has_char_app, Hlt, Hvl|].
  rewrite E2 in F2. inversion F2; subst c2.
  destruct (@sub_prefix chr_lt Html.block_re [chr_nl] (pre ++ val) b2 eq_refl)
    as (c3 & F3 & F3'); [now rewrite has_char_app, Hlt, Hvl|].
  rewrite E3 in F3. inversion F3; subst c3.
  unfold Html._html_to_text.
  rewrite !(app_assoc pre), E1', F1'. cbn [bind]. rewrite E2', F2'. cbn [bind].
  rewrite E3', F3'. cbn [bind].
  rewrite <- !app_assoc.
  rewrite (@replace_entities_key key val pre b3 Hsplit Hne Hbefore Hamp Hva).
  rewrite (app_assoc pre val b3).
  rewrite (@replace_entities_prefix (pre ++ val) b3)
    by (now rewrite has_char_app, Hamp, Hva).
  now rewrite <- app_assoc.
Qed.

(** X11. A named entity of the table is replaced by its character: the
    result is that of the text with the character in place of the entity.
    The entities [&amp;] and [&lt;] are set apart, because a written-out
    [&] or [<] is treated by other steps. *)
Theorem entity_is_decoded (key val pre post : str) :
  In (key, val) Html.entities ->
  val <> [chr_amp] -> val <> [chr_lt] ->
  PyStr.has_char chr_lt pre = false ->
  PyStr.has_char chr_amp pre = false ->
  Html._html_to_text (pre ++ key ++ post)
  = Html._html_to_text (pre ++ val ++ post).
Proof.
  intros Hin Hv1 Hv2 Hlt Hamp.
  unfold Html.entities in Hin. cbn [In] in Hin.
  repeat (destruct Hin as [Hin|Hin];
          [inversion Hin; subst; clear Hin;
           first [ exfalso; apply Hv1; reflexivity
                 | exfalso; apply Hv2; reflexivity
                 | apply key_is_decoded;
                   first [assumption | reflexivity | discriminate] ]|]).
  contradiction.
Qed.

Lemma entity_is_decoded_witness :
  Html._html_to_text (u "Dear" ++ u "&nbsp;" ++ u "you &amp;nbsp;<br>")
  = Html._html_to_text (u "Dear" ++ u " " ++ u "you &amp;nbsp;<br>").
Proof.
  apply (@entity_is_decoded (u "&nbsp;") (u " ") (u "Dear") (u "you &amp;nbsp;<br>")).
  - left. reflexivity.
  - discriminate.
  - discriminate.
  - reflexivity.
  - reflexivity.
Defined.

(** The two entities set apart do behave differently from their
    characters written out. *)
Example amp_and_lt_differ :
  Html._html_to_text (u "a&amp;nbsp;b") = Ok (u "a&nbsp;b")
  /\ Html._html_to_text (u "a&nbsp;b") = Ok (u "a b")
  /\ Html._html_to_text (u "a&lt;p>b") = Ok (u "ab")
  /\ Html._html_to_text (u "a<p>b") = Ok (u "a b").
Proof. repeat split; vm_compute; reflexivity. Qed.

(** ** Numeric references in range *)

(** X10. A numeric character reference in range is replaced by the
    character of that number: the result is that of the text with the
    character in place of the reference. The characters [&] and [<]
    themselves are set apart, because the steps before treat them
    differently when they are written out. *)
Theorem reference_is_decoded (pre digits post : str) (n : N) :
  PyStr.has_char chr_lt pre = false ->
  PyStr.has_char chr_amp pre = false ->
  digits <> [] ->
  (List.length digits <= PyStr.int_max_str_digits)%nat ->
  PyStr.int_digits 0 digits = Some n ->
  (n <= 1114111)%N ->
  n <> chr_amp -> n <> chr_lt ->
  Html._html_to_text (pre ++ numeric_reference digits ++ post)
  = Html._html_to_text ((pre ++ [n]) ++ post).
Proof.
  intros Hlt Hamp Hne Hlen Hn Hrange Hn1 Hn2.
  destruct (str_eqb digits (u "39")) eqn:E39.
  { apply str_eqb_eq in E39. subst digits.
    vm_compute in Hn. inversion Hn; subst n.
    rewrite <- app_assoc.
    apply key_is_decoded;
      first [assumption | reflexivity | discriminate]. }
  assert (H39 : digits <> u "39").
  { intros ->. now rewrite str_eqb_refl in E39. }
  assert (Hd : forallb PyStr.is_digit digits = true)
    by (eapply int_digits_all; eauto).
  destruct (@reference_reached pre digits post Hlt Hamp Hne Hd H39) as (rest & E & E').
  rewrite E, E'.
  - assert (Hrepl : Html.numeric_repl (numeric_reference digits) = Ok [n]).
    { rewrite numeric_repl_reference. unfold PyStr.int.
      destruct digits as [|d digits]; [congruence|].
      replace (PyStr.int_max_str_digits <? List.length (d :: digits))%nat
        with false by (symmetry; apply Nat.ltb_ge; lia).
      rewrite Hn. cbn [bind]. unfold PyStr.chr.
      replace (2147483647 <? n)%N with false by (symmetry; apply N.ltb_ge; lia).
      replace (1114111 <? n)%N with false by (symmetry; apply N.ltb_ge; lia).
      reflexivity. }
    rewrite Hrepl. cbn [bind].
    destruct (Re.sub_with Html.numeric_re Html.numeric_repl rest);
      cbn [bind]; [|reflexivity].
    now rewrite <- app_assoc.
  - rewrite has_char_app, Hlt. cbn [orb].
    apply has_char_false. intros [H|[]]. congruence.
  - rewrite has_char_app, Hamp. cbn [orb].
    apply has_char_false. intros [H|[]]. congruence.
Qed.

Lemma reference_is_decoded_witness :
  Html._html_to_text (u "Caf" ++ numeric_reference (u "0233") ++ u " <b>au</b> lait")
  = Html._html_to_text ((u "Caf" ++ [233%N]) ++ u " <b>au</b> lait").
Proof.
  apply (@reference_is_decoded
           (u "Caf") (u "0233") (u " <b>au</b> lait") 233%N).
  - reflexivity.
  - reflexivity.
  - discriminate.
  - unfold PyStr.int_max_str_digits. simpl. lia.
  - reflexivity.
  - lia.
  - discriminate.
  - discriminate.
Defined.

Example reference_decoded_text :
  Html._html_to_text (u "Caf" ++ numeric_reference (u "0233") ++ u " <b>au</b> lait")
  = Ok (u "Caf" ++ [233%N] ++ u " au lait").
Proof. vm_compute. reflexivity. Qed.

(** ** Tags *)

Lemma startswith_before_gt (w c r : str) :
  PyStr.has_char chr_gt w = false ->
  PyStr.startswith w (c ++ chr_gt :: r) = PyStr.startswith w c.
Proof.
  intros Hw. destruct (PyStr.startswith w c) eqn:E.
  - apply startswith_iff in E as [q ->]. rewrite <- app_assoc.
    apply startswith_self.
  - destruct (PyStr.startswith w (c ++ chr_gt :: r)) eqn:E'; [|reflexivity].
    apply startswith_app_cases in E' as [[q ->]|(q & -> & Hq & Hs)].
    + now rewrite startswith_self in E.
    + destruct q as [|x q]; [congruence|].
      cbn [PyStr.startswith] in Hs. apply andb_true_iff in Hs as [Hx _].
      apply N.eqb_eq in Hx. subst x.
      rewrite has_char_app in Hw. apply orb_false_iff in Hw as [_ Hw].
      unfold PyStr.has_char in Hw. cbn [existsb] in Hw.
      now rewrite N.eqb_refl in Hw.
Qed.

Lemma lit_before_gt (A : Type) (w c r : str) (k : Re.cont A) (x : A) :
  PyStr.has_char chr_gt w = false ->
  (forall n body, c = n ++ body -> k (body ++ chr_gt :: r) = Some x) ->
  Re.rmatch (Re.Lit w) (c ++ chr_gt :: r) k
  = if PyStr.startswith w c then Some x else None.
Proof.
  intros Hw Hk. rewrite rmatch_lit, startswith_before_gt by exact Hw.
  destruct (PyStr.startswith w c) eqn:E; [|reflexivity].
  apply startswith_iff in E as [q ->].
  rewrite <- app_assoc, skipn_app, skipn_all, Nat.sub_diag. cbn [app skipn].
  now apply (Hk w q).
Qed.

(** The names of the block pattern, tried on the text of a tag. *)
Lemma block_names_match (A : Type) (c r : str) (k : Re.cont A) (x : A) :
  (forall n body, c = n ++ body -> k (body ++ chr_gt :: r) = Some x) ->
  Re.rmatch
    (Re.Alts [Re.Lit (u "div"); Re.Lit (u "p");
              Re.Cat (Re.Chr 104) (Re.Cls PyStr.is_digit);
              Re.Lit (u "br"); Re.Lit (u "li"); Re.Lit (u "tr")])
    (c ++ chr_gt :: r) k
  = if opens_block c then Some x else None.
Proof.
  intros Hk. cbn [Re.Alts].
  cbn [Re.rmatch].
  change (Re.rmatch (A := A) (Re.Cat (Re.Chr 100) (Re.Lit (u "iv"))))
    with (Re.rmatch (A := A) (Re.Lit (u "div"))).
  change (Re.rmatch (A := A) (Re.Cat (Re.Chr 112) (Re.Lit [])))
    with (Re.rmatch (A := A) (Re.Lit (u "p"))).
  change (Re.rmatch (A := A) (Re.Cat (Re.Chr 98) (Re.Lit (u "r"))))
    with (Re.rmatch (A := A) (Re.Lit (u "br"))).
  change (Re.rmatch (A := A) (Re.Cat (Re.Chr 108) (Re.Lit (u "i"))))
    with (Re.rmatch (A := A) (Re.Lit (u "li"))).
  change (Re.rmatch (A := A) (Re.Cat (Re.Chr 116) (Re.Lit (u "r"))))
    with (Re.rmatch (A := A) (Re.Lit (u "tr"))).
  rewrite !(@lit_before_gt A _ c r k x) by (reflexivity || exact Hk).
  unfold opens_block.
  destruct (PyStr.startswith (u "div") c); [reflexivity|].
  destruct (PyStr.startswith (u "p") c); [reflexivity|].
  cbn [orb].
  assert (Hh : (match c ++ chr_gt :: r with
                | [] => None
                | x0 :: s' =>
                    if N.eqb x0 104
                    then match s' with
                         | [] => None
                         | x1 :: s'0 => if PyStr.is_digit x1 then k s'0 else None
                         end
                    else None
                end)
               = if match c with
                    | h :: d :: _ => N.eqb h 104 && PyStr.is_digit d
                    | _ => false
                    end
                 then Some x else None).
  { destruct c as [|h [|d c']]; cbn [app].
    - reflexivity.
    - destruct (N.eqb h 104); reflexivity.
    - destruct (N.eqb h 104); [|reflexivity].
      destruct (PyStr.is_digit d); [|reflexivity].
      cbn [andb]. apply (Hk [h; d] c' eq_refl). }
  rewrite Hh.
  destruct (match c with
            | h :: d :: _ => N.eqb h 104 && PyStr.is_digit d
            | _ => false
            end); [reflexivity|].
  cbn [orb].
  destruct (PyStr.startswith (u "br") c); [reflexivity|].
  destruct (PyStr.startswith (u "li") c); [reflexivity|].
  destruct (PyStr.startswith (u "tr") c); reflexivity.
Qed.

(** The block pattern at a tag: it takes the whole tag when the text of
    the tag opens with one of its names, and nothing otherwise. *)
Lemma block_at_tag (c rest : str) :
  PyStr.has_char chr_gt c = false ->
  Re.match_here Html.block_re false (tag c ++ rest)
  = if opens_block c then Some (List.length (tag c)) else None.
Proof.
  intros Hc. unfold Re.match_here, Html.block_re, tag.
  cbn [Re.Seq app]. rewrite <- app_assoc. cbn [app].
  change (Re.rmatch (Re.Cat (Re.Chr chr_lt) ?r) (chr_lt :: ?s) ?k)
    with (if N.eqb chr_lt chr_lt then Re.rmatch r s k else None).
  rewrite N.eqb_refl.
  change (Re.rmatch (Re.Cat ?r1 ?r2) ?s ?k)
    with (Re.rmatch r1 s (fun s1 => Re.rmatch r2 s1 k)).
  apply block_names_match.
  intros n body ->.
  cbn [Re.rmatch].
  apply lazy_star_skip with (p := fun x => negb (N.eqb x chr_gt)).
  - apply one_char_cls.
  - rewrite N.eqb_refl. cbn [andb List.length].
    rewrite !length_app. cbn [List.length]. f_equal. lia.
  - apply forallb_forall. intros x Hx. apply negb_true_iff, N.eqb_neq.
    intros ->. apply has_char_false in Hc. apply Hc.
    apply in_or_app. now right.
  - intros a1 a2 E Hne. destruct a2 as [|d a2]; [congruence|]. cbn [app].
    assert (Hd : N.eqb d chr_gt = false).
    { apply N.eqb_neq. intros ->. apply has_char_false in Hc. apply Hc.
      rewrite E. apply in_or_app. right. apply in_or_app. right. now left. }
    now rewrite Hd.
  - lia.
Qed.

(** A tag at which the pattern does not match is copied. *)
Lemma sub_tag_copy (r : Re.regex) (t pre c post : str) :
  first_char_is chr_lt r = true ->
  PyStr.has_char chr_lt pre = false ->
  PyStr.has_char chr_lt c = false ->
  Re.match_here r false (tag c ++ post) = None ->
  exists b', Re.sub r t post = Ok b'
             /\ Re.sub r t (pre ++ tag c ++ post) = Ok (pre ++ tag c ++ b').
Proof.
  intros Hr Hpre Hc Hnone. unfold Re.sub.
  rewrite sub_with_prefix with (c := chr_lt) by assumption.
  destruct (sub_loop_const_ok r t post 0) as [b' E].
  exists b'. unfold Re.sub_with. split; [exact E|].
  rewrite sub_loop_copy, E; [reflexivity|].
  intros a1 a2 Ea Hne. destruct a1 as [|x a1].
  - cbn [app] in Ea. now subst a2.
  - unfold tag in Ea. cbn [app] in Ea. inversion Ea as [[Hx Ht]].
    apply first_char_prefix with (c := chr_lt) (a := c ++ [chr_gt]) (a1 := a1);
      try assumption.
    rewrite has_char_app, Hc. reflexivity.
Qed.

(** A tag that the pattern takes whole is replaced. *)
Lemma sub_tag_hit (r : Re.regex) (t pre c post : str) :
  first_char_is chr_lt r = true ->
  PyStr.has_char chr_lt pre = false ->
  Re.match_here r false (tag c ++ post) = Some (List.length (tag c)) ->
  exists b', Re.sub r t post = Ok b'
             /\ Re.sub r t (pre ++ tag c ++ post) = Ok (pre ++ t ++ b').
Proof.
  intros Hr Hpre Hm. unfold Re.sub.
  rewrite sub_with_prefix with (c := chr_lt) by assumption.
  destruct (sub_loop_const_ok r t post 0) as [b' E].
  exists b'. unfold Re.sub_with. split; [exact E|].
  rewrite sub_loop_hit by (exact Hm || discriminate).
  cbn [bind]. now rewrite E.
Qed.

Lemma script_not_at_tag (open close c post : str) :
  PyStr.has_char chr_gt open = false ->
  PyStr.startswith open c = false ->
  Re.match_here (element_re (chr_lt :: open) close) false (tag c ++ post) = None.
Proof.
  intros Ho Hc. apply element_no_match. unfold tag.
  cbn [app PyStr.startswith]. rewrite N.eqb_refl. cbn [andb].
  rewrite <- app_assoc. cbn [app].
  now rewrite startswith_before_gt.
Qed.

(** In front of the step for white space, the step for newlines changes
    nothing. *)
Lemma collapse_newlines_first (s : str) :
  forall b b' : bool,
    (b' = true -> b = true) ->
    collapse PyStr.is_space chr_space b (collapse is_newline chr_nl b' s)
    = collapse PyStr.is_space chr_space b s.
Proof.
  induction s as [|c s IH]; intros b b' Hb; [reflexivity|].
  cbn [collapse]. unfold is_newline at 1.
  destruct (N.eqb c chr_nl) eqn:Ec.
  - apply N.eqb_eq in Ec. subst c.
    change (PyStr.is_space chr_nl) with true. cbv iota.
    destruct b'.
    + rewrite (Hb eq_refl). now apply IH.
    + cbn [collapse]. change (PyStr.is_space chr_nl) with true. cbv iota.
      destruct b; [|f_equal]; now apply IH.
  - cbn [collapse].
    destruct (PyStr.is_space c); [destruct b; [|f_equal]|f_equal];
      apply IH; discriminate.
Qed.

(** One white-space character is as good as another. *)
Lemma collapse_any_space (w w' : N) (x y : str) :
  PyStr.is_space w = true -> PyStr.is_space w' = true ->
  forall b,
    collapse PyStr.is_space chr_space b (x ++ w :: y)
    = collapse PyStr.is_space chr_space b (x ++ w' :: y).
Proof.
  intros Hw Hw'. induction x as [|c x IH]; intros b; cbn [app collapse].
  - now rewrite Hw, Hw'.
  - destruct (PyStr.is_space c); [destruct b|]; now rewrite IH.
Qed.

Lemma last_steps_any_space (x y : str) :
  (html_content <- Re.sub Html.newlines_re [chr_nl] (x ++ chr_nl :: y) ;;
   html_content <- Re.sub Html.spaces_re (u " ") html_content ;;
   Ok (PyStr.strip html_content))
  = (html_content <- Re.sub Html.newlines_re [chr_nl] (x ++ chr_space :: y) ;;
     html_content <- Re.sub Html.spaces_re (u " ") html_content ;;
     Ok (PyStr.strip html_content)).
Proof.
  rewrite !sub_newlines. cbn [bind]. rewrite !sub_spaces. cbn [bind].
  rewrite !collapse_newlines_first by discriminate.
  now rewrite (@collapse_any_space chr_nl chr_space x y eq_refl eq_refl).
Qed.

(** X12. A tag that opens with a name of the block pattern separates
    words: the result is that of the text with one space in place of the
    tag. This holds for every tag whose text starts with [div], [p], [h]
    and a digit, [br], [li] or [tr], whatever follows the name. *)
Theorem block_tag_is_a_space (pre c post : str) :
  PyStr.has_char chr_lt pre = false ->
  PyStr.has_char chr_amp pre = false ->
  PyStr.has_char chr_lt c = false ->
  PyStr.has_char chr_gt c = false ->
  opens_block c = true ->
  Html._html_to_text (pre ++ tag c ++ post)
  = Html._html_to_text (pre ++ u " " ++ post).
Proof.
  intros Hlt Hamp Hc1 Hc2 Hb.
  assert (Hs : PyStr.startswith (u "script") c = false
               /\ PyStr.startswith (u "style") c = false).
  { destruct c as [|c0 c]; [split; reflexivity|].
    destruct (N.eqb c0 115) eqn:E.
    - apply N.eqb_eq in E. subst c0. destruct c as [|c1 c]; discriminate Hb.
    - cbn [PyStr.startswith]. change (u "script") with (115%N :: u "cript").
      change (u "style") with (115%N :: u "tyle").
      cbn [PyStr.startswith]. rewrite N.eqb_sym, E. split; reflexivity. }
  destruct Hs as [Hs1 Hs2].
  destruct (@sub_tag_copy Html.script_re (u " ") pre c post eq_refl Hlt Hc1)
    as (b1 & E1 & E1').
  { now apply (@script_not_at_tag (u "script") (u "</script>")). }
  destruct (@sub_tag_copy Html.style_re (u " ") pre c b1 eq_refl Hlt Hc1)
    as (b2 & E2 & E2').
  { now apply (@script_not_at_tag (u "style") (u "</style>")). }
  destruct (@sub_tag_hit Html.block_re [chr_nl] pre c b2 eq_refl Hlt)
    as (b3 & E3 & E3').
  { now rewrite block_at_tag, Hb. }
  assert (Hsp : PyStr.has_char chr_lt (pre ++ u " ") = false)
    by (now rewrite has_char_app, Hlt).
  destruct (@sub_prefix chr_lt Html.script_re (u " ") (pre ++ u " ") post eq_refl Hsp)
    as (c1 & F1 & F1').
  rewrite E1 in F1. inversion F1; subst c1.
  destruct (@sub_prefix chr_lt Html.style_re (u " ") (pre ++ u " ") b1 eq_refl Hsp)
    as (c2 & F2 & F2').
  rewrite E2 in F2. inversion F2; subst c2.
  destruct (@sub_prefix chr_lt Html.block_re [chr_nl] (pre ++ u " ") b2 eq_refl Hsp)
    as (c3 & F3 & F3').
  rewrite E3 in F3. inversion F3; subst c3.
  unfold Html._html_to_text.
  rewrite E1'. rewrite (app_assoc pre (u " ") post), F1'. cbn [bind].
  rewrite E2', F2'. cbn [bind]. rewrite E3', F3'. cbn [bind].
  rewrite (app_assoc pre [chr_nl] b3).
  rewrite !replace_entities_prefix by (now rewrite has_char_app, Hamp).
  rewrite !(@sub_with_prefix chr_amp Html.numeric_re Html.numeric_repl)
    by (reflexivity || now rewrite has_char_app, Hamp).
  destruct (Re.sub_with Html.numeric_re Html.numeric_repl
              (Html.replace_entities b3)) as [b5|e]; cbn [bind]; [|reflexivity].
  destruct (@sub_prefix chr_lt Html.tag_re [] (pre ++ [chr_nl]) b5 eq_refl)
    as (b6 & E6 & E6'); [now rewrite has_char_app, Hlt|].
  destruct (@sub_prefix chr_lt Html.tag_re [] (pre ++ u " ") b5 eq_refl Hsp)
    as (c6 & F6 & F6').
  rewrite E6 in F6. inversion F6; subst c6.
  rewrite E6', F6'. cbn [bind].
  rewrite <- !app_assoc. apply last_steps_any_space.
Qed.

Lemma block_tag_is_a_space_witness :
  Html._html_to_text (u "one" ++ tag (u "link rel='x' href='a&b'") ++ u "two<li>")
  = Html._html_to_text (u "one" ++ u " " ++ u "two<li>").
Proof.
  apply (@block_tag_is_a_space
           (u "one") (u "link rel='x' href='a&b'") (u "two<li>"));
    reflexivity.
Defined.

(** X13. Any other tag vanishes without a trace, so that the words on its
    two sides are joined: the result is that of the text without the tag.
    The tag holds no [<], [>] or [&], and does not open with [script] or
    [style]. *)
Theorem other_tag_vanishes (pre c post : str) :
  PyStr.has_char chr_lt pre = false ->
  PyStr.has_char chr_amp pre = false ->
  PyStr.has_char chr_lt c = false ->
  PyStr.has_char chr_gt c = false ->
  PyStr.has_char chr_amp c = false ->
  opens_block c = false ->
  PyStr.startswith (u "script") c = false ->
  PyStr.startswith (u "style") c = false ->
  Html._html_to_text (pre ++ tag c ++ post)
  = Html._html_to_text (pre ++ post).
Proof.
  intros Hlt Hamp Hc1 Hc2 Hc3 Hb Hs1 Hs2.
  destruct (@sub_tag_copy Html.script_re (u " ") pre c post eq_refl Hlt Hc1)
    as (b1 & E1 & E1').
  { now apply (@script_not_at_tag (u "script") (u "</script>")). }
  destruct (@sub_tag_copy Html.style_re (u " ") pre c b1 eq_refl Hlt Hc1)
    as (b2 & E2 & E2').
  { now apply (@script_not_at_tag (u "style") (u "</style>")). }
  destruct (@sub_tag_copy Html.block_re [chr_nl] pre c b2 eq_refl Hlt Hc1)
    as (b3 & E3 & E3').
  { now rewrite block_at_tag, Hb. }
  destruct (@sub_prefix chr_lt Html.script_re (u " ") pre post eq_refl Hlt)
    as (c1 & F1 & F1').
  rewrite E1 in F1. inversion F1; subst c1.
  destruct (@sub_prefix chr_lt Html.style_re (u " ") pre b1 eq_refl Hlt)
    as (c2 & F2 & F2').
  rewrite E2 in F2. inversion F2; subst c2.
  destruct (@sub_prefix chr_lt Html.block_re [chr_nl] pre b2 eq_refl Hlt)
    as (c3 & F3 & F3').
  rewrite E3 in F3. inversion F3; subst c3.
  unfold Html._html_to_text.
  rewrite E1', F1'. cbn [bind]. rewrite E2', F2'. cbn [bind].
  rewrite E3', F3'. cbn [bind].
  assert (Ht : PyStr.has_char chr_amp (pre ++ tag c) = false).
  { unfold tag. rewrite has_char_app, Hamp. cbn [orb].
    change (chr_lt :: c ++ [chr_gt]) with ([chr_lt] ++ c ++ [chr_gt]).
    now rewrite !has_char_app, Hc3. }
  rewrite (app_assoc pre (tag c) b3).
  rewrite (@replace_entities_prefix (pre ++ tag c) b3 Ht).
  rewrite (@replace_entities_prefix pre b3 Hamp).
  rewrite (@sub_with_prefix chr_amp Html.numeric_re Html.numeric_repl
             (pre ++ tag c) _ eq_refl Ht).
  rewrite (@sub_with_prefix chr_amp Html.numeric_re Html.numeric_repl
             pre _ eq_refl Hamp).
  destruct (Re.sub_with Html.numeric_re Html.numeric_repl
              (Html.replace_entities b3)) as [b5|e]; cbn [bind]; [|reflexivity].
  destruct (@sub_tag_hit Html.tag_re [] pre c b5 eq_refl Hlt)
    as (b6 & E6 & E6').
  { unfold tag. now apply tag_match. }
  destruct (@sub_prefix chr_lt Html.tag_re [] pre b5 eq_refl Hlt)
    as (c6 & F6 & F6').
  rewrite E6 in F6. inversion F6; subst c6.
  rewrite <- app_assoc, E6', F6'. reflexivity.
Qed.

Lemma other_tag_vanishes_witness :
  Html._html_to_text (u "1" ++ tag (u "/td") ++ u "<td>2</td>")
  = Html._html_to_text (u "1" ++ u "<td>2</td>").
Proof.
  apply (@other_tag_vanishes (u "1") (u "/td") (u "<td>2</td>"));
    reflexivity.
Defined.

(** Cells of a table row run together, list items do not. *)
Example cells_run_together :
  Html._html_to_text (u "<td>1</td><td>2</td>") = Ok (u "12")
  /\ Html._html_to_text (u "<li>1</li><li>2</li>") = Ok (u "1 2").
Proof. split; vm_compute; reflexivity. Qed.

(** ** Attachments *)

Lemma walk_multipart (t : str) (d : option str) (ps : list Message) :
  walk (Multipart t d ps) = Multipart t d ps :: flat_map walk ps.
Proof.
  destruct ps; reflexivity.
Qed.

(** The container of a multipart message adds nothing to the buffers. *)
Lemma collect_part_container (buffers : str * str) (t : str) (d : option str)
      (ps : list Message) :
  collect_part buffers (Multipart t d ps) = buffers.
Proof.
  destruct buffers as [plain html]. unfold collect_part.
  cbn [get_content_type get_content_disposition get_payload_decoded
       nonempty_payload].
  destruct (PyStr.contains _ _); [reflexivity|].
  destruct (str_eqb t (u "text/plain")); [reflexivity|].
  destruct (str_eqb t (u "text/html")); reflexivity.
Qed.

(** X14. In a multipart message a part that is not itself multipart and
    whose [Content-Disposition] holds the word attachment adds nothing to
    the content: the content is that of the message without this part. *)
Theorem attached_part_is_ignored
        (t : str) (d : option str) (ps1 ps2 : list Message)
        (att_type att_disposition : str) (payload : bytes)
        (plain_text_only : bool) :
  PyStr.contains (u "attachment") att_disposition = true ->
  _get_email_content
    (Multipart t d (ps1 ++ Leaf att_type (Some att_disposition) payload :: ps2))
    plain_text_only
  = _get_email_content (Multipart t d (ps1 ++ ps2)) plain_text_only.
Proof.
  intros Hatt. unfold _get_email_content.
  replace (collect (Multipart t d
                      (ps1 ++ Leaf att_type (Some att_disposition) payload :: ps2)))
    with (collect (Multipart t d (ps1 ++ ps2))); [reflexivity|].
  unfold collect. cbn [is_multipart]. rewrite !walk_multipart.
  cbn [fold_left]. rewrite !collect_part_container.
  rewrite !flat_map_app. cbn [flat_map walk app].
  rewrite !fold_left_app. cbn [fold_left].
  f_equal.
  destruct (fold_left collect_part (flat_map walk ps1) ([], [])) as [plain html].
  unfold collect_part.
  cbn [get_content_disposition str_of_header]. now rewrite Hatt.
Qed.

Lemma attached_part_is_ignored_witness :
  _get_email_content
    (Multipart (u "multipart/mixed") None
       ([Leaf (u "text/plain") None (b "see the file")]
          ++ Leaf (u "text/plain") (Some (u "attachment; filename=notes.txt"))
                  (b "the notes")
          :: []))
    false
  = _get_email_content
      (Multipart (u "multipart/mixed") None
         ([Leaf (u "text/plain") None (b "see the file")] ++ []))
      false.
Proof.
  apply (@attached_part_is_ignored
           (u "multipart/mixed") None
           [Leaf (u "text/plain") None (b "see the file")] []
           (u "text/plain") (u "attachment; filename=notes.txt")
           (b "the notes") false).
  reflexivity.
Defined.

(** The test is made on each part of a multipart message only: the parts
    of an attached multipart part are read, and so is a message that is
    one attached part. *)
Example attachments_that_are_read :
  _get_email_content
    (Multipart (u "multipart/mixed") None
       [Multipart (u "multipart/alternative") (Some (u "attachment"))
          [Leaf (u "text/plain") None (b "inner text")]])
    false
  = Ok (u "inner text")
  /\ _get_email_content
       (Leaf (u "text/plain") (Some (u "attachment; filename=a.txt"))
             (b "the file"))
       false
     = Ok (u "the file").
Proof. split; vm_compute; reflexivity. Qed.

(** * Further properties: the export service *)

Lemma disconnect_outcome (self : Connector) (t : list Command) :
  disconnect self t
  = (Ok tt, t ++ match imap self with
                 | None => []
                 | Some h => closing h
                 end).
Proof.
  unfold disconnect, closing, try_except, iobind, send, ret.
  destruct (imap self) as [h|]; simpl.
  - destruct (close_reply h) as [[]|e]; simpl.
    + destruct (logout_reply h) as [[]|e']; now rewrite <- app_assoc.
    + reflexivity.
  - now rewrite app_nil_r.
Qed.

Lemma connect_outcome (network : str -> Z -> Result Server) (self : Connector)
      (t : list Command) :
  connect network self t
  = match network (imap_server self) (imap_port self) with
    | Raise _ => (Ok (false, self), t)
    | Ok h =>
        (Ok (match login_reply h (username self) (password self) with
             | Ok _ => true
             | Raise _ => false
             end, with_handle self h),
         t ++ [LOGIN (username self) (password self)])
    end.
Proof.
  unfold connect. destruct (network _ _) as [h|e]; [|reflexivity].
  unfold try_except, iobind, send, ret, with_handle.
  destruct (login_reply h _ _) as [[]|e]; reflexivity.
Qed.

Lemma fetch_loop_reads (lower : str -> str) (h : Server) (pto : bool)
      (ex : list str) (ids : list bytes) :
  forall emails t,
  exists cmds,
    snd (fetch_loop lower h pto ex ids emails t) = t ++ cmds
    /\ forallb reads_mailbox cmds = true.
Proof.
  induction ids as [|email_id ids IH]; intros emails t.
  - exists []. cbn. now rewrite app_nil_r.
  - cbn [fetch_loop]. unfold iobind.
    pose proof (fetch_one_trace lower h pto ex email_id t) as Ht.
    destruct (fetch_one lower h pto ex email_id t) as [[r|e] t1];
      cbn [snd] in Ht; subst t1.
    + destruct (IH (match r with
                    | Some email_data => emails ++ [email_data]
                    | None => emails
                    end) (t ++ [fetch_command email_id])) as (cmds & E & Hc).
      exists (fetch_command email_id :: cmds). rewrite E, <- app_assoc.
      split; [reflexivity|]. cbn [forallb]. now rewrite Hc.
    + exists [fetch_command email_id]. split; reflexivity.
Qed.

(** [fetch_emails] sends nothing but commands that read the mailbox. *)
Lemma fetch_emails_reads (lower : str -> str) (self : Connector)
      (limit : option Z) (pto : bool) (ex : option (list str))
      (t : list Command) :
  exists cmds,
    snd (fetch_emails lower self limit pto ex t) = t ++ cmds
    /\ forallb reads_mailbox cmds = true.
Proof.
  unfold fetch_emails. destruct (imap self) as [h|].
  - unfold iobind at 1. unfold send at 1.
    destruct (select_reply h) as [status|e].
    + destruct (negb (str_eqb status (u "OK"))).
      * exists [SELECT (u "INBOX")]. split; reflexivity.
      * unfold iobind at 1. unfold send at 1.
        destruct (search_reply h) as [[status' message_ids]|e].
        -- destruct (negb (str_eqb status' (u "OK"))).
           ++ exists [SELECT (u "INBOX"); SEARCH (u "ALL")].
              cbn. now rewrite <- app_assoc.
           ++ destruct (fetch_loop_reads lower h pto
                          (match ex with Some l => l | None => [] end)
                          (apply_limit limit (bytes_split message_ids)) []
                          ((t ++ [SELECT (u "INBOX")]) ++ [SEARCH (u "ALL")]))
                as (cmds & E & Hc).
              exists (SELECT (u "INBOX") :: SEARCH (u "ALL") :: cmds).
              rewrite E, <- !app_assoc. split; [reflexivity|].
              cbn [forallb reads_mailbox andb]. exact Hc.
        -- exists [SELECT (u "INBOX"); SEARCH (u "ALL")].
           cbn. now rewrite <- app_assoc.
    + exists [SELECT (u "INBOX")]. split; reflexivity.
  - exists []. cbn. now rewrite app_nil_r.
Qed.

(** The records do not depend on what was sent before. *)
Lemma fetch_emails_result (lower : str -> str) (self : Connector)
      (limit : option Z) (pto : bool) (ex : option (list str))
      (t t0 : list Command) :
  fst (fetch_emails lower self limit pto ex t)
  = fst (fetch_emails lower self limit pto ex t0).
Proof.
  unfold fetch_emails. destruct (imap self) as [h|]; [|reflexivity].
  unfold iobind, send.
  destruct (select_reply h) as [status|e]; [|reflexivity].
  destruct (negb (str_eqb status (u "OK"))); [reflexivity|].
  destruct (search_reply h) as [[status' message_ids]|e]; [|reflexivity].
  destruct (negb (str_eqb status' (u "OK"))); [reflexivity|].
  apply fetch_loop_result.
Qed.

(** The whole of [export_emails], case by case. *)
Lemma export_outcome (lower : str -> str) (network : str -> Z -> Result Server)
      (self : EmailExportService.Service) (output_path : str)
      (limit : option Z) (pto : bool) (ex : option (list str))
      (t : list Command) :
  let c0 := EmailExportService.connector self in
  EmailExportService.export_emails lower network self output_path limit pto ex t
  = match network (imap_server c0) (imap_port c0) with
    | Raise _ => (Ok (false, c0), t)
    | Ok h =>
        let c := with_handle c0 h in
        let t1 := t ++ [LOGIN (username c0) (password c0)] in
        match login_reply h (username c0) (password c0) with
        | Raise _ => (Ok (false, c), t1)
        | Ok _ =>
            (Ok (match fst (fetch_emails lower c limit pto ex t1) with
                 | Ok emails =>
                     match EmailExportService.exporter self emails output_path with
                     | Ok result => result
                     | Raise _ => false
                     end
                 | Raise _ => false
                 end, c),
             snd (fetch_emails lower c limit pto ex t1) ++ closing h)
        end
    end.
Proof.
  intros c0. unfold EmailExportService.export_emails. fold c0.
  rewrite connect_outcome.
  destruct (network (imap_server c0) (imap_port c0)) as [h|e]; [|reflexivity].
  cbv zeta.
  destruct (login_reply h (username c0) (password c0)) as [[]|e]; [|reflexivity].
  unfold try_except, EmailExportService.on_error, iobind, lift, ret.
  destruct (fetch_emails lower (with_handle c0 h) limit pto ex
              (t ++ [LOGIN (username c0) (password c0)])) as [[emails|e] t2];
    cbn [fst snd].
  - destruct (EmailExportService.exporter self emails output_path) as [result|e];
      now rewrite disconnect_outcome.
  - now rewrite disconnect_outcome.
Qed.

(** X16. [export_emails] never raises: whatever the network, the server,
    the messages and the exporter do, it returns a truth value. *)
Theorem export_never_raises
        (lower : str -> str) (network : str -> Z -> Result Server)
        (self : EmailExportService.Service) (output_path : str)
        (limit : option Z) (plain_text_only : bool)
        (exclude_senders : option (list str)) (t : list Command) :
  exists result c t',
    EmailExportService.export_emails lower network self output_path limit
                                     plain_text_only exclude_senders t
    = (Ok (result, c), t').
Proof.
  rewrite export_outcome. cbv zeta.
  destruct (network _ _) as [h|e]; [|eauto].
  destruct (login_reply h _ _) as [[]|e]; eauto.
Qed.

(** X17. After a login that succeeded the session is closed exactly once,
    in every case: between LOGIN and the end only commands that read the
    mailbox are sent, and the end is CLOSE followed by LOGOUT, or CLOSE
    alone when CLOSE raises. *)
Theorem export_closes_the_session
        (lower : str -> str) (network : str -> Z -> Result Server)
        (self : EmailExportService.Service) (output_path : str)
        (limit : option Z) (plain_text_only : bool)
        (exclude_senders : option (list str)) (t : list Command)
        (h : Server) :
  let c0 := EmailExportService.connector self in
  network (imap_server c0) (imap_port c0) = Ok h ->
  login_reply h (username c0) (password c0) = Ok tt ->
  exists result cmds,
    EmailExportService.export_emails lower network self output_path limit
                                     plain_text_only exclude_senders t
    = (Ok (result, with_handle c0 h),
       t ++ LOGIN (username c0) (password c0) :: cmds ++ closing h)
    /\ forallb reads_mailbox cmds = true.
Proof.
  intros c0 Hnet Hlogin. rewrite export_outcome. fold c0.
  rewrite Hnet. cbv zeta. rewrite Hlogin.
  destruct (fetch_emails_reads lower (with_handle c0 h) limit plain_text_only
              exclude_senders (t ++ [LOGIN (username c0) (password c0)]))
    as (cmds & E & Hc).
  eexists. exists cmds. split; [|exact Hc].
  rewrite E. f_equal. rewrite <- !app_assoc. reflexivity.
Qed.

Lemma export_closes_the_session_witness :
  exists result cmds,
    EmailExportService.export_emails
      ascii_lower (fun _ _ => Ok overflow_server) gmail_service
      (u "out.json") None false None []
    = (Ok (result, with_handle (GmailConnector (u "me") (u "secret")) overflow_server),
       [] ++ LOGIN (u "me") (u "secret") :: cmds ++ closing overflow_server)
    /\ forallb reads_mailbox cmds = true.
Proof.
  apply (@export_closes_the_session
           ascii_lower (fun _ _ => Ok overflow_server) gmail_service
           (u "out.json") None false None [] overflow_server);
    reflexivity.
Defined.

(** X18. After a login that failed the connection that was opened is
    left as it is: [export_emails] returns [False], the handle stays in
    the connector, and neither CLOSE nor LOGOUT is sent. *)
Theorem failed_login_is_left_open
        (lower : str -> str) (network : str -> Z -> Result Server)
        (self : EmailExportService.Service) (output_path : str)
        (limit : option Z) (plain_text_only : bool)
        (exclude_senders : option (list str)) (t : list Command)
        (h : Server) (e : Exn) :
  let c0 := EmailExportService.connector self in
  network (imap_server c0) (imap_port c0) = Ok h ->
  login_reply h (username c0) (password c0) = Raise e ->
  EmailExportService.export_emails lower network self output_path limit
                                   plain_text_only exclude_senders t
  = (Ok (false, with_handle c0 h), t ++ [LOGIN (username c0) (password c0)]).
Proof.
  intros c0 Hnet Hlogin. rewrite export_outcome. fold c0.
  rewrite Hnet. cbv zeta. now rewrite Hlogin.
Qed.

Lemma failed_login_is_left_open_witness :
  EmailExportService.export_emails
    ascii_lower (fun _ _ => Ok locked_server) gmail_service
    (u "out.json") None false None []
  = (Ok (false, with_handle (GmailConnector (u "me") (u "secret")) locked_server),
     [] ++ [LOGIN (u "me") (u "secret")]).
Proof.
  apply (@failed_login_is_left_open
           ascii_lower (fun _ _ => Ok locked_server) gmail_service
           (u "out.json") None false None [] locked_server ServerError);
    reflexivity.
Defined.

(** X19. A mailbox that the server refuses to select or to search is
    exported as the empty list: the exporter is given no record, and its
    answer is the answer of [export_emails]. *)
Theorem refused_mailbox_is_exported_empty
        (lower : str -> str) (network : str -> Z -> Result Server)
        (self : EmailExportService.Service) (output_path : str)
        (limit : option Z) (plain_text_only : bool)
        (exclude_senders : option (list str)) (t : list Command)
        (h : Server) (status : str) (result : bool) :
  let c0 := EmailExportService.connector self in
  network (imap_server c0) (imap_port c0) = Ok h ->
  login_reply h (username c0) (password c0) = Ok tt ->
  (select_reply h = Ok status
   \/ (select_reply h = Ok (u "OK")
       /\ exists message_ids, search_reply h = Ok (status, message_ids))) ->
  status <> u "OK" ->
  EmailExportService.exporter self [] output_path = Ok result ->
  fst (EmailExportService.export_emails lower network self output_path limit
                                        plain_text_only exclude_senders t)
  = Ok (result, with_handle c0 h).
Proof.
  intros c0 Hnet Hlogin Hrefused Hstatus Hexp. rewrite export_outcome. fold c0.
  rewrite Hnet. cbv zeta. rewrite Hlogin. cbn [fst].
  assert (Hs : negb (str_eqb status (u "OK")) = true)
    by (now rewrite str_eqb_neq).
  assert (Hf : fst (fetch_emails lower (with_handle c0 h) limit plain_text_only
                                 exclude_senders
                                 (t ++ [LOGIN (username c0) (password c0)]))
               = Ok []).
  { unfold fetch_emails, with_handle. cbn [imap].
    unfold iobind at 1. unfold send at 1.
    destruct Hrefused as [Hsel|[Hsel [message_ids Hsearch]]]; rewrite Hsel.
    - now rewrite Hs.
    - rewrite str_eqb_refl. cbn [negb].
      unfold iobind at 1. unfold send at 1. rewrite Hsearch.
      now rewrite Hs. }
  now rewrite Hf, Hexp.
Qed.

Lemma refused_mailbox_is_exported_empty_witness :
  fst (EmailExportService.export_emails
         ascii_lower (fun _ _ => Ok rejecting_server) gmail_service
         (u "out.json") None false None [])
  = Ok (true, with_handle (GmailConnector (u "me") (u "secret")) rejecting_server).
Proof.
  apply (@refused_mailbox_is_exported_empty
           ascii_lower (fun _ _ => Ok rejecting_server) gmail_service
           (u "out.json") None false None [] rejecting_server (u "NO") true).
  - reflexivity.
  - reflexivity.
  - left. reflexivity.
  - discriminate.
  - reflexivity.
Defined.

(** X20. The answer of [export_emails] is [True] exactly when the
    connection was opened, the login succeeded, the messages were fetched
    without an exception, and the exporter, given their records, answered
    [True]. *)
Theorem success_means_exported
        (lower : str -> str) (network : str -> Z -> Result Server)
        (self : EmailExportService.Service) (output_path : str)
        (limit : option Z) (plain_text_only : bool)
        (exclude_senders : option (list str)) (t : list Command)
        (result : bool) (c : Connector) :
  let c0 := EmailExportService.connector self in
  fst (EmailExportService.export_emails lower network self output_path limit
                                        plain_text_only exclude_senders t)
  = Ok (result, c) ->
  (result = true <->
   exists h emails,
     network (imap_server c0) (imap_port c0) = Ok h
     /\ login_reply h (username c0) (password c0) = Ok tt
     /\ c = with_handle c0 h
     /\ fst (fetch_emails lower c limit plain_text_only exclude_senders [])
        = Ok emails
     /\ EmailExportService.exporter self emails output_path = Ok true).
Proof.
  intros c0. rewrite export_outcome. fold c0. cbv zeta.
  destruct (network (imap_server c0) (imap_port c0)) as [h|e].
  - destruct (login_reply h (username c0) (password c0)) as [[]|e] eqn:El.
    + cbn [fst].
      rewrite (fetch_emails_result lower (with_handle c0 h)
                 limit plain_text_only exclude_senders
                 (t ++ [LOGIN (username c0) (password c0)]) []).
      intros H. injection H as Hr Hc. subst c. split.
      * intros ->. exists h.
        destruct (fst (fetch_emails lower (with_handle c0 h)
                         limit plain_text_only exclude_senders []))
          as [emails|e]; [|discriminate].
        exists emails.
        destruct (EmailExportService.exporter self emails output_path)
          as [[]|e]; [|discriminate|discriminate].
        repeat split. exact El.
      * intros (h' & emails & Hh & _ & _ & Hf & He).
        injection Hh as <-. rewrite Hf, He in Hr. now symmetry.
    + cbn [fst]. intros H. injection H as Hr Hc. subst. split; [discriminate|].
      intros (h' & emails & Hh & Hl & _). injection Hh as <-. congruence.
  - cbn [fst]. intros H. injection H as Hr Hc. subst. split; [discriminate|].
    intros (h' & emails & Hh & _). discriminate.
Qed.

Lemma success_means_exported_witness :
  true = true <->
  exists h emails,
    (fun _ _ => Ok five_message_server)
      (imap_server (EmailExportService.connector gmail_service))
      (imap_port (EmailExportService.connector gmail_service))
    = Ok h
    /\ login_reply h (username (EmailExportService.connector gmail_service))
                   (password (EmailExportService.connector gmail_service))
       = Ok tt
    /\ with_handle (GmailConnector (u "me") (u "secret")) five_message_server
       = with_handle (EmailExportService.connector gmail_service) h
    /\ fst (fetch_emails ascii_lower
              (with_handle (GmailConnector (u "me") (u "secret")) five_message_server)
              (Some 2%Z) false None [])
       = Ok emails
    /\ EmailExportService.exporter gmail_service emails (u "out.json") = Ok true.
Proof.
  apply (@success_means_exported
           ascii_lower (fun _ _ => Ok five_message_server) gmail_service
           (u "out.json") (Some 2%Z) false None [] true
           (with_handle (GmailConnector (u "me") (u "secret")) five_message_server)).
  vm_compute. reflexivity.
Defined.

(** With the exporter of the source the session is closed as well when
    the file cannot be written, and the answer is [False]. *)
Example unwritable_file :
  EmailExportService.export_emails
    ascii_lower (fun _ _ => Ok rejecting_server)
    {| EmailExportService.connector := GmailConnector (u "me") (u "secret");
       EmailExportService.exporter :=
         JsonEmailExporter.export (fun _ _ => Raise ServerError) |}
    (u "/out.json") None false None []
  = (Ok (false, with_handle (GmailConnector (u "me") (u "secret")) rejecting_server),
     [LOGIN (u "me") (u "secret"); SELECT (u "INBOX"); CLOSE; LOGOUT]).
Proof. vm_compute. reflexivity. Qed.

(** One message with a character reference out of range is enough for
    nothing to be exported. *)
Example one_message_fails_the_export :
  fst (EmailExportService.export_emails
         ascii_lower (fun _ _ => Ok overflow_server) gmail_service
         (u "out.json") None false None [])
  = Ok (false, with_handle (GmailConnector (u "me") (u "secret")) overflow_server).
Proof. vm_compute. reflexivity. Qed.

(** * Further properties: the fallback for an empty content *)

Lemma collect_part_skipped (part : Message) :
  (is_multipart part = false -> is_attachment part = true) ->
  forall buffers, collect_part buffers part = buffers.
Proof.
  intros Hpart buffers. destruct part as [ty d payload|ty d ps].
  - destruct buffers as [plain html]. unfold collect_part.
    unfold is_attachment in Hpart. now rewrite (Hpart eq_refl).
  - apply collect_part_container.
Qed.

Lemma collect_all_skipped (l : list Message) :
  (forall part, In part l -> is_multipart part = false -> is_attachment part = true) ->
  forall buffers, fold_left collect_part l buffers = buffers.
Proof.
  induction l as [|part l IH]; intros Hall buffers; [reflexivity|].
  cbn [fold_left]. rewrite collect_part_skipped.
  - apply IH. intros p Hp. apply Hall. now right.
  - apply Hall. now left.
Qed.

(** X15. The attachments that the content extraction skips come back
    through the fallback: for a multipart message all of whose parts are
    attachments, the content of the record is the decoded payloads of the
    attachments, joined by spaces and not cleaned, unless this text holds
    both a [<] and a [>]. *)
Theorem attachments_fill_an_empty_content
        (lower : str -> str) (h : Server) (plain_text_only : bool)
        (exclude_senders : list str) (email_id : bytes) (msg : Email)
        (id_text : str) (t : list Command) :
  fetch_reply h email_id = Ok (u "OK", msg) ->
  should_exclude lower exclude_senders (email_sender msg) = false ->
  Utf8.decode_strict email_id = Ok id_text ->
  is_multipart (email_body msg) = true ->
  (forall part, In part (walk (email_body msg)) ->
                is_multipart part = false -> is_attachment part = true) ->
  let combined := PyStr.join (u " ") (all_parts (email_body msg)) in
  PyStr.has_char chr_lt combined && PyStr.has_char chr_gt combined = false ->
  fst (fetch_one lower h plain_text_only exclude_senders email_id t)
  = Ok (Some {| id := id_text;
                subject := email_subject msg;
                from := email_sender msg;
                date := email_date msg;
                content := combined |}).
Proof.
  intros Hfetch Hex Hid Hmulti Hall combined Hmarkup.
  assert (Hcontent : _get_email_content (email_body msg) plain_text_only = Ok []).
  { unfold _get_email_content, collect. rewrite Hmulti.
    rewrite collect_all_skipped by exact Hall. reflexivity. }
  unfold fetch_one, iobind, send, lift, ret. rewrite Hfetch.
  rewrite str_eqb_refl. cbn [negb]. rewrite Hex, Hcontent, Hid. cbn [fst is_empty].
  do 3 f_equal. unfold fallback_content.
  revert Hmarkup. subst combined.
  destruct (all_parts (email_body msg)) as [|p parts]; intros Hmarkup.
  - reflexivity.
  - now rewrite Hmarkup.
Qed.

Lemma attachments_fill_an_empty_content_witness :
  fst (fetch_one ascii_lower attachment_server false [] (b "1") [])
  = Ok (Some {| id := u "1";
                subject := u "Your documents";
                from := u "hr@example.com";
                date := u "2024-01-02 03:04:05";
                content :=
                  PyStr.join (u " ") (all_parts attachment_only_message) |}).
Proof.
  apply (@attachments_fill_an_empty_content
           ascii_lower attachment_server false [] (b "1")
           {| email_subject := u "Your documents";
              email_sender := u "hr@example.com";
              email_date := u "2024-01-02 03:04:05";
              email_body := attachment_only_message |}
           (u "1") []).
  - reflexivity.
  - reflexivity.
  - reflexivity.
  - reflexivity.
  - intros part Hin Hleaf.
    cbn in Hin. destruct Hin as [<-|[<-|[<-|[]]]];
      [discriminate Hleaf|reflexivity|reflexivity].
  - reflexivity.
Defined.

Example attachment_text_is_the_content :
  PyStr.join (u " ") (all_parts attachment_only_message)
  = u "name,  score" ++ [chr_nl] ++ u "Ann,   7   second   file".
Proof. vm_compute. reflexivity. Qed.

(** * Further properties: the exclusion file *)

Lemma strip_trimmed (s : str) : trimmed (PyStr.strip s).
Proof.
  unfold PyStr.strip. split.
  - intros c r E.
    apply (@lstrip_head (PyStr.rstrip (PyStr.lstrip s)) [] r c).
    rewrite rstrip_keeps_head by apply lstrip_idem. exact E.
  - intros a c E. now apply (@rstrip_last (PyStr.lstrip s) a c).
Qed.

Lemma load_exclusion_list_in (lines : list str) (s : str) :
  In s (load_exclusion_list (Some lines)) <->
  exists line,
    In line lines /\ s = PyStr.strip line
    /\ s <> [] /\ PyStr.startswith (u "#") s = false.
Proof.
  unfold load_exclusion_list. rewrite in_flat_map. split.
  - intros (line & Hin & Hs). exists line. cbv zeta in Hs.
    destruct (PyStr.strip line) as [|c r] eqn:E; [contradiction|].
    cbn [is_empty negb andb] in Hs.
    destruct (PyStr.startswith (u "#") (c :: r)) eqn:Ec; [contradiction|].
    destruct Hs as [<-|[]]. repeat split; try assumption. discriminate.
  - intros (line & Hin & -> & Hne & Hc). exists line. split; [exact Hin|].
    cbv zeta. destruct (PyStr.strip line) as [|c r]; [congruence|].
    cbn [is_empty negb andb]. rewrite Hc. now left.
Qed.

Lemma lstrip_keeps (P : N -> Prop) (s : str) :
  Forall P s -> Forall P (PyStr.lstrip s).
Proof.
  induction 1 as [|c s Hc Hs IH]; [constructor|].
  cbn [PyStr.lstrip]. destruct (PyStr.is_space c); [exact IH|now constructor].
Qed.

Lemma strip_ascii (s : str) : is_ascii s -> is_ascii (PyStr.strip s).
Proof.
  unfold is_ascii, PyStr.strip, PyStr.rstrip. intros Hs.
  apply Forall_rev, lstrip_keeps, Forall_rev, lstrip_keeps, Hs.
Qed.

(** X21. A sender is excluded through an exclusion file exactly when,
    for some line of the file that is neither blank nor a comment, the
    sender put in lower case by [str.lower] contains the line, stripped
    of the white space around it and put in lower case. For a file and a
    sender in ASCII this says that the stripped line occurs in the sender
    up to the case of the letters. A file that cannot be read excludes
    nobody, and no entry taken from a file is empty or has white space at
    an end. *)
Theorem exclusion_file_excludes
        (lower : str -> str) (file : option (list str)) (sender : str) :
  (should_exclude lower (load_exclusion_list file) sender = true <->
   exists lines line,
     file = Some lines /\ In line lines
     /\ PyStr.strip line <> []
     /\ PyStr.startswith (u "#") (PyStr.strip line) = false
     /\ contains_lowered lower (PyStr.strip line) sender)
  /\ (forall s, In s (load_exclusion_list file) -> s <> [] /\ trimmed s)
  /\ ((forall x, is_ascii x -> lower x = ascii_lower x) ->
      is_ascii sender ->
      (forall lines line, file = Some lines -> In line lines -> is_ascii line) ->
      (should_exclude lower (load_exclusion_list file) sender = true <->
       exists lines line,
         file = Some lines /\ In line lines
         /\ PyStr.strip line <> []
         /\ PyStr.startswith (u "#") (PyStr.strip line) = false
         /\ occurs_ignoring_ascii_case (PyStr.strip line) sender)).
Proof.
  assert (Hloop :
            should_exclude lower (load_exclusion_list file) sender = true <->
            exists lines line,
              file = Some lines /\ In line lines
              /\ PyStr.strip line <> []
              /\ PyStr.startswith (u "#") (PyStr.strip line) = false
              /\ contains_lowered lower (PyStr.strip line) sender).
  { rewrite should_exclude_true. split.
    - intros (s & Hin & Hs). destruct file as [lines|]; [|contradiction].
      apply load_exclusion_list_in in Hin as (line & Hl & -> & Hne & Hc).
      now exists lines, line.
    - intros (lines & line & -> & Hl & Hne & Hc & Hs).
      exists (PyStr.strip line). split; [|exact Hs].
      apply load_exclusion_list_in. now exists line. }
  split; [exact Hloop|]. split.
  - intros s Hin. destruct file as [lines|]; [|contradiction].
    apply load_exclusion_list_in in Hin as (line & _ & -> & Hne & _).
    split; [exact Hne|apply strip_trimmed].
  - intros Hlower Hsender Hfile. rewrite Hloop. split.
    + intros (lines & line & Hf & Hl & Hne & Hc & Hs).
      exists lines, line. repeat (split; [assumption|]).
      apply (@contains_lowered_ascii lower (PyStr.strip line) sender Hlower);
        try assumption.
      apply strip_ascii. now apply (Hfile lines).
    + intros (lines & line & Hf & Hl & Hne & Hc & Hs).
      exists lines, line. repeat (split; [assumption|]).
      apply (@contains_lowered_ascii lower (PyStr.strip line) sender Hlower);
        try assumption.
      apply strip_ascii. now apply (Hfile lines).
Qed.

(** A line of the file in another case than the sender excludes it. *)
Example exclusion_file_ignores_ascii_case :
  should_exclude StrLower.lower
                 (load_exclusion_list
                    (Some [u "# shops" ++ [chr_nl];
                           u "  News@Shop.example " ++ [chr_nl]]))
                 (u "Shop <news@shop.EXAMPLE>")
  = true.
Proof. vm_compute. reflexivity. Qed.

(** Blank lines and comments give no entry; a comment behind an address
    stays in the entry. *)
Example exclusion_file_entries :
  load_exclusion_list
    (Some [u "# newsletters" ++ [chr_nl];
           [chr_nl];
           u "  News@Shop.example " ++ [chr_nl];
           u "hr@corp.example # old" ++ [chr_nl]])
  = [u "News@Shop.example"; u "hr@corp.example # old"].
Proof. vm_compute. reflexivity. Qed.
